(** * Omniverse Connect samples: console menus, live-update loops, demo
      geometry and the [omnicli] command-line tool

    A shallow embedding of the parts of [liveSession.cpp], [helloWorld.cpp],
    [omniSimpleSensor.cpp], [omniSensorThread.cpp] and [omnicli.cpp] whose
    behaviour is decided inside the samples themselves.  Calls into the
    Omniverse Client Library, the Connect SDK and USD are kept as oracles
    (type classes) and as events of a trace; everything the samples compute
    on their own (menu dispatch, tokenizing, ACL editing, the [cat] filter,
    the vertex tables) is executable. *)

From Stdlib Require Import String Ascii List ZArith NArith Bool Lia.
Import ListNotations.


(** ** Text

    [std::string] and [char const*] values are lists of 8-bit characters. *)

Definition text := list ascii.

Definition str (s : string) : text := list_ascii_of_string s.

Fixpoint text_eqb (a b : text) : bool :=
  match a, b with
  | [], [] => true
  | x :: a', y :: b' => Ascii.eqb x y && text_eqb a' b'
  | _, _ => false
  end.

Definition code (c : ascii) : Z := Z.of_N (N_of_ascii c).

Definition chr (z : Z) : ascii := ascii_of_N (Z.to_N (z mod 256)).

Definition NUL : ascii := "000"%char.
Definition TAB : ascii := "009"%char.
Definition LF : ascii := "010"%char.
Definition CR : ascii := "013"%char.
Definition ESC : ascii := "027"%char.
Definition SPACE : ascii := " "%char.
Definition DQUOTE : ascii := "034"%char.
Definition BACKSLASH : ascii := "\"%char.

Definition EXIT_SUCCESS : Z := 0.
Definition EXIT_FAILURE : Z := 1.

(** ** Console input

    The programs read the console through [getchar] and through [std::cin];
    both draw from the same standard input, modelled as the characters still
    to come.  The end of the list is the end of input. *)

Module Console.

Definition stdin := list ascii.

Definition EOF : Z := -1.

(** [int getchar(void)]: the next character as an [unsigned char] value,
    or [EOF]. *)
Definition getchar (inp : stdin) : Z * stdin :=
  match inp with
  | [] => (EOF, [])
  | c :: rest => (code c, rest)
  end.

(** [isspace] in the C locale: space and the control characters 9 to 13. *)
Definition isspace (c : ascii) : bool :=
  let n := code c in
  (n =? 32)%Z || ((9 <=? n)%Z && (n <=? 13)%Z).

(** [isdigit] and [toupper] in the C locale, on an [int] argument. *)
Definition isdigit (n : Z) : bool := (48 <=? n)%Z && (n <=? 57)%Z.

Definition toupper (n : Z) : Z :=
  if (97 <=? n)%Z && (n <=? 122)%Z then (n - 32)%Z else n.

Definition tolower (n : Z) : Z :=
  if (65 <=? n)%Z && (n <=? 90)%Z then (n + 32)%Z else n.

(** The sentry of a formatted extraction skips leading white space. *)
Fixpoint skipws (inp : stdin) : stdin :=
  match inp with
  | [] => []
  | c :: rest => if isspace c then skipws rest else inp
  end.

(** Characters up to, and not including, the next white space. *)
Fixpoint read_word (inp : stdin) : text * stdin :=
  match inp with
  | [] => ([], [])
  | c :: rest =>
      if isspace c then ([], inp)
      else let (w, rest') := read_word rest in (c :: w, rest')
  end.

(** [std::cin >> s] for a [std::string s]: [None] when the extraction
    fails (end of input before any character), in which case [s] keeps
    its value. *)
Definition cin_string (inp : stdin) : option text * stdin :=
  match skipws inp with
  | [] => (None, [])
  | rest => let (w, rest') := read_word rest in (Some w, rest')
  end.

(** [std::cin >> c] for a [char c]. *)
Definition cin_char (inp : stdin) : option ascii * stdin :=
  match skipws inp with
  | [] => (None, [])
  | c :: rest => (Some c, rest)
  end.

(** [std::cin.get()]: one unformatted character, if any. *)
Definition cin_get (inp : stdin) : stdin :=
  match inp with
  | [] => []
  | _ :: rest => rest
  end.

(** [std::getline(std::cin, line)]: up to the next newline, which is
    consumed and not stored. *)
Fixpoint cin_getline (inp : stdin) : text * stdin :=
  match inp with
  | [] => ([], [])
  | c :: rest =>
      if Ascii.eqb c LF then ([], rest)
      else let (l, rest') := cin_getline rest in (c :: l, rest')
  end.

End Console.

(** ** Results of the client library

    [OmniClientResult] is declared in [OmniClient.h]; the samples name its
    three success values and compare the others only for (in)equality with
    them, so the error values are kept by their number. *)

Inductive OmniClientResult : Type :=
| eOmniClientResult_Ok
| eOmniClientResult_OkLatest
| eOmniClientResult_OkNotYetFound
| eOmniClientResult_Error (n : nat).

Definition is_Ok (r : OmniClientResult) : bool :=
  match r with eOmniClientResult_Ok => true | _ => false end.

Definition is_ok_variant (r : OmniClientResult) : Prop :=
  r = eOmniClientResult_Ok \/ r = eOmniClientResult_OkLatest
  \/ r = eOmniClientResult_OkNotYetFound.

(** ** omnicli: the tokenizer *)

Module Tokenizer.

(** The local variables of [tokenize]. *)
Record state : Type := mkState {
  tokens : list text;
  token : text;
  inWhiteSpace : bool;
  inQuote : bool;
  backslashCount : N          (* uint32_t *)
}.

Definition init : state :=
  {| tokens := []; token := []; inWhiteSpace := true; inQuote := false;
     backslashCount := 0 |}.

Definition is_blank (c : ascii) : bool :=
  Ascii.eqb c SPACE || Ascii.eqb c TAB.

Definition uint32_incr (n : N) : N := ((n + 1) mod 4294967296)%N.

Definition backslashes (n : N) : text := repeat BACKSLASH (N.to_nat n).

(** One pass through the body of the [for] loop, for a character that is
    neither the terminating NUL nor a newline. *)
Definition step (s : state) (c : ascii) : state :=
  if inWhiteSpace s && is_blank c then s
  else
    if Ascii.eqb c BACKSLASH then
      {| tokens := tokens s; token := token s; inWhiteSpace := false;
         inQuote := inQuote s;
         backslashCount := uint32_incr (backslashCount s) |}
    else if Ascii.eqb c DQUOTE then
      let tk := token s ++ backslashes (backslashCount s / 2) in
      if (backslashCount s mod 2 =? 1)%N then
        {| tokens := tokens s; token := tk ++ [DQUOTE];
           inWhiteSpace := false; inQuote := inQuote s;
           backslashCount := 0 |}
      else
        {| tokens := tokens s; token := tk; inWhiteSpace := false;
           inQuote := negb (inQuote s); backslashCount := 0 |}
    else
      let tk := if (0 <? backslashCount s)%N
                then token s ++ backslashes (backslashCount s)
                else token s in
      if negb (inQuote s) && is_blank c then
        {| tokens := tokens s ++ [tk]; token := []; inWhiteSpace := true;
           inQuote := inQuote s; backslashCount := 0 |}
      else
        {| tokens := tokens s; token := tk ++ [c]; inWhiteSpace := false;
           inQuote := inQuote s; backslashCount := 0 |}.

(** The [for] loop: it ends at the NUL that ends the C string and breaks
    at a newline. *)
Fixpoint loop (s : state) (line : list ascii) : state :=
  match line with
  | [] => s
  | c :: rest =>
      if Ascii.eqb c NUL then s
      else if Ascii.eqb c LF then s
      else loop (step s c) rest
  end.

(** The code after the loop. *)
Definition finish (s : state) : list text :=
  let tk := if (0 <? backslashCount s)%N
            then token s ++ backslashes (backslashCount s)
            else token s in
  match tk with
  | [] => tokens s
  | _ :: _ => tokens s ++ [tk]
  end.

Definition tokenize (line : list ascii) : list text :=
  finish (loop init line).

(** *** What the rules say, stated apart from the loop *)

(** The part of a buffer that [tokenize] looks at: up to the first NUL or
    newline. *)
Fixpoint logical_line (line : list ascii) : list ascii :=
  match line with
  | [] => []
  | c :: rest =>
      if Ascii.eqb c NUL || Ascii.eqb c LF then []
      else c :: logical_line rest
  end.

(** The maximal runs of characters other than space and tab, in order;
    defined from the right, with no accumulator. *)
Fixpoint words (l : list ascii) : list text :=
  match l with
  | [] => []
  | c :: rest =>
      if is_blank c then words rest
      else
        match rest with
        | [] => [[c]]
        | c' :: _ =>
            if is_blank c' then [c] :: words rest
            else
              match words rest with
              | w :: ws => (c :: w) :: ws
              | [] => [[c]]
              end
        end
  end.



(** The state with [k] more backslashes pending. *)
Definition pending (s : state) (k : N) : state :=
  {| tokens := tokens s; token := token s; inWhiteSpace := false;
     inQuote := inQuote s;
     backslashCount := (backslashCount s + k)%N |}.

(** A character the loop treats as an ordinary one. *)
Definition ordinary (c : ascii) : Prop :=
  c <> NUL /\ c <> LF /\ c <> DQUOTE /\ c <> BACKSLASH.

End Tokenizer.

(** ** omnicli: commands *)

Module OmniCli.

Definition ArgVec := list text.

Definition MAX_URL_SIZE : Z := 2048.

(** [OmniClientContent]: [size] bytes at [buffer].  [beyond] is the memory
    that follows them, which the hexadecimal dump of [cat] reaches when
    the size is not a multiple of four. *)
Record OmniClientContent : Type := {
  buffer : list ascii;
  beyond : list ascii
}.

Definition size (c : OmniClientContent) : Z := Z.of_nat (length (buffer c)).

(** [OmniClientUrl] as returned by [omniClientBreakUrl]; only [query] is
    touched by the sample. *)
Record OmniClientUrl : Type := {
  components : text * text * text * text * text; (* scheme, user, host, port, path *)
  query : option text;
  fragment : option text
}.

Record OmniClientBranchAndCheckpoint : Type := {
  branch : text;
  checkpoint : Z
}.

Definition AclEntry : Type := text * Z.

(** The client library, as far as these commands call it.  A request and
    its [omniClientWait] are one call whose callback runs once with the
    values given here.  The functions that fill a caller's buffer return
    [None] when the pointer they return is not that buffer. *)
Class OmniClient : Type := {
  fOmniClientAccess_Read : Z;
  fOmniClientAccess_Write : Z;
  fOmniClientAccess_Admin : Z;
  omniClientReadFile : text -> OmniClientResult * OmniClientContent;
  omniClientGetAcls : text -> OmniClientResult * list AclEntry;
  omniClientSetAcls : text -> list AclEntry -> OmniClientResult;
  omniClientCreateCheckpoint : text -> text -> bool -> OmniClientResult * text;
  omniClientCombineWithBaseUrl : text -> option text;
  omniClientBreakUrl : text -> OmniClientUrl;
  omniClientGetBranchAndCheckpointFromQuery :
    option text -> option OmniClientBranchAndCheckpoint;
  omniClientMakeQueryFromBranchAndCheckpoint : text -> Z -> option text;
  omniClientMakeUrl : OmniClientUrl -> option text;
  omniClientCopy : text -> text -> OmniClientResult
}.

(** What a command does that can be seen from outside: calls that reach
    the server and lines on standard output. *)
Inductive event : Type :=
| Reconnect (url : text)
| ReadFile (url : text)
| GetAcls (url : text)
| SetAcls (url : text) (entries : list AclEntry)
| CreateCheckpoint (url comment : text) (force : bool)
| Copy (src dst : text)
| LiveProcess
| Print (line : string)
| PrintResult (r : OmniClientResult)
| PrintTooLarge (bytes : Z)
| PrintText (bytes : list ascii)          (* printf("%.*s\n", ...) *)
| PrintHexWord (word : N) (sep : ascii)   (* printf("%8x%c", ...) *)
| PrintUnknownAccess (accessStr : text)
| PrintNotInAcls (name : text)
| PrintCheckpointCreated (checkpointQuery : text).

Definition resultToRetcode (result : OmniClientResult) : Z :=
  match result with
  | eOmniClientResult_Ok
  | eOmniClientResult_OkLatest
  | eOmniClientResult_OkNotYetFound => EXIT_SUCCESS
  | _ => EXIT_FAILURE
  end.

(** *** cat *)

(** The scan that decides between text and dump; it stops at the first
    byte that is not text. *)
Fixpoint isAscii (buf : list ascii) : bool :=
  match buf with
  | [] => true
  | b :: rest =>
      if Ascii.eqb b LF || Ascii.eqb b TAB || Ascii.eqb b CR
      then isAscii rest
      else if (127 <=? code b)%Z || (code b <? 32)%Z then false
      else isAscii rest
  end.

(** [printf("%.*s", n, buf)]: at most [n] characters, ending at a NUL. *)
Fixpoint printf_precision_s (n : nat) (buf : list ascii) : list ascii :=
  match n, buf with
  | S n', b :: rest =>
      if Ascii.eqb b NUL then [] else b :: printf_precision_s n' rest
  | _, _ => []
  end.

Definition byte_at (c : OmniClientContent) (i : nat) : N :=
  N_of_ascii (nth i (buffer c ++ beyond c) NUL).

(** The 32-bit word read at byte offset [i] of the buffer (the source
    indexes the buffer as an array of [uint32_t]), on a little-endian
    machine. *)
Definition word_at (c : OmniClientContent) (i : nat) : N :=
  (byte_at c i + 256 * byte_at c (i + 1) + 65536 * byte_at c (i + 2)
   + 16777216 * byte_at c (i + 3))%N.

(** [for (size_t i = 0; i < content->size; i += 4)]. *)
Definition hex_dump (c : OmniClientContent) : list event :=
  map (fun k =>
         let i := 4 * k in
         PrintHexWord (word_at c i)
                      (if Nat.eqb (i mod 32) 0 then LF else SPACE))
      (seq 0 ((length (buffer c) + 3) / 4))
  ++ [Print "\n"].

Section Commands.
Context {client : OmniClient}.

(** The callback given to [omniClientReadFile]. *)
Definition cat_callback (result : OmniClientResult)
           (content : OmniClientContent) : Z * list event :=
  (resultToRetcode result,
   if negb (is_Ok result) then [PrintResult result]
   else if (1 * 1000 * 1000 <? size content)%Z
        then [PrintTooLarge (size content)]
   else if isAscii (buffer content)
        then [PrintText (printf_precision_s (Z.to_nat (size content))
                                            (buffer content))]
   else hex_dump content).

Definition cat (args : ArgVec) : Z * list event :=
  match args with
  | _ :: url :: _ =>
      let (result, content) := omniClientReadFile url in
      let (retCode, out) := cat_callback result content in
      (retCode, Reconnect url :: ReadFile url :: out)
  | _ => (EXIT_FAILURE, [Print "Not enough arguments\n"])
  end.

(** *** setacls *)

Definition uint16 (z : Z) : Z := z mod 65536.

(** The loop over the access string: [None] at an unknown letter. *)
Fixpoint parse_access (accessStr : text) (access : Z)
         (removeEntry : bool) : option (Z * bool) :=
  match accessStr with
  | [] => Some (access, removeEntry)
  | p :: rest =>
      let u := Console.toupper (code p) in
      if (u =? code "A")%Z then
        parse_access rest (uint16 (Z.lor access fOmniClientAccess_Admin))
                     removeEntry
      else if (u =? code "W")%Z then
        parse_access rest (uint16 (Z.lor access fOmniClientAccess_Write))
                     removeEntry
      else if (u =? code "R")%Z then
        parse_access rest (uint16 (Z.lor access fOmniClientAccess_Read))
                     removeEntry
      else if (u =? code "-")%Z then parse_access rest access true
      else None
  end.

(** The loop over the fetched entries: the others are pushed back in
    order, and [found] records whether the name was met. *)
Fixpoint scan_acls (name : text) (fetched : list AclEntry)
         (entries : list AclEntry) (found : bool)
  : list AclEntry * bool :=
  match fetched with
  | [] => (entries, found)
  | it :: rest =>
      if text_eqb (fst it) name
      then scan_acls name rest entries true
      else scan_acls name rest (entries ++ [(fst it, snd it)]) found
  end.

Definition send_acls (url : text) (entries : list AclEntry)
  : Z * list event :=
  let result := omniClientSetAcls url entries in
  (resultToRetcode result,
   SetAcls url entries
   :: (if negb (is_Ok result) then [PrintResult result] else [])).

Definition setacls (args : ArgVec) : Z * list event :=
  match args with
  | _ :: url :: name :: accessStr :: _ =>
      match parse_access accessStr 0 false with
      | None => (EXIT_FAILURE, [PrintUnknownAccess accessStr])
      | Some (access, removeEntry) =>
          let (result, fetched) := omniClientGetAcls url in
          if negb (is_Ok result) then
            (EXIT_FAILURE, [Reconnect url; GetAcls url; PrintResult result])
          else
            let (entries, found) := scan_acls name fetched [] false in
            if removeEntry then
              if negb found then
                (EXIT_FAILURE,
                 [Reconnect url; GetAcls url; PrintNotInAcls name])
              else
                let (retCode, out) := send_acls url entries in
                (retCode, Reconnect url :: GetAcls url :: out)
            else
              let (retCode, out) :=
                send_acls url (entries ++ [(name, access)]) in
              (retCode, Reconnect url :: GetAcls url :: out)
      end
  | _ => (EXIT_FAILURE, [Print "Not enough arguments\n"])
  end.

(** *** checkpoint and restoreCheckpoint *)

Definition makeCheckpoint (args : ArgVec) : Z * list event :=
  match args with
  | _ :: url :: more =>
      let comment := match more with c :: _ => c | [] => [] end in
      let bForce := true in
      let (result, checkpointQuery) :=
        omniClientCreateCheckpoint url comment bForce in
      (resultToRetcode result,
       [Reconnect url; CreateCheckpoint url comment bForce;
        if negb (is_Ok result) then PrintResult result
        else PrintCheckpointCreated checkpointQuery])
  | _ => (EXIT_FAILURE, [Print "Not enough arguments\n"])
  end.

Definition restoreCheckpoint (args : ArgVec) : Z * list event :=
  match args with
  | _ :: url :: _ =>
      match omniClientCombineWithBaseUrl url with
      | None => (EXIT_FAILURE, [Print "URL too long\n"])
      | Some combined =>
          let brokenUrl := omniClientBreakUrl combined in
          match omniClientGetBranchAndCheckpointFromQuery (query brokenUrl) with
          | None => (EXIT_FAILURE, [Print "No checkpoint provided\n"])
          | Some branchCheckpoint =>
              (* Re-build the query string with only the branch *)
              match omniClientMakeQueryFromBranchAndCheckpoint
                      (branch branchCheckpoint) 0 with
              | None =>
                  (EXIT_FAILURE, [Print "Query string buffer overflow\n"])
              | Some queryString =>
                  let brokenUrl' :=
                    {| components := components brokenUrl;
                       query := Some queryString;
                       fragment := fragment brokenUrl |} in
                  match omniClientMakeUrl brokenUrl' with
                  | None => (EXIT_FAILURE, [Print "URL buffer overflow\n"])
                  | Some dstUrl =>
                      let result := omniClientCopy url dstUrl in
                      (resultToRetcode result,
                       Reconnect url :: Copy url dstUrl
                       :: (if negb (is_Ok result)
                           then [PrintResult result] else []))
                  end
              end
          end
      end
  | _ => (EXIT_FAILURE, [Print "Not enough arguments\n"])
  end.

End Commands.

(** *** The background update thread of [main]

    The thread holds [g_mutex] except while it waits on [g_cv]; the other
    threads change the two flags only under the mutex, so only during a
    wait (or before the thread first takes the mutex). *)

Record globals : Type := {
  g_shutdown : bool;
  g_haveUpdates : bool
}.

Inductive notification : Type :=
| LiveUpdateQueued      (* the callback of omniClientLiveSetQueuedCallback *)
| ShutdownRequested.    (* the end of main *)

Definition notify (g : globals) (n : notification) : globals :=
  match n with
  | LiveUpdateQueued =>
      {| g_shutdown := g_shutdown g; g_haveUpdates := true |}
  | ShutdownRequested =>
      {| g_shutdown := true; g_haveUpdates := g_haveUpdates g |}
  end.

(** [while (!g_haveUpdates && !g_shutdown) g_cv.wait(lock);] where each
    element of [waits] holds what the other threads did during one wait
    (nothing, for a spurious wake-up).  [None]: the thread waits for
    ever. *)
Fixpoint wait_for_work (g : globals) (waits : list (list notification))
  : option (globals * list (list notification)) :=
  if negb (g_haveUpdates g) && negb (g_shutdown g) then
    match waits with
    | [] => None
    | w :: rest => wait_for_work (fold_left notify w g) rest
    end
  else Some (g, waits).

(** The [if (g_haveUpdates)] at the head of the loop body. *)
Definition process_updates (g : globals) : globals * list event :=
  if g_haveUpdates g then
    ({| g_shutdown := g_shutdown g; g_haveUpdates := false |},
     [Print "Processing live updates\n"; LiveProcess])
  else (g, []).

Inductive thread_end : Type :=
| Joined          (* the loop ended *)
| Waiting         (* blocked in g_cv.wait, nothing more to come *)
| OutOfFuel.

(** [while (!g_shutdown) { ... }]: the events of each iteration, and how
    the thread ends. *)
Fixpoint updateThread (fuel : nat) (g : globals)
         (waits : list (list notification))
  : list (list event) * thread_end :=
  match fuel with
  | O => ([], OutOfFuel)
  | S fuel' =>
      if g_shutdown g then ([], Joined)
      else
        let (g1, out) := process_updates g in
        match wait_for_work g1 waits with
        | None => ([out], Waiting)
        | Some (g2, waits') =>
            let (iterations, e) := updateThread fuel' g2 waits' in
            (out :: iterations, e)
        end
  end.

Definition initial_globals : globals :=
  {| g_shutdown := false; g_haveUpdates := false |}.

End OmniCli.

(** ** liveSession *)

Module LiveSession.
Import Console.

(** [LiveSessionChannel::MessageType]: the enumerators the sample names,
    and the others by number. *)
Inductive MessageType : Type :=
| eGetUsers
| eMergeStarted
| eMergeFinished
| eOtherMessage (n : nat).

Record Message : Type := {
  type : MessageType;
  user_name : text;
  user_app : text
}.

Inductive LiveSessionConfig : Type :=
| eVersion | eAdmin | eStageUri | eDescription | eMode | eName.

(** A [UsdGeomMesh]: the path of its prim, or no prim at all. *)
Definition UsdGeomMesh : Type := option text.

(** The Connect SDK and USD, as far as the sample asks them something.
    [char_is_signed] is the platform's choice for plain [char]. *)
Class ConnectSdk : Type := {
  char_is_signed : bool;
  join : text -> bool;                      (* a live layer was returned *)
  hasPrimSpecsInRootLayer : bool;
  primValidAndActive : UsdGeomMesh -> bool;
  stageTraverse : list (text * bool);       (* each prim, and whether it is a mesh *)
  getPrimAtPath : text -> bool;
  getValidChildName : text -> text -> text;
  renamePrim : text -> text -> bool;
  getLiveSessionConfig : LiveSessionConfig -> text;
  getUsers : list (text * text)
}.

Inductive event : Type :=
| GetChar (r : Z)                   (* getchar() or _getch() returned r *)
| CinChar (c : option ascii)        (* std::cin >> char *)
| CinString (s : option text)       (* std::cin >> std::string *)
| Log (line : string)               (* OMNI_LOG_INFO / WARN / ERROR *)
| LogWith (line : string) (arg : text)
| LiveProcess                       (* omniClientLiveProcess() *)
| Switch (nextCommand : ascii)      (* control reaches the switch *)
| SendMessage (t : MessageType)
| Join (sessionName : text)
| MergeToNewLayer
| MergeToRoot
| SetLocalTransform (angle : Z)
| RenamePrim (path newName : text).

(** How a call ends. *)
Inductive outcome (A : Type) : Type :=
| Returns (a : A) (rest : stdin)
| Exits (status : Z)        (* exit(status) *)
| Spins                     (* a loop that nothing ends any more *)
| Undefined                 (* an uninitialised variable is read *)
| OutOfFuel.

Arguments Returns {A} a rest.
Arguments Exits {A} status.
Arguments Spins {A}.
Arguments Undefined {A}.
Arguments OutOfFuel {A}.

Definition accepted (mergeOption : text) : bool :=
  text_eqb mergeOption (str "n") || text_eqb mergeOption (str "r")
  || text_eqb mergeOption (str "c").

Definition merge_prompt_text : string :=
  "Merge to new layer [n], root layer [r], or cancel [c]: ".

Definition root_specs_warning : string :=
  "There are PrimSpecs defined in the root layer.  Changes from the live session could be hidden if they are merged to a new layer.".

(** The [while] loop of [endAndMergeSession].  When the extraction fails
    the input is at its end, [mergeOption] keeps a value the loop does
    not accept and every later extraction fails too: the loop spins. *)
Fixpoint merge_prompt (fuel : nat) (rootHasSpecs : bool)
         (mergeOption : text) (inp : stdin) : list event * outcome text :=
  if accepted mergeOption then ([], Returns mergeOption inp)
  else
    match fuel with
    | O => ([], OutOfFuel)
    | S fuel' =>
        let asked :=
          (if rootHasSpecs then [Log root_specs_warning] else [])
          ++ [Log merge_prompt_text] in
        match cin_string inp with
        | (None, _) => (asked ++ [CinString None], Spins)
        | (Some w, rest) =>
            let (tr, o) := merge_prompt fuel' rootHasSpecs w rest in
            (asked ++ CinString (Some w) :: tr, o)
        end
    end.

(** The maximal runs of characters other than white space. *)
Fixpoint words (l : list ascii) : list text :=
  match l with
  | [] => []
  | c :: rest =>
      if isspace c then words rest
      else
        match rest with
        | [] => [[c]]
        | c' :: _ =>
            if isspace c' then [c] :: words rest
            else
              match words rest with
              | w :: ws => (c :: w) :: ws
              | [] => [[c]]
              end
        end
  end.

(** The first word of the input that is one of "n", "r", "c". *)
Definition first_accepted (inp : stdin) : option text :=
  find accepted (words inp).

Section Sample.
Context {sdk : ConnectSdk}.

Definition endAndMergeSession (inp : stdin) : list event * outcome bool :=
  let rootHasSpecs := hasPrimSpecsInRootLayer in
  let (tr, o) :=
    merge_prompt (S (length inp)) rootHasSpecs (str "_") inp in
  match o with
  | Returns mergeOption rest =>
      if text_eqb mergeOption (str "n") then
        (SendMessage eMergeStarted :: tr ++ [MergeToNewLayer],
         Returns true rest)
      else if text_eqb mergeOption (str "r") then
        (SendMessage eMergeStarted :: tr ++ [MergeToRoot],
         Returns true rest)
      else (SendMessage eMergeStarted :: tr, Returns false rest)
  | Exits status => (SendMessage eMergeStarted :: tr, Exits status)
  | Spins => (SendMessage eMergeStarted :: tr, Spins)
  | Undefined => (SendMessage eMergeStarted :: tr, Undefined)
  | OutOfFuel => (SendMessage eMergeStarted :: tr, OutOfFuel)
  end.

(** *** findOrCreateSession *)

(** The value of a [char] as an [int]. *)
Definition int_of_char (c : ascii) : Z :=
  if char_is_signed && (128 <=? code c)%Z then (code c - 256)%Z
  else code c.

Definition size_t (z : Z) : Z := z mod 2 ^ 64.

Definition session_menu (sessionList : list text) : list event :=
  Log "Select or create a Live Session:"
  :: map (LogWith " [%d] %s") sessionList
  ++ [Log " [n] Create a new session"; Log " [q] Quit";
      Log "Select a live session to join:"].

Definition findOrCreateSession (sessionList : list text) (inp : stdin)
  : list event * outcome unit :=
  match cin_char inp with
  | (None, _) => (session_menu sessionList ++ [CinChar None], Undefined)
  | (Some selection, rest) =>
      let selectionIdx := size_t (size_t (int_of_char selection) - 48) in
      let chosen : option (list event * text * stdin) :=
        if isdigit (int_of_char selection)
           && (selectionIdx <? Z.of_nat (length sessionList))%Z
        then Some ([], nth (Z.to_nat selectionIdx) sessionList [], rest)
        else if Ascii.eqb "n" selection then
          let (w, rest') := cin_string rest in
          Some ([Log "Enter the new session name: "; CinString w],
                match w with Some s => s | None => [] end, rest')
        else None in
      match chosen with
      | None =>
          (session_menu sessionList
           ++ [CinChar (Some selection); Log "Exiting"], Exits 0)
      | Some (asked, sessionName, rest') =>
          if join sessionName then
            (session_menu sessionList ++ CinChar (Some selection) :: asked
             ++ [Join sessionName;
                 LogWith "Successfully joined session: %s" sessionName],
             Returns tt rest')
          else
            (session_menu sessionList ++ CinChar (Some selection) :: asked
             ++ [Join sessionName;
                 LogWith "Failed to join live session: %s" sessionName],
             Exits 1)
      end
  end.

(** *** liveEdit *)

Record edit_state : Type := {
  angle : Z;               (* a double holding a multiple of 15 *)
  geomMesh : UsdGeomMesh
}.

Definition optionsStr : string :=
  "Enter an option:\n [t] transform the mesh\n [r] rename a prim\n [o] list session owner/admin\n [u] list session users\n [g] emit a GetUsers message (note there will be no response unless another app is connected to the same session)\n [c] log contents of the session config file\n [m] merge changes and end the session\n [q] quit.".

(** The first mesh met when the stage is traversed ([liveEdit] is only
    called with a stage that was opened). *)
Definition findGeomMesh : list event * UsdGeomMesh :=
  match find snd stageTraverse with
  | Some node => ([LogWith "Found UsdGeomMesh: %s" (fst node)],
                  Some (fst node))
  | None => ([Log "No UsdGeomMesh found in stage"], None)
  end.

Definition config_keys : list LiveSessionConfig :=
  [eVersion; eAdmin; eStageUri; eDescription; eMode; eName].

Definition configToString (k : LiveSessionConfig) : string :=
  match k with
  | eVersion => "Version"
  | eAdmin => "Admin"
  | eStageUri => "StageUri"
  | eDescription => "Description"
  | eMode => "Mode"
  | eName => "Name"
  end.

Definition transform_case (st : edit_state) : list event * edit_state :=
  let usable := primValidAndActive (geomMesh st) in
  let mesh1 := if usable then geomMesh st else snd findGeomMesh in
  let looked :=
    if usable then []
    else Log "Prim no longer valid and active, finding a new one to move..."
         :: fst findGeomMesh
         ++ match snd findGeomMesh with
            | Some p => [LogWith "Found new mesh to move: %s" p]
            | None => []
            end in
  if negb (primValidAndActive mesh1) then
    (looked, {| angle := angle st; geomMesh := mesh1 |})
  else
    let angle1 := (angle st + 15)%Z in
    let angle2 := if (360 <=? angle1)%Z then 0%Z else angle1 in
    (looked ++ [SetLocalTransform angle2; Log "Setting pos: ... and rot: ...";
                LiveProcess],
     {| angle := angle2; geomMesh := mesh1 |}).

Definition rename_case (inp : stdin) : list event * stdin :=
  let (w1, rest1) := cin_string inp in
  let primToRename := match w1 with Some s => s | None => [] end in
  let asked1 := [Log "Enter complete prim path to rename: "; CinString w1] in
  if negb (getPrimAtPath primToRename) then
    (asked1 ++ [LogWith "Could not find prim: %s" primToRename], rest1)
  else
    let (w2, rest2) := cin_string rest1 in
    let newName := match w2 with Some s => s | None => [] end in
    let asked2 := [Log "Enter new prim name (not entire path):"; CinString w2] in
    let valid := getValidChildName primToRename newName in
    if renamePrim primToRename valid then
      (asked1 ++ asked2
       ++ [RenamePrim primToRename valid; LiveProcess;
           LogWith "%s renamed to: %s" primToRename], rest2)
    else
      (asked1 ++ asked2
       ++ [RenamePrim primToRename valid;
           LogWith "%s rename failed." primToRename], rest2).

Definition config_case : list event :=
  Log "Retrieving session config file: "
  :: flat_map (fun k =>
                 match getLiveSessionConfig k with
                 | [] => []
                 | value => [LogWith (configToString k) value]
                 end) config_keys.

(** The [switch]: the events, the state after it, and [wait]. *)
Definition dispatch (st : edit_state) (nextCommand : ascii) (inp : stdin)
  : list event * edit_state * outcome bool :=
  if Ascii.eqb nextCommand "t" then
    let (ev, st') := transform_case st in (ev, st', Returns true inp)
  else if Ascii.eqb nextCommand "r" then
    let (ev, rest) := rename_case inp in (ev, st, Returns true rest)
  else if Ascii.eqb nextCommand "o" then
    ([LogWith "Session Admin: %s" (getLiveSessionConfig eAdmin)], st,
     Returns true inp)
  else if Ascii.eqb nextCommand "u" then
    (Log "Listing Session users:"
     :: match getUsers with
        | [] => [Log " - No other users in session"]
        | users => map (fun u => LogWith " - %s [%s]" (fst u)) users
        end, st, Returns true inp)
  else if Ascii.eqb nextCommand "g" then
    ([Log "Blasting GET_USERS message to channel"; SendMessage eGetUsers],
     st, Returns true inp)
  else if Ascii.eqb nextCommand "c" then
    (config_case, st, Returns true inp)
  else if Ascii.eqb nextCommand "m" then
    let (ev, o) := endAndMergeSession inp in
    (Log "Merging session changes to root layer, Live Session complete"
     :: ev, st,
     match o with
     | Returns merged rest => Returns (negb merged) rest
     | Exits status => Exits status
     | Spins => Spins
     | Undefined => Undefined
     | OutOfFuel => OutOfFuel
     end)
  else if Ascii.eqb nextCommand ESC || Ascii.eqb nextCommand "q" then
    ([Log "Live Edit complete"], st, Returns false inp)
  else ([Log optionsStr], st, Returns true inp).

(** *** The two threads

    [main] runs [liveEdit] while the channel-update thread runs
    [AppUpdate::run]; they share [gStageMerged].  The main thread is
    cut at the points between which the flag may change. *)

Inductive position : Type :=
| AtGetchar
| AtMergedCheck (nextCommand : ascii)
| AtLiveProcess (nextCommand : ascii)
| AtSwitch (nextCommand : ascii)
| Finished                 (* liveEdit has returned *)
| Stuck.                   (* inside a loop that nothing ends *)

Record system : Type := {
  gStageMerged : bool;
  at_ : position;
  locals : edit_state;
  input : stdin
}.

Definition is_merge (t : MessageType) : bool :=
  match t with
  | eMergeStarted | eMergeFinished => true
  | _ => false
  end.

Definition merge_warning : string :=
  "Exiting since a merge is happening in another client".

(** The inner [for] loop of [AppUpdate::run] over the messages of one
    [processMessages]. *)
Fixpoint process_messages (merged : bool) (messages : list Message)
  : bool * list event :=
  match messages with
  | [] => (merged, [])
  | msg :: rest =>
      let here :=
        LogWith "Channel Message: %s %s - %s" (user_name msg)
        :: (if is_merge (type msg) then [Log merge_warning] else []) in
      let (merged', ev) :=
        process_messages (merged || is_merge (type msg)) rest in
      (merged', here ++ ev)
  end.

(** One step of the main thread. *)
Definition main_step (s : system) : system * list event :=
  match at_ s with
  | AtGetchar =>
      let (r, rest) := getchar (input s) in
      ({| gStageMerged := gStageMerged s; at_ := AtMergedCheck (chr r);
          locals := locals s; input := rest |}, [GetChar r])
  | AtMergedCheck c =>
      ({| gStageMerged := gStageMerged s;
          at_ := if gStageMerged s then Finished else AtLiveProcess c;
          locals := locals s; input := input s |}, [])
  | AtLiveProcess c =>
      ({| gStageMerged := gStageMerged s; at_ := AtSwitch c;
          locals := locals s; input := input s |}, [LiveProcess])
  | AtSwitch c =>
      let '(ev, st', o) := dispatch (locals s) c (input s) in
      match o with
      | Returns wait rest =>
          ({| gStageMerged := gStageMerged s;
              at_ := if wait then AtGetchar else Finished;
              locals := st'; input := rest |}, Switch c :: ev)
      | _ =>
          ({| gStageMerged := gStageMerged s; at_ := Stuck;
              locals := st'; input := [] |}, Switch c :: ev)
      end
  | Finished | Stuck => (s, [])
  end.

Inductive action : Type :=
| MainThread
| ChannelThread (messages : list Message).

Definition step (s : system) (a : action) : system * list event :=
  match a with
  | MainThread => main_step s
  | ChannelThread messages =>
      let (merged, ev) := process_messages (gStageMerged s) messages in
      ({| gStageMerged := merged; at_ := at_ s; locals := locals s;
          input := input s |}, ev)
  end.

Fixpoint run (schedule : list action) (s : system)
  : system * list event :=
  match schedule with
  | [] => (s, [])
  | a :: rest =>
      let (s1, ev1) := step s a in
      let (s2, ev2) := run rest s1 in
      (s2, ev1 ++ ev2)
  end.

(** [liveEdit] up to its loop, with the flag as [main] starts it. *)
Definition liveEdit_start (mesh : UsdGeomMesh) (inp : stdin)
  : system * list event :=
  ({| gStageMerged := false; at_ := AtGetchar;
      locals := {| angle := 0; geomMesh := mesh |}; input := inp |},
   [LiveProcess;
    LogWith "Begin Live Edit on %s"
            (match mesh with Some p => p | None => [] end);
    Log optionsStr]).

(** One whole iteration of the loop of [liveEdit], the flag being
    [merged] when it is tested: [None] when the loop ends. *)
Definition liveEdit_iteration (merged : bool) (st : edit_state)
           (inp : stdin)
  : list event * outcome (option edit_state) :=
  let (r, rest) := getchar inp in
  let nextCommand := chr r in
  if merged then ([GetChar r], Returns None rest)
  else
    let '(ev, st', o) := dispatch st nextCommand rest in
    (GetChar r :: LiveProcess :: Switch nextCommand :: ev,
     match o with
     | Returns wait rest' =>
         Returns (if wait then Some st' else None) rest'
     | Exits status => Exits status
     | Spins => Spins
     | Undefined => Undefined
     | OutOfFuel => OutOfFuel
     end).

Definition is_switch (e : event) : bool :=
  match e with Switch _ => true | _ => false end.

Definition switches (tr : list event) : nat :=
  length (filter is_switch tr).

End Sample.

End LiveSession.

(** ** helloWorld *)

Module HelloWorld.
Import Console.

(** The platform and the client library, as far as [liveEdit] depends on
    them. *)
Class Platform : Type := {
  WIN32 : bool;                         (* compiled with _WIN32 defined *)
  kInvalidRequestId : Z;
  omniClientJoinChannel : text -> Z     (* the request id returned *)
}.

Inductive event : Type :=
| GetChar (r : Z)                   (* getchar() or _getch() returned r *)
| GetLine (line : text)             (* getline() returned line *)
| Log (line : string)
| LiveProcess                       (* omniClientLiveProcess() *)
| JoinChannel (url : text)
| SetLocalTransform (angle : Z)
| CreateAndBindAnimForSkel (animName : string) (animCounter : Z)
| SetElbowRelativeXTranslation (frame : nat)
| Sleep
| SendMessage (requestId : Z) (message : text)
| Stop (requestId : Z).

Definition kLoopText : string :=
  "Enter 't' to transform,\n's' to create anim,\n'a' to stream anim,\n'm' to msg channel,\n'l' to leave channel,\n'q' to quit".

Section Sample.
Context {platform : Platform}.

Definition getline (inp : stdin) : text * stdin :=
  cin_getline (if WIN32 then inp else cin_get inp).

Definition inputChar (inp : stdin) : ascii * stdin :=
  let (r, rest) := getchar inp in (chr r, rest).

Record edit_state : Type := {
  angle : Z;               (* a double holding a multiple of 15 *)
  animCounter : Z;         (* static int *)
  joinRequestId : Z
}.

Definition kFrames : nat := 60.

(** The [switch]: the events, the state after it, [wait], and the input
    left. *)
Definition dispatch (st : edit_state) (nextCommand : ascii) (inp : stdin)
  : list event * edit_state * bool * stdin :=
  if Ascii.eqb nextCommand "t" then
    let angle1 := (angle st + 15)%Z in
    let angle2 := if (360 <=? angle1)%Z then 0%Z else angle1 in
    ([SetLocalTransform angle2; Log "Setting pos: ... and rot: ...";
      LiveProcess],
     {| angle := angle2; animCounter := animCounter st;
        joinRequestId := joinRequestId st |}, true, inp)
  else if Ascii.eqb nextCommand "s" then
    ([Log "Create animation <%s> with max elbow/wrist angles <%i/%i>";
      CreateAndBindAnimForSkel "randomLiveAnim_" (animCounter st);
      LiveProcess],
     {| angle := angle st; animCounter := (animCounter st + 1)%Z;
        joinRequestId := joinRequestId st |}, true, inp)
  else if Ascii.eqb nextCommand "a" then
    (flat_map (fun i => [SetElbowRelativeXTranslation i; LiveProcess; Sleep])
              (seq 0 kFrames),
     st, true, inp)
  else if Ascii.eqb nextCommand "m" then
    if negb (kInvalidRequestId =? joinRequestId st)%Z then
      let (message, rest) := getline inp in
      ([Log "Enter a channel message:"; GetLine message;
        SendMessage (joinRequestId st) message], st, true, rest)
    else ([Log "The message channel is disconnected."], st, true, inp)
  else if Ascii.eqb nextCommand "l" then
    ([Log "Leaving message channel."; Stop (joinRequestId st)],
     {| angle := angle st; animCounter := animCounter st;
        joinRequestId := kInvalidRequestId |}, true, inp)
  else if Ascii.eqb nextCommand ESC || Ascii.eqb nextCommand "q" then
    ([Log "Live Edit complete\n"], st, false, inp)
  else ([Log kLoopText], st, true, inp).

(** One iteration of the [while (wait)] loop: [None] when it was the
    last. *)
Definition liveEdit_iteration (st : edit_state) (inp : stdin)
  : list event * option edit_state * stdin :=
  let (nextCommand, rest) := inputChar inp in
  let '(ev, st', wait, rest') := dispatch st nextCommand rest in
  (GetChar (fst (getchar inp)) :: LiveProcess :: ev,
   if wait then Some st' else None, rest').

(** [liveEdit]: the code before the loop, then the loop. *)
Definition liveEdit_start (stageUrl : text) : list event * edit_state :=
  let channel := stageUrl ++ str ".__omni_channel__" in
  ([LiveProcess; Log "Begin Live Edit on %s\n%s\n"; JoinChannel channel],
   {| angle := 0; animCounter := 0;
      joinRequestId := omniClientJoinChannel channel |}).

Fixpoint liveEdit_loop (fuel : nat) (st : edit_state) (inp : stdin)
  : list (list event) * bool :=
  match fuel with
  | O => ([], false)
  | S fuel' =>
      let '(ev, next, rest) := liveEdit_iteration st inp in
      match next with
      | None => ([ev], true)
      | Some st' =>
          let (iterations, ended) := liveEdit_loop fuel' st' rest in
          (ev :: iterations, ended)
      end
  end.

End Sample.

(** *** Box mesh data

    [gVal] is 50.0; it and its negation are the same number as a [double]
    and as the [float] of a [GfVec3f], so the coordinates are integers
    here. *)

Definition gVal : Z := 50.

Definition gBoxVertexIndices : list Z :=
  [0; 1; 2; 1; 3; 2; 4; 5; 6; 4; 6; 7; 8; 9; 10; 8; 10; 11; 12; 13; 14;
   12; 14; 15; 16; 17; 18; 16; 18; 19; 20; 21; 22; 20; 22; 23]%Z.

Definition gBoxNormals : list (Z * Z * Z) :=
  [(0, 0, -1); (0, 0, 1); (0, -1, 0); (1, 0, 0); (0, 1, 0); (-1, 0, 0)]%Z.

Definition gBoxNormalIndices : list Z :=
  [0; 0; 0; 0; 1; 1; 1; 1; 2; 2; 2; 2; 3; 3; 3; 3; 4; 4; 4; 4;
   5; 5; 5; 5]%Z.

Definition gBoxPoints : list (Z * Z * Z) :=
  [(gVal, -gVal, -gVal); (-gVal, -gVal, -gVal); (gVal, gVal, -gVal);
   (-gVal, gVal, -gVal); (gVal, gVal, gVal); (-gVal, gVal, gVal);
   (-gVal, -gVal, gVal); (gVal, -gVal, gVal); (gVal, -gVal, gVal);
   (-gVal, -gVal, gVal); (-gVal, -gVal, -gVal); (gVal, -gVal, -gVal);
   (gVal, gVal, gVal); (gVal, -gVal, gVal); (gVal, -gVal, -gVal);
   (gVal, gVal, -gVal); (-gVal, gVal, gVal); (gVal, gVal, gVal);
   (gVal, gVal, -gVal); (-gVal, gVal, -gVal); (-gVal, -gVal, gVal);
   (-gVal, gVal, gVal); (-gVal, gVal, -gVal); (-gVal, -gVal, -gVal)]%Z.

Definition gBoxUV : list (Z * Z) := [(0, 0); (0, 1); (1, 1); (1, 0)]%Z.

Definition gBoxUVIndices : list Z :=
  [0; 1; 3; 2; 0; 1; 3; 2; 0; 1; 3; 2; 0; 1; 3; 2; 0; 1; 3; 2;
   0; 1; 3; 2]%Z.

(** What [createBox] and [createQuad] hand to [definePolyMesh]. *)
Record PolyMesh (point : Type) : Type := {
  faceVertexCounts : list Z;
  faceVertexIndices : list Z;
  points : list point;
  normals : list point;
  normalIndices : option (list Z)
}.

Arguments faceVertexCounts {point}.
Arguments faceVertexIndices {point}.
Arguments points {point}.
Arguments normals {point}.
Arguments normalIndices {point}.

(** [HW_ARRAY_COUNT]. *)
Definition HW_ARRAY_COUNT {A : Type} (array : list A) : nat := length array.

(** The copy loops: element [i] of the table for each [i] below the
    count. *)
Definition copy_array {A : Type} (d : A) (array : list A) : list A :=
  map (fun i => nth i array d) (seq 0 (HW_ARRAY_COUNT array)).

Definition createBox_mesh : PolyMesh (Z * Z * Z) :=
  {| faceVertexCounts := repeat 3%Z 12;
     faceVertexIndices := copy_array 0%Z gBoxVertexIndices;
     points := copy_array (0, 0, 0)%Z gBoxPoints;
     normals := copy_array (0, 0, 0)%Z gBoxNormals;
     normalIndices := Some (copy_array 0%Z gBoxNormalIndices) |}.

(** [createQuad]: [size] is a [double], the points are [GfVec3f]; the
    numbers are kept abstract, with the negation of a [double] and its
    conversion to [float]. *)
Section Quad.
Variables (double float : Type).
Variable neg : double -> double.
Variable to_float : double -> float.
Variables (zero one : float).           (* the constants 0.0 and 1.0 *)

Definition createQuad_mesh (size : double)
  : PolyMesh (float * float * float) :=
  {| faceVertexCounts := [4%Z];
     faceVertexIndices := [0; 1; 2; 3]%Z;
     points := [(to_float (neg size), zero, to_float (neg size));
                (to_float (neg size), zero, to_float size);
                (to_float size, zero, to_float size);
                (to_float size, zero, to_float (neg size))];
     normals := [(zero, one, zero); (zero, one, zero);
                 (zero, one, zero); (zero, one, zero)];
     normalIndices := None |}.
End Quad.

(** A mesh whose faces index its points. *)
Definition well_formed {point : Type} (m : PolyMesh point) : Prop :=
  fold_right Z.add 0%Z (faceVertexCounts m)
  = Z.of_nat (length (faceVertexIndices m))
  /\ Forall (fun i => (0 <= i < Z.of_nat (length (points m)))%Z)
            (faceVertexIndices m).

End HelloWorld.

(** ** omniSimpleSensor *)

Module SimpleSensor.

Definition gVal : Z := 50.

Definition gBoxVertexIndices : list Z :=
  [0; 1; 2; 1; 3; 2; 4; 5; 6; 4; 6; 7; 8; 9; 10; 8; 10; 11;
   12; 13; 14; 12; 14; 15; 16; 17; 18; 16; 18; 19; 20; 21; 22; 20; 22; 23]%Z.

Definition gBoxPoints : list (Z * Z * Z) :=
  [(gVal, -gVal, -gVal); (-gVal, -gVal, -gVal); (gVal, gVal, -gVal);
   (-gVal, gVal, -gVal); (gVal, gVal, gVal);
   (-gVal, gVal, gVal); (-gVal, -gVal, gVal); (gVal, -gVal, gVal);
   (gVal, -gVal, gVal); (-gVal, -gVal, gVal);
   (-gVal, -gVal, -gVal); (gVal, -gVal, -gVal); (gVal, gVal, gVal);
   (gVal, -gVal, gVal); (gVal, -gVal, -gVal);
   (gVal, gVal, -gVal); (-gVal, gVal, gVal); (gVal, gVal, gVal);
   (gVal, gVal, -gVal); (-gVal, gVal, -gVal);
   (-gVal, -gVal, gVal); (-gVal, gVal, gVal); (-gVal, gVal, -gVal);
   (-gVal, -gVal, -gVal)]%Z.

(** The [float] nearest to an integer, ties going to the even
    significand: a [float] has 24 significant bits, so the integers up to
    2^24 in size are kept and larger ones are rounded to a multiple of a
    power of two.  (Every value of an [int], and every sum below, is far
    from the largest [float].) *)
Definition float_of_Z (z : Z) : Z :=
  let a := Z.abs z in
  if (a <? 2 ^ 24)%Z then z
  else
    let q := (2 ^ (Z.log2 a - 23))%Z in
    let k := (a / q)%Z in
    let r := (a mod q)%Z in
    let k' := if (2 * r <? q)%Z then k
              else if (q <? 2 * r)%Z then (k + 1)%Z
              else if Z.even k then k else (k + 1)%Z in
    (Z.sgn z * (k' * q))%Z.

(** [createZoneGeometry]: the counts and indices are those of the table;
    each point is the table's point moved by the offset of the zone.  The
    offsets are [float]s; a coordinate of the table (a [double]) and an
    offset are added as [double]s, which is exact, and the sum is stored
    in the [float] of a [GfVec3f]. *)
Definition zone_faceVertexCounts : list Z := repeat 3%Z 12.

Definition zone_faceVertexIndices : list Z :=
  HelloWorld.copy_array 0%Z gBoxVertexIndices.

Definition zone_points (xOffset yOffset zOffset : Z) : list (Z * Z * Z) :=
  map (fun i =>
         let '(x, y, z) := nth i gBoxPoints (0, 0, 0)%Z in
         (float_of_Z (x + xOffset), float_of_Z (y + yOffset),
          float_of_Z (z + zOffset)))
      (seq 0 (HelloWorld.HW_ARRAY_COUNT gBoxPoints)).

End SimpleSensor.

(** ** omniSensorThread *)

Module SensorThread.

(** [gTimerPeriod], in milliseconds. *)
Definition gTimerPeriod : Z := 300.

Inductive event : Type :=
| SleepFor (ms : Z)
| LiveProcess                     (* omniClientLiveProcess() *)
| SetDisplayColor (step : Z).     (* the colour for cos(step) *)

(** One pass through the body of the loop of [doWork]; [variance] is the
    cosine of [step]. *)
Definition doWork_iteration (step : Z) : list event * Z :=
  ([SleepFor gTimerPeriod; LiveProcess; SetDisplayColor step; LiveProcess],
   let step1 := (step + 1)%Z in
   if (360 <=? step1)%Z then 0%Z else step1).

(** [while (!stopped)], where [stopped_reads] are the values the loop
    reads from the atomic flag, one at each test.  [true] in the result:
    the loop has ended. *)
Fixpoint doWork (stopped_reads : list bool) (step : Z)
  : list (list event) * bool :=
  match stopped_reads with
  | [] => ([], false)
  | true :: _ => ([], true)
  | false :: rest =>
      let (ev, step') := doWork_iteration step in
      let (iterations, ended) := doWork rest step' in
      (ev :: iterations, ended)
  end.

End SensorThread.

(** ** What is read off a trace *)

Module Trace.
Import LiveSession.

(** The words [std::cin] handed out, in order ([None]: a failed read). *)
Fixpoint cin_reads (tr : list event) : list (option text) :=
  match tr with
  | [] => []
  | CinString s :: rest => s :: cin_reads rest
  | _ :: rest => cin_reads rest
  end.

Definition is_merge_call (e : event) : bool :=
  match e with MergeToNewLayer | MergeToRoot => true | _ => false end.

(** The merges carried out, in order. *)
Definition merges (tr : list event) : list event := filter is_merge_call tr.

(** The sessions joined, in order. *)
Fixpoint joins (tr : list event) : list text :=
  match tr with
  | [] => []
  | Join name :: rest => name :: joins rest
  | _ :: rest => joins rest
  end.

Definition is_getchar (e : event) : bool :=
  match e with GetChar _ => true | _ => false end.

(** The number of calls of [getchar]. *)
Definition getchars (tr : list event) : nat :=
  length (filter is_getchar tr).

(** The words up to and including the first that the merge prompt
    accepts. *)
Fixpoint until_accepted (ws : list text) : list text :=
  match ws with
  | [] => []
  | w :: rest => if accepted w then [w] else w :: until_accepted rest
  end.

(** An event that neither reads the console with [getchar] nor changes
    anything outside the program. *)
Definition asks_only (e : event) : Prop :=
  match e with
  | Log _ | LogWith _ _ | CinString _ => True
  | _ => False
  end.

(** An event that changes nothing outside the program: a key read or a
    line logged. *)
Definition passive (e : event) : Prop :=
  match e with
  | GetChar _ | Log _ | LogWith _ _ => True
  | _ => False
  end.

(** An event of the body of a command: not the read of the command key
    and not the entry into the switch. *)
Definition inner (e : event) : Prop :=
  is_switch e = false /\ is_getchar e = false.

Definition is_main (a : action) : bool :=
  match a with MainThread => true | ChannelThread _ => false end.

(** The number of steps the main thread takes in a schedule. *)
Definition main_steps (schedule : list action) : nat :=
  length (filter is_main schedule).

Definition has_merge (messages : list Message) : bool :=
  existsb (fun msg => is_merge (type msg)) messages.

(** What is left of [liveEdit] once the flag is set, by where the main
    thread is. *)
Definition after_merge (p : position) (schedule : list action)
           (s' : system) (ev : list event) : Prop :=
  match p with
  | AtGetchar =>
      Forall passive ev /\ getchars ev <= 1
      /\ (2 <= main_steps schedule -> at_ s' = Finished /\ getchars ev = 1)
  | AtMergedCheck _ =>
      Forall passive ev /\ getchars ev = 0
      /\ (1 <= main_steps schedule -> at_ s' = Finished)
  | Finished => Forall passive ev /\ getchars ev = 0 /\ at_ s' = Finished
  | Stuck => Forall passive ev /\ getchars ev = 0 /\ at_ s' = Stuck
  | AtLiveProcess _ | AtSwitch _ => True
  end.

End Trace.

(** ** What the commands are measured against *)

Module Spec.
Import Console OmniCli.

(** A byte that [cat] takes for text. *)
Definition texty (b : ascii) : Prop :=
  b = LF \/ b = TAB \/ b = CR \/ (32 <= code b < 127)%Z.

(** The session the menu picks, or [None] when it exits: digits below
    the number of sessions pick by index, [n] reads a name. *)
Definition picked (sessionList : list text) (selection : ascii)
           (rest : stdin) : option (text * stdin) :=
  if ((48 <=? code selection)%Z && (code selection <=? 57)%Z
      && (code selection - 48 <? Z.of_nat (length sessionList))%Z)%bool
  then Some (nth (Z.to_nat (code selection - 48)) sessionList [], rest)
  else if Ascii.eqb "n" selection then
    Some (match fst (cin_string rest) with Some s => s | None => [] end,
          snd (cin_string rest))
  else None.

(** The events of an iteration of the update thread that processes live
    updates. *)
Definition processed : list event :=
  [Print "Processing live updates\n"; LiveProcess].


(** An event of helloWorld other than a read of the command key. *)
Definition not_getchar (e : HelloWorld.event) : Prop :=
  match e with HelloWorld.GetChar _ => False | _ => True end.


Section Acls.
Context {client : OmniClient}.

(** The entries of the other users, in the order fetched. *)
Definition others (name : text) (fetched : list AclEntry) : list AclEntry :=
  filter (fun e => negb (text_eqb (fst e) name)) fetched.

Definition listed (name : text) (fetched : list AclEntry) : Prop :=
  exists e, In e fetched /\ fst e = name.

(** The access bit a letter of the access string stands for. *)
Definition access_bit (p : ascii) : Z :=
  if Ascii.eqb p "a" || Ascii.eqb p "A" then fOmniClientAccess_Admin
  else if Ascii.eqb p "w" || Ascii.eqb p "W" then fOmniClientAccess_Write
  else if Ascii.eqb p "r" || Ascii.eqb p "R" then fOmniClientAccess_Read
  else 0%Z.

(** The bits of all the letters together. *)
Definition access_bits (accessStr : text) : Z :=
  fold_right (fun p acc => Z.lor (access_bit p) acc) 0%Z accessStr.

Definition access_letter (p : ascii) : Prop :=
  In p (str "aAwWrR-").


End Acls.

End Spec.

(** ** A server, a session and a platform to run the samples on *)

Module Demo.

Definition sdk : LiveSession.ConnectSdk :=
  {| LiveSession.char_is_signed := true;
     LiveSession.join := fun name => negb (text_eqb name (str "closed"));
     LiveSession.hasPrimSpecsInRootLayer := true;
     LiveSession.primValidAndActive :=
       fun m => match m with Some _ => true | None => false end;
     LiveSession.stageTraverse :=
       [(str "/World", false); (str "/World/box", true)];
     LiveSession.getPrimAtPath := fun p => text_eqb p (str "/World/box");
     LiveSession.getValidChildName := fun _ newName => newName;
     LiveSession.renamePrim := fun _ _ => true;
     LiveSession.getLiveSessionConfig :=
       fun k => match k with
                | LiveSession.eAdmin => str "alice"
                | LiveSession.eName => str "review"
                | _ => []
                end;
     LiveSession.getUsers := [(str "bob", str "Create")] |}.

Definition platform : HelloWorld.Platform :=
  {| HelloWorld.WIN32 := false;
     HelloWorld.kInvalidRequestId := 0;
     HelloWorld.omniClientJoinChannel := fun _ => 7%Z |}.

Definition acls : list OmniCli.AclEntry :=
  [(str "alice", 7%Z); (str "bob", 1%Z); (str "carol", 3%Z)].

Definition client : OmniCli.OmniClient :=
  {| OmniCli.fOmniClientAccess_Read := 1;
     OmniCli.fOmniClientAccess_Write := 2;
     OmniCli.fOmniClientAccess_Admin := 4;
     OmniCli.omniClientReadFile :=
       fun url =>
         if text_eqb url (str "omniverse://h/a.txt") then
           (eOmniClientResult_Ok,
            {| OmniCli.buffer := str "hello"; OmniCli.beyond := [] |})
         else if text_eqb url (str "omniverse://h/a.bin") then
           (eOmniClientResult_Ok,
            {| OmniCli.buffer := [chr 1; chr 2; chr 3; chr 4; chr 5];
               OmniCli.beyond := [chr 0; chr 0; chr 0] |})
         else (eOmniClientResult_Error 4,
               {| OmniCli.buffer := []; OmniCli.beyond := [] |});
     OmniCli.omniClientGetAcls :=
       fun url =>
         if text_eqb url (str "omniverse://h/a.txt")
         then (eOmniClientResult_Ok, acls)
         else (eOmniClientResult_Error 4, []);
     OmniCli.omniClientSetAcls := fun _ _ => eOmniClientResult_Ok;
     OmniCli.omniClientCreateCheckpoint :=
       fun _ _ _ => (eOmniClientResult_Ok, str "&3");
     OmniCli.omniClientCombineWithBaseUrl := fun url => Some url;
     OmniCli.omniClientBreakUrl :=
       fun url =>
         if text_eqb url (str "omniverse://h/a.txt?&3") then
           {| OmniCli.components :=
                (str "omniverse", [], str "h", [], str "/a.txt");
              OmniCli.query := Some (str "&3");
              OmniCli.fragment := None |}
         else
           {| OmniCli.components :=
                (str "omniverse", [], str "h", [], str "/a.txt");
              OmniCli.query := None;
              OmniCli.fragment := None |};
     OmniCli.omniClientGetBranchAndCheckpointFromQuery :=
       fun q => match q with
                | Some _ =>
                    Some {| OmniCli.branch := []; OmniCli.checkpoint := 3 |}
                | None => None
                end;
     OmniCli.omniClientMakeQueryFromBranchAndCheckpoint :=
       fun branch _ => Some branch;
     OmniCli.omniClientMakeUrl :=
       fun u => Some (str "omniverse://h/a.txt");
     OmniCli.omniClientCopy := fun _ _ => eOmniClientResult_Ok |}.

End Demo.

(** ** omnicli: the shell around the commands *)

Module Shell.

Definition ArgVec := list text.

(** [std::equal] over [a], with the comparison of [iequal]; [b] is as
    long as [a] when [iequal] calls it.  [tolower] is that of the C
    locale: it changes the upper-case letters only and returns every other
    value as it is, so two characters compare equal exactly when their
    bytes do after it. *)
Fixpoint std_equal (a b : text) : bool :=
  match a, b with
  | [], _ => true
  | aa :: a', bb :: b' =>
      (Console.tolower (code aa) =? Console.tolower (code bb))%Z
      && std_equal a' b'
  | _ :: _, [] => false
  end.

Definition iequal (a b : text) : bool :=
  Nat.eqb (length a) (length b) && std_equal a b.

(** A text with its upper-case letters turned into lower-case ones. *)
Definition folded (a : text) : list Z :=
  map (fun c => Console.tolower (code c)) a.

(** The functions the table of commands points to. *)
Inductive CommandFn : Type :=
| cmd_help | cmd_noop | cmd_logLevel | cmd_list | cmd_stat | cmd_cd
| cmd_push | cmd_pop | cmd_copy | cmd_move | cmd_del | cmd_mkdir
| cmd_cat | cmd_clientVersion | cmd_resolverVersion | cmd_serverVersion
| cmd_loadUsd | cmd_saveUsd | cmd_closeUsd | cmd_lock | cmd_unlock
| cmd_getacls | cmd_setacls | cmd_auth | cmd_makeCheckpoint
| cmd_listCheckpoints | cmd_restoreCheckpoint | cmd_disconnect
| cmd_joinChannel | cmd_sendMessage | cmd_leaveChannel.

Record Command : Type := {
  name : text;
  args : option text;            (* nullptr: None *)
  helpMessage : option text;     (* nullptr: None *)
  function : CommandFn
}.

Definition arg (a : string) : option text := Some (str a).

Definition entry (n : string) (a : option text) (h : option text)
           (f : CommandFn) : Command :=
  {| name := str n; args := a; helpMessage := h; function := f |}.

Definition alias (n : string) (f : CommandFn) : Command :=
  entry n None None f.

Definition one (h : string) : option text := Some (str h).

Definition two (h1 h2 : string) : option text :=
  Some (str h1 ++ LF :: str h2).

Definition commands : list Command :=
  [ entry "help" None (one "Print this help message") cmd_help;
    alias "--help" cmd_help;
    alias "-h" cmd_help;
    alias "-?" cmd_help;
    alias "/?" cmd_help;
    entry "quit" None (one "Quit the interactive terminal") cmd_noop;
    entry "log" (arg "<level>") (one "Change the log level") cmd_logLevel;
    entry "list" (arg "<url>") (one "List the contents of a folder")
          cmd_list;
    alias "ls" cmd_list;
    alias "dir" cmd_list;
    entry "stat" (arg "<url>")
          (one "Print information about a specified file or folder")
          cmd_stat;
    entry "cd" (arg "<url>")
          (one "Makes paths relative to the specified folder") cmd_cd;
    entry "push" (arg "<url>")
          (two "Makes paths relative to the specified folder"
               " You can restore the original folder with pop") cmd_push;
    alias "pushd" cmd_push;
    entry "pop" None (one "Restores a folder pushed with 'push'") cmd_pop;
    alias "popd" cmd_pop;
    entry "copy" (arg "<src> <dst>")
          (one "Copies a file or folder from src to dst (overwrites dst)")
          cmd_copy;
    alias "cp" cmd_copy;
    entry "move" (arg "<src> <dst>")
          (one "Moves a file or folder from src to dst (overwrites dst)")
          cmd_move;
    alias "mv" cmd_move;
    entry "del" (arg "<url>") (one "Deletes the specified file or folder")
          cmd_del;
    alias "delete" cmd_del;
    alias "rm" cmd_del;
    entry "mkdir" (arg "<url>") (one "Create a folder") cmd_mkdir;
    entry "cat" (arg "<url>") (one "Print the contents of a file") cmd_cat;
    entry "cver" None (one "Print the client version") cmd_clientVersion;
    entry "rver" None (one "Print the USD Resolver Plugin version")
          cmd_resolverVersion;
    entry "sver" (arg "<url>") (one "Print the server version")
          cmd_serverVersion;
    entry "load" (arg "<url>") (one "Load a USD file") cmd_loadUsd;
    entry "save" (arg "[url]")
          (one "Save a previously loaded USD file (optionally to a different URL)")
          cmd_saveUsd;
    entry "close" None (one "Close a previously loaded USD file")
          cmd_closeUsd;
    entry "lock" (arg "[url]")
          (one "Lock a USD file (defaults to loaded stage root)") cmd_lock;
    entry "unlock" (arg "[url]")
          (one "Unlock a USD file (defaults to loaded stage root)")
          cmd_unlock;
    entry "getacls" (arg "<url>") (one "Print the ACLs for a URL")
          cmd_getacls;
    entry "setacls" (arg "<url> <user|group> <r|w|a|->")
          (two "Change the ACLs for a user or group for a URL"
               " Specify '-' to remove that user|group from the ACLs")
          cmd_setacls;
    entry "auth" (arg "[username] [password]")
          (two "Set username/password for authentication"
               " Password defaults to username; blank reverts to standard auth")
          cmd_auth;
    entry "checkpoint" (arg "<url> [comment]")
          (one "Create a checkpoint of a URL") cmd_makeCheckpoint;
    entry "listCheckpoints" (arg "<url>")
          (one "List all checkpoints of a URL") cmd_listCheckpoints;
    entry "restoreCheckpoint" (arg "<url>") (one "Restore a checkpoint")
          cmd_restoreCheckpoint;
    entry "disconnect" (arg "<url>") (one "Disconnect from a server")
          cmd_disconnect;
    entry "join" (arg "<url>")
          (one "Join a channel. Only one channel can be joined at a time.")
          cmd_joinChannel;
    entry "send" (arg "<message>")
          (one "Send a message to the joined channel.") cmd_sendMessage;
    entry "leave" None (one "Leave the joined channel") cmd_leaveChannel ].

(** What the shell itself does: the commands it calls and what it
    prints. *)
Inductive event : Type :=
| Prompt                                      (* printf("> ") *)
| Ran (f : CommandFn) (argv : ArgVec)         (* command.function(args) *)
| UnknownCommand (arg0 : text)
| Printed (line : text)
| Shutdown.                                   (* the code after the loop *)

(** The [for] loop of [run] over a table. *)
Fixpoint lookup (table : list Command) (arg0 : text) : option Command :=
  match table with
  | [] => None
  | command :: rest =>
      if iequal arg0 (name command) then Some command
      else lookup rest arg0
  end.

Definition is_quit (token0 : text) : bool :=
  iequal token0 (str "quit") || iequal token0 (str "exit")
  || iequal token0 (str "q").

(** How [main] ends.  At the end of the input it executes
    [return EXIT_FAILURE] inside the loop, where the local [std::thread]
    is still joinable: its destructor runs on the way out of [main], and
    the destructor of a joinable thread calls [std::terminate]. *)
Inductive main_end : Type :=
| Returned (code : Z)
| ReturnsWithJoinableThread (code : Z)
| OutOfFuel.

(** [fgets(line, size, stdin)]: at most [size - 1] characters, ending
    after a newline; [None] (a null pointer) at the end of the input. *)
Fixpoint fgets_chars (room : nat) (inp : Console.stdin)
  : text * Console.stdin :=
  match room, inp with
  | S room', c :: rest =>
      if Ascii.eqb c LF then ([c], rest)
      else let (line, rest') := fgets_chars room' rest in (c :: line, rest')
  | _, _ => ([], inp)
  end.

Definition fgets (size : nat) (inp : Console.stdin)
  : option text * Console.stdin :=
  match inp with
  | [] => (None, [])
  | _ :: _ =>
      let (line, rest) := fgets_chars (size - 1) inp in (Some line, rest)
  end.

Section Run.
(** The return code of a command called with some arguments. *)
Variable call : CommandFn -> ArgVec -> Z.

Definition run_in (table : list Command) (argv : ArgVec)
  : list event * Z :=
  match argv with
  | [] => ([], EXIT_FAILURE)
  | arg0 :: _ =>
      match lookup table arg0 with
      | Some command =>
          ([Ran (function command) argv], call (function command) argv)
      | None => ([UnknownCommand arg0], EXIT_FAILURE)
      end
  end.

Definition run (argv : ArgVec) : list event * Z := run_in commands argv.

(** The [for (;;)] loop of [main] with its [char line[5000]]. *)
Fixpoint interactive_loop (fuel : nat) (inp : Console.stdin)
  : list event * main_end :=
  match fuel with
  | O => ([], OutOfFuel)
  | S fuel' =>
      match fgets 5000 inp with
      | (None, _) => ([Prompt], ReturnsWithJoinableThread EXIT_FAILURE)
      | (Some line, rest) =>
          match Tokenizer.tokenize line with
          | [] =>
              let (tr, e) := interactive_loop fuel' rest in
              (Prompt :: tr, e)
          | (token0 :: _) as tokens =>
              if is_quit token0 then
                ([Prompt; Shutdown], Returned EXIT_SUCCESS)
              else
                let (tr1, _) := run tokens in
                let (tr2, e) := interactive_loop fuel' rest in
                (Prompt :: tr1 ++ tr2, e)
          end
      end
  end.

(** Every [fgets] that delivers something takes at least one character,
    so one more turn than the input has characters is enough. *)
Definition interactive (inp : Console.stdin) : list event * main_end :=
  interactive_loop (S (length inp)) inp.

(** [main]: with arguments it runs them as one command; without, it
    initialises the client library and reads commands. *)
Definition main (argv : list text) (initialized : bool)
           (inp : Console.stdin) : list event * main_end :=
  match argv with
  | _ :: ((_ :: _) as args) =>
      let (tr, code) := run args in (tr, Returned code)
  | _ =>
      if negb initialized then
        ([Printed (str "Failed to initialize Omniverse Client Library")],
         Returned EXIT_FAILURE)
      else interactive inp
  end.
End Run.

(** *** help *)

Definition cmd_width (command : Command) : nat :=
  length (name command)
  + match args command with Some a => length a | None => 0 end
  + 1.

(** The first loop of [help]. *)
Definition paddingCmdString (table : list Command) : nat :=
  fold_left (fun acc command => Nat.max acc (cmd_width command)) table 0.

Definition div : text := str " : ".

Definition paddingHelpString (table : list Command) : nat :=
  paddingCmdString table + length div + 1.

Definition cmdNameAndArg (command : Command) : text :=
  name command
  ++ match args command with Some a => SPACE :: a | None => [] end.

Definition padded (width : nat) (s : text) : text :=
  if length s <? width then s ++ repeat SPACE (width - length s) else s.

(** [helpMessage.find("\n")] and the two [substr]: the message up to its
    first newline, and what follows that newline, if there is one. *)
Fixpoint break_line (message : text) : text * option text :=
  match message with
  | [] => ([], None)
  | c :: rest =>
      if Ascii.eqb c LF then ([], Some rest)
      else let (first, second) := break_line rest in (c :: first, second)
  end.

(** The lines [help] prints for one command of a table. *)
Definition help_lines (table : list Command) (command : Command)
  : list text :=
  match helpMessage command with
  | None => []
  | Some message =>
      let column :=
        str "  " ++ padded (paddingCmdString table) (cmdNameAndArg command)
        ++ div in
      match break_line message with
      | (first, Some second) =>
          [column ++ first;
           repeat SPACE (paddingHelpString table) ++ second]
      | (first, None) => [column ++ message]
      end
  end.

Definition help_in (table : list Command) : list text * Z :=
  (flat_map (help_lines table) table, EXIT_SUCCESS).

Definition help : list text * Z := help_in commands.

(** No command of a table has the name of an earlier one, letter case
    apart. *)
Fixpoint distinct_names (table : list Command) : bool :=
  match table with
  | [] => true
  | command :: rest =>
      forallb (fun later => negb (iequal (name command) (name later))) rest
      && distinct_names rest
  end.

(** *** Channels *)

(** The globals the channel commands use: [g_channel], and the [static]
    return code of [joinChannel], which its callback sets. *)
Record channel_state : Type := {
  g_channel : Z;
  retCode : Z
}.

Definition no_channel : channel_state :=
  {| g_channel := 0; retCode := EXIT_FAILURE |}.

Inductive channel_event : Type :=
| Stop (requestId : Z)
| Reconnect (url : text)
| JoinChannel (url : text) (requestId : Z)
| SendMessage (requestId : Z) (content : list ascii)
| Say (line : string).

(** A C string: the characters before the first NUL. *)
Fixpoint c_string (message : list ascii) : list ascii :=
  match message with
  | [] => []
  | c :: rest => if Ascii.eqb c NUL then [] else c :: c_string rest
  end.

(** The callback of [joinChannel] stores the return code of each result
    it receives. *)
Definition callbacks (results : list OmniClientResult) (code : Z) : Z :=
  fold_left (fun _ result => OmniCli.resultToRetcode result) results code.

(** [joinChannel]: [requestId] is what [omniClientJoinChannel] returns,
    [results] the results its callback receives before [omniClientWait]
    returns. *)
Definition joinChannel (argv : ArgVec) (requestId : Z)
           (results : list OmniClientResult) (s : channel_state)
  : list channel_event * Z * channel_state :=
  match argv with
  | _ :: url :: _ =>
      let stopped :=
        if negb (g_channel s =? 0)%Z then [Stop (g_channel s)] else [] in
      let code := callbacks results (retCode s) in
      (stopped ++ [Reconnect url; JoinChannel url requestId], code,
       {| g_channel := requestId; retCode := code |})
  | _ => ([Say "Not enough arguments\n"], EXIT_FAILURE, s)
  end.

Definition leaveChannel (s : channel_state)
  : list channel_event * Z * channel_state :=
  if negb (g_channel s =? 0)%Z then
    ([Stop (g_channel s)], EXIT_SUCCESS,
     {| g_channel := 0; retCode := retCode s |})
  else ([], EXIT_SUCCESS, s).

(** [sendMessage]: the content is the message as a C string with its
    terminating NUL; [result] is what the callback of the send receives,
    if it is called. *)
Definition sendMessage (argv : ArgVec) (result : option OmniClientResult)
           (s : channel_state)
  : list channel_event * Z * channel_state :=
  if (g_channel s =? 0)%Z then
    ([Say "Not in a channel\n"], EXIT_FAILURE, s)
  else
    let message := match argv with _ :: m :: _ => m | _ => [] end in
    ([SendMessage (g_channel s) (c_string message ++ [NUL])],
     match result with
     | Some r => OmniCli.resultToRetcode r
     | None => EXIT_FAILURE
     end, s).

(** What happens to the channel between two prompts: one of the three
    commands, or results arriving at the callback of the last join. *)
Inductive channel_command : Type :=
| DoJoin (argv : ArgVec) (requestId : Z) (results : list OmniClientResult)
| DoLeave
| DoSend (argv : ArgVec) (result : option OmniClientResult)
| Arrive (results : list OmniClientResult).

Definition channel_step (c : channel_command) (s : channel_state)
  : list channel_event * Z * channel_state :=
  match c with
  | DoJoin argv requestId results => joinChannel argv requestId results s
  | DoLeave => leaveChannel s
  | DoSend argv result => sendMessage argv result s
  | Arrive results =>
      ([], EXIT_SUCCESS,
       {| g_channel := g_channel s;
          retCode := callbacks results (retCode s) |})
  end.

Fixpoint channel_run (cs : list channel_command) (s : channel_state)
  : list channel_event * channel_state :=
  match cs with
  | [] => ([], s)
  | c :: rest =>
      let '(ev, _, s1) := channel_step c s in
      let (ev', s2) := channel_run rest s1 in
      (ev ++ ev', s2)
  end.

(** Replaying a trace against the one channel a client may have:
    [Some open] when every join finds no channel open, and every stop and
    send names the open channel; [open] is that channel, 0 for none. *)
Fixpoint replay (tr : list channel_event) (open : Z) : option Z :=
  match tr with
  | [] => Some open
  | Stop id :: rest =>
      if (id =? open)%Z && negb (open =? 0)%Z then replay rest 0 else None
  | JoinChannel _ id :: rest =>
      if (open =? 0)%Z then replay rest id else None
  | SendMessage id _ :: rest =>
      if (id =? open)%Z && negb (open =? 0)%Z then replay rest open
      else None
  | _ :: rest => replay rest open
  end.


Section Callback.
(** Whether [char] is a signed type on the platform. *)
Variable char_is_signed : bool.



End Callback.

End Shell.

(** ** omnicli: what a listing shows *)

Module Listing.
Import OmniCli.

(** The size column of [printListEntries] for a readable file: the
    number printed and its suffix. *)
Definition size_column (size : Z) : Z * string :=
  if (1000 * 1000 * 1000 <? size)%Z then
    ((size / (1000 * 1000 * 1000))%Z, "GB "%string)
  else if (1000 * 1000 <? size)%Z then
    ((size / (1000 * 1000))%Z, "MB "%string)
  else if (1000 <? size)%Z then ((size / 1000)%Z, "KB "%string)
  else (size, "B "%string).

(** The number of bytes a suffix stands for. *)
Definition unit_of (suffix : string) : Z :=
  if String.eqb suffix "GB " then 1000000000%Z
  else if String.eqb suffix "MB " then 1000000%Z
  else if String.eqb suffix "KB " then 1000%Z
  else 1%Z.

Section Access.
Context {client : OmniClient}.

(** [if (!accessString.empty()) accessString += ", ";
     accessString += n;] *)
Definition add_name (accessString : text) (n : string) : text :=
  (match accessString with
   | [] => accessString
   | _ :: _ => accessString ++ str ", "
   end) ++ str n.

Definition getAccessString (access : Z) : text :=
  let s0 : text := [] in
  let s1 := if negb (Z.land access fOmniClientAccess_Read =? 0)%Z
            then add_name s0 "Read" else s0 in
  let s2 := if negb (Z.land access fOmniClientAccess_Write =? 0)%Z
            then add_name s1 "Write" else s1 in
  let s3 := if negb (Z.land access fOmniClientAccess_Admin =? 0)%Z
            then add_name s2 "Admin" else s2 in
  match s3 with
  | [] => str "None"
  | _ :: _ => s3
  end.

Definition has_letter (lower upper : ascii) (accessStr : text) : bool :=
  existsb (fun p => Ascii.eqb p lower || Ascii.eqb p upper) accessStr.

(** The names of the rights an access string asks for, in the order a
    listing gives them. *)
Definition rights (accessStr : text) : list string :=
  (if has_letter "r" "R" accessStr then ["Read"%string] else [])
  ++ (if has_letter "w" "W" accessStr then ["Write"%string] else [])
  ++ (if has_letter "a" "A" accessStr then ["Admin"%string] else []).

Fixpoint comma_separated (names : list string) : text :=
  match names with
  | [] => []
  | [n] => str n
  | n :: rest => str n ++ str ", " ++ comma_separated rest
  end.

Definition rights_shown (accessStr : text) : text :=
  match rights accessStr with
  | [] => str "None"
  | names => comma_separated names
  end.

(** The three access flags are different bits of a [uint16_t]. *)
Definition flags_are_bits : Prop :=
  (0 < fOmniClientAccess_Read < 65536)%Z
  /\ (0 < fOmniClientAccess_Write < 65536)%Z
  /\ (0 < fOmniClientAccess_Admin < 65536)%Z
  /\ Z.land fOmniClientAccess_Read fOmniClientAccess_Write = 0%Z
  /\ Z.land fOmniClientAccess_Read fOmniClientAccess_Admin = 0%Z
  /\ Z.land fOmniClientAccess_Write fOmniClientAccess_Admin = 0%Z.
End Access.

End Listing.

(** ** omnicli: quoting an argument for the tokenizer *)

Module Quoting.

(** An argument written so that [tokenize] reads it back: inside double
    quotes, a double quote gets a backslash and the backslashes before a
    double quote (or before the closing one) are doubled.  [pending] is
    the number of backslashes seen and not yet written. *)
Fixpoint escape (pending : nat) (arg : text) : text :=
  match arg with
  | [] => repeat BACKSLASH (2 * pending)
  | c :: rest =>
      if Ascii.eqb c BACKSLASH then escape (S pending) rest
      else if Ascii.eqb c DQUOTE then
        repeat BACKSLASH (2 * pending + 1) ++ DQUOTE :: escape 0 rest
      else repeat BACKSLASH pending ++ c :: escape 0 rest
  end.

Definition quote_arg (arg : text) : text :=
  DQUOTE :: escape 0 arg ++ [DQUOTE].

(** The quoted arguments with a space between them. *)
Fixpoint command_line (argv : list text) : text :=
  match argv with
  | [] => []
  | [arg] => quote_arg arg
  | arg :: rest => quote_arg arg ++ SPACE :: command_line rest
  end.

(** A character a line can carry into a token. *)
Definition carried (c : ascii) : Prop := c <> NUL /\ c <> LF.

(** What the loop of [tokenize] has collected holds no NUL and no
    newline. *)
Definition clean (s : Tokenizer.state) : Prop :=
  Forall (Forall carried) (Tokenizer.tokens s)
  /\ Forall carried (Tokenizer.token s).

(** An argument [tokenize] can read back: no NUL and no newline in it,
    and short enough for the [uint32_t] that counts its backslashes. *)
Definition quotable (arg : text) : Prop :=
  Forall carried arg /\ (N.of_nat (length arg) < 2147483648)%N.

End Quoting.

(** ** liveSession: the arguments of main *)

Module SessionMain.

Class Uris : Type := {
  isOmniUri : text -> bool;
  doesUriExist : text -> bool
}.

Inductive event : Type :=
| PrintHelp
| LogLine (line : string) (arg : text).

(** How the argument loop ends: [main] returns, or goes on with the
    values of [doLiveEdit] and [existingStageUri]. *)
Inductive parsed : Type :=
| Return (code : Z)
| GoOn (doLiveEdit : bool) (existingStageUri : text).

(** [strcmp(a, short) == 0 || strcmp(a, long) == 0]. *)
Definition is_flag (a : text) (short long : string) : bool :=
  text_eqb a (str short) || text_eqb a (str long).

(** The first loop: is [-v] or [--verbose] among the arguments? *)
Definition verbose (args : list text) : bool :=
  existsb (fun a => is_flag a "-v" "--verbose") args.

(** How [main] ends before it opens a stage, or the stage it opens. *)
Inductive outcome : Type :=
| Exits (code : Z)
| Returns (code : Z)
| OpensStage (existingStageUri : text).

Section Main.
Context {uris : Uris}.

(** The second loop, over [argv[x]] for [x] from 1; [-e] takes the next
    argument with it. *)
Fixpoint process (args : list text) (doLiveEdit : bool)
         (existingStageUri : text) : list event * parsed :=
  match args with
  | [] => ([], GoOn doLiveEdit existingStageUri)
  | a :: rest =>
      if is_flag a "-h" "--help" then ([PrintHelp], Return 0)
      else if is_flag a "-v" "--verbose" then
        process rest doLiveEdit existingStageUri
      else if is_flag a "-e" "--existing" then
        match rest with
        | [] =>
            ([LogLine "Missing an Omniverse URL to the stage to edit." [];
              PrintHelp], Return (-1))
        | uri :: rest' =>
            if negb (isOmniUri uri) then
              ([LogLine "This is not an Omniverse Nucleus URL: %s" uri],
               Return (-1))
            else if negb (doesUriExist uri) then
              ([LogLine "Provided stage URL does not exist - %s" uri],
               Return (-1))
            else process rest' true uri
        end
      else
        let (ev, r) := process rest doLiveEdit existingStageUri in
        (LogLine "Unrecognized option: %s" a :: ev, r)
  end.

(** [main] up to the opening of the stage; [started] is what
    [startOmniverse] returns between the two loops. *)
Definition arguments (argv : list text) (started : bool)
  : list event * outcome :=
  if negb started then ([], Exits 1)
  else
    match process (tl argv) false [] with
    | (ev, Return code) => (ev, Returns code)
    | (ev, GoOn _ existingStageUri) =>
        match existingStageUri with
        | [] =>
            (ev ++ [LogLine "An existing stage must be supplied with the -e argument: " []],
             Returns (-1))
        | _ :: _ => (ev, OpensStage existingStageUri)
        end
    end.
End Main.

(** The stage is the argument right after an [-e] or [--existing]. *)
Fixpoint follows_existing (args : list text) (uri : text) : Prop :=
  match args with
  | a :: rest =>
      (is_flag a "-e" "--existing" = true /\ hd_error rest = Some uri)
      \/ follows_existing rest uri
  | [] => False
  end.

End SessionMain.

(** ** omniSimpleSensor: where the zones go *)

Module Zones.

(** An [int] of 32 bits; a product that does not fit is undefined
    behaviour, [None] here. *)
Definition int_fits (z : Z) : bool :=
  (- 2 ^ 31 <=? z)%Z && (z <? 2 ^ 31)%Z.

Definition int_mul (a b : Z) : option Z :=
  if int_fits (a * b) then Some (a * b)%Z else None.

(** The offsets of [createZoneGeometry]; [cubeRoot] is the value of
    [(int)floor(std::cbrt((double)totalZones))].  The operators are those
    of C on [int]: the quotient is truncated and the remainder has the
    sign of the dividend.  Each offset is an [int] stored in a
    [float]. *)
Definition zone_offset (zoneNumber cubeRoot : Z) : option (Z * Z * Z) :=
  let zoneSize := if (cubeRoot <? 1)%Z then 1%Z else cubeRoot in
  match int_mul (Z.rem zoneNumber zoneSize) 150,
        int_mul zoneSize zoneSize with
  | Some x, Some square =>
      let yZone := Z.rem zoneNumber square in
      match int_mul (Z.quot yZone zoneSize) 150,
            int_mul (Z.quot zoneNumber square) 150 with
      | Some y, Some z =>
          Some (SimpleSensor.float_of_Z x, SimpleSensor.float_of_Z y,
                SimpleSensor.float_of_Z z)
      | _, _ => None
      end
  | _, _ => None
  end.

(** The points of the box of a zone. *)
Definition zone_box (zoneNumber cubeRoot : Z)
  : option (list (Z * Z * Z)) :=
  match zone_offset zoneNumber cubeRoot with
  | Some (x, y, z) => Some (SimpleSensor.zone_points x y z)
  | None => None
  end.

(** Two points at least [d] apart along some axis. *)
Definition apart (d : Z) (p q : Z * Z * Z) : Prop :=
  let '(px, py, pz) := p in
  let '(qx, qy, qz) := q in
  (d <= Z.abs (px - qx) \/ d <= Z.abs (py - qy) \/ d <= Z.abs (pz - qz))%Z.

(** The zone numbers whose boxes are placed exactly: below this, every
    offset and every coordinate is an integer below 2^24 in size. *)
Definition exact_zones : Z := 111848.

End Zones.

(** ** The turning of the mesh, the message channel and the steps of the
       sensor *)

Module Dial.

(** An angle the [t] command can reach. *)
Definition on_the_dial (angle : Z) : Prop :=
  (0 <= angle < 360)%Z /\ (angle mod 15 = 0)%Z.

(** The angles the mesh was turned to, in order. *)
Fixpoint rotations (tr : list HelloWorld.event) : list Z :=
  match tr with
  | [] => []
  | HelloWorld.SetLocalTransform angle :: rest => angle :: rotations rest
  | _ :: rest => rotations rest
  end.

Definition is_stop (e : HelloWorld.event) : bool :=
  match e with
  | HelloWorld.Stop _ => true
  | _ => false
  end.

Definition is_send (e : HelloWorld.event) : bool :=
  match e with
  | HelloWorld.SendMessage _ _ => true
  | _ => false
  end.

(** The events after the first [omniClientStop]. *)
Fixpoint after_leave (tr : list HelloWorld.event) : list HelloWorld.event :=
  match tr with
  | [] => []
  | e :: rest => if is_stop e then rest else after_leave rest
  end.

(** A message goes to the channel [id], which is a valid request. *)
Definition sent_to {platform : HelloWorld.Platform} (id : Z)
           (e : HelloWorld.event) : Prop :=
  match e with
  | HelloWorld.SendMessage requestId _ =>
      requestId = id /\ requestId <> HelloWorld.kInvalidRequestId
  | _ => True
  end.

(** The cycle of the sensor thread that colours for [step]. *)
Definition cycle (step : Z) : list SensorThread.event :=
  [SensorThread.SleepFor SensorThread.gTimerPeriod; SensorThread.LiveProcess;
   SensorThread.SetDisplayColor step; SensorThread.LiveProcess].

End Dial.

(** ** A server to run the mains on *)

Module DemoSession.

Definition uris : SessionMain.Uris :=
  {| SessionMain.isOmniUri :=
       fun uri => text_eqb (firstn 12 uri) (str "omniverse://");
     SessionMain.doesUriExist :=
       fun uri => text_eqb uri (str "omniverse://h/stage.usd") |}.

End DemoSession.

(** ** helloWorld: main *)

Module HelloMain.
Import SessionMain.

(** How the dealings of [createOmniverseModel] with the server end:
    with [exit(1)], with no stage created, or with the stage. *)
Inductive create_end : Type :=
| CreateExits
| StageNotCreated
| StageCreated.

Class Sdk : Type := {
  startOmniverse : bool -> bool;
  isUriWritable : text -> bool;
  getUser : text -> text;
  model_ends : text -> text -> create_end;   (* folder, stage URL *)
  createBox : bool;                          (* the mesh made is valid *)
  createReferenceAndPayload : bool;          (* false: it calls exit(1) *)
  findGeomMesh : text -> bool                (* a mesh was found *)
}.

Inductive event : Type :=
| PrintHelp
| LogLine (line : string) (arg : text)
| CreateModel (stageUrl : text)
| FindMesh (existingStage : text)
| LiveEdit (existingStage : text)
| Shutdown.

Record options : Type := {
  doLiveEdit : bool;
  existingStage : text;
  destinationPath : text;
  stageExtension : text
}.

Definition defaults : options :=
  {| doLiveEdit := false; existingStage := []; destinationPath := [];
     stageExtension := str ".usd" |}.

Inductive parsed : Type :=
| Return (code : Z)
| GoOn (o : options).

Inductive outcome : Type :=
| Exits (code : Z)
| Returns (code : Z).

(** [s.find(p) != std::string::npos]. *)
Fixpoint starts_with (p s : text) : bool :=
  match p, s with
  | [], _ => true
  | x :: p', y :: s' => Ascii.eqb x y && starts_with p' s'
  | _ :: _, [] => false
  end.

Fixpoint contains (p s : text) : bool :=
  starts_with p s
  || match s with
     | [] => false
     | _ :: s' => contains p s'
     end.

Section Main.
Context {uris : Uris} {sdk : Sdk}.

(** The stage URL is the folder, the file name and the extension, which
    is [.live] when live editing was asked for. *)
Definition createOmniverseModel (destinationPath : text)
           (doLiveEdit : bool) (stageExtension : text) : option text :=
  let stageUrl :=
    destinationPath ++ str "/helloworld"
      ++ (if doLiveEdit then str ".live" else stageExtension) in
  match model_ends destinationPath stageUrl with
  | CreateExits => None
  | StageNotCreated => Some []
  | StageCreated => Some stageUrl
  end.

(** The loop over [argv[x]] for [x] from 1; [-p] and [-e] take the next
    argument with them. *)
Fixpoint process (args : list text) (o : options)
  : list event * parsed :=
  match args with
  | [] => ([], GoOn o)
  | a :: rest =>
      if is_flag a "-h" "--help" then ([PrintHelp], Return 0)
      else if is_flag a "-a" "--usda" then
        process rest
          {| doLiveEdit := doLiveEdit o;
             existingStage := existingStage o;
             destinationPath := destinationPath o;
             stageExtension := str ".usda" |}
      else if is_flag a "-l" "--live" then
        process rest
          {| doLiveEdit := true; existingStage := existingStage o;
             destinationPath := destinationPath o;
             stageExtension := stageExtension o |}
      else if is_flag a "-p" "--path" then
        match rest with
        | [] =>
            ([LogLine "ERROR: Missing an Omniverse folder URL to create the stage." [];
              PrintHelp], Return (-1))
        | path :: rest' =>
            let (ev, r) :=
              process rest'
                {| doLiveEdit := doLiveEdit o;
                   existingStage := existingStage o;
                   destinationPath := path;
                   stageExtension := stageExtension o |} in
            ((if negb (isOmniUri path)
              then [LogLine "This is not an Omniverse Nucleus URL: %s"
                            path]
              else []) ++ ev, r)
        end
      else if is_flag a "-v" "--verbose" then process rest o
      else if is_flag a "-e" "--existing" then
        match rest with
        | [] =>
            ([LogLine "ERROR: Missing an Omniverse URL to the stage to edit." [];
              PrintHelp], Return (-1))
        | stage :: rest' =>
            let o' := {| doLiveEdit := true; existingStage := stage;
                         destinationPath := destinationPath o;
                         stageExtension := stageExtension o |} in
            if negb (isOmniUri stage) then
              let (ev, r) := process rest' o' in
              (LogLine "This is not an Omniverse Nucleus URL: %s" stage
                 :: ev, r)
            else if negb (doesUriExist stage) then
              ([LogLine "Provided stage URL does not exist - %s" stage],
               Return (-1))
            else if negb (isUriWritable stage) then
              let (ev, r) := process rest' o' in
              (LogLine "Provided stage URL is not writable - %s" stage
                 :: ev, r)
            else process rest' o'
        end
      else
        let (ev, r) := process rest o in
        (LogLine "Unrecognized option: %s" a :: ev, r)
  end.

Definition userFolder : text := str "omniverse://localhost/Users".

(** What [main] does once the arguments are read. *)
Definition stage_and_edit (o : options) : list event * outcome :=
  let none := match existingStage o, destinationPath o with
              | [], [] => true
              | _, _ => false
              end in
  let destination :=
    if none then userFolder ++ str "/" ++ getUser userFolder
    else destinationPath o in
  let asked :=
    if none
    then [LogLine "No output path specified, so checking the localhost Users folder for a valid username" []]
    else [] in
  match existingStage o with
  | [] =>
      match createOmniverseModel destination (doLiveEdit o)
                                 (stageExtension o) with
      | None => (asked, Exits 1)
      | Some [] =>
          (asked ++ [LogLine "Failure to create model in Omniverse %s"
                             []], Exits 1)
      | Some stageUrl =>
          if negb createReferenceAndPayload then
            (asked ++ [CreateModel stageUrl], Exits 1)
          else
          (asked ++ [CreateModel stageUrl]
             ++ (if doLiveEdit o && createBox
                    && contains (str ".live") stageUrl
                 then [LiveEdit stageUrl] else [])
             ++ [Shutdown], Returns 0)
      end
  | stage =>
      (asked ++ [FindMesh stage]
         ++ (if doLiveEdit o && findGeomMesh stage
                && contains (str ".live") stage
             then [LiveEdit stage] else [])
         ++ [Shutdown], Returns 0)
  end.

Definition main (argv : list text) : list event * outcome :=
  let args := tl argv in
  if negb (startOmniverse (verbose args)) then ([], Exits 1)
  else
    match process args defaults with
    | (ev, Return code) => (ev, Returns code)
    | (ev, GoOn o) =>
        let (ev', end_) := stage_and_edit o in (ev ++ ev', end_)
    end.
End Main.

(** An argument that turns live editing on. *)
Definition asks_live (a : text) : bool :=
  is_flag a "-l" "--live" || is_flag a "-e" "--existing".

End HelloMain.

Module DemoHello.

Definition sdk : HelloMain.Sdk :=
  {| HelloMain.startOmniverse := fun _ => true;
     HelloMain.isUriWritable := fun _ => true;
     HelloMain.getUser := fun _ => str "alice";
     HelloMain.model_ends := fun _ _ => HelloMain.StageCreated;
     HelloMain.createBox := true;
     HelloMain.createReferenceAndPayload := true;
     HelloMain.findGeomMesh := fun _ => true |}.

End DemoHello.

(** ** What the statements say, in their own words

    The definitions here are written from the wording of the properties,
    not from the code; the theorems compare the code with them. *)

Module Stated.

(** One of the three answers the merge prompt takes. *)
Definition merge_answer (w : text) : Prop :=
  w = str "n" \/ w = str "r" \/ w = str "c".

(** A channel message that tells of a merge in another client. *)
Definition merge_notice (msg : LiveSession.Message) : Prop :=
  LiveSession.type msg = LiveSession.eMergeStarted
  \/ LiveSession.type msg = LiveSession.eMergeFinished.

(** White space, a word, and what may follow a word on the input. *)
Definition blanks (ws : list ascii) : Prop :=
  Forall (fun c => Console.isspace c = true) ws.

Definition word (w : list ascii) : Prop :=
  w <> [] /\ Forall (fun c => Console.isspace c = false) w.

Definition after_word (rest : list ascii) : Prop :=
  rest = [] \/ exists c r, rest = c :: r /\ Console.isspace c = true.

(** Four bytes as a 32-bit word, the first byte lowest. *)
Definition le32 (b0 b1 b2 b3 : ascii) : N :=
  (N_of_ascii b0 + 256 * N_of_ascii b1 + 65536 * N_of_ascii b2
   + 16777216 * N_of_ascii b3)%N.

(** [count] words taken from the memory four bytes at a time; the word
    number [k] is followed by a newline when [k] is a multiple of 8 and by
    a space otherwise. *)
Fixpoint dump_words (count k : nat) (memory : list ascii)
  : list OmniCli.event :=
  match count with
  | O => []
  | S count' =>
      OmniCli.PrintHexWord
        (le32 (nth 0 memory NUL) (nth 1 memory NUL) (nth 2 memory NUL)
              (nth 3 memory NUL))
        (if Nat.eqb (k mod 8) 0 then LF else SPACE)
      :: dump_words count' (S k) (skipn 4 memory)
  end.

(** The dump of a content: one word for every four bytes, rounded up,
    read from the content and the memory after it, and a newline. *)
Definition dump (content beyond : list ascii) : list OmniCli.event :=
  dump_words ((length content + 3) / 4) 0 (content ++ beyond)
  ++ [OmniCli.Print "\n"].

(** A word that ends an interactive session of omnicli: quit, exit or q
    in any letter case. *)
Definition quit_word (token0 : text) : Prop :=
  Shell.folded token0 = Shell.folded (str "quit")
  \/ Shell.folded token0 = Shell.folded (str "exit")
  \/ Shell.folded token0 = Shell.folded (str "q").

Definition quit_line (line : text) : Prop :=
  exists token0 more,
    Tokenizer.tokenize line = token0 :: more /\ quit_word token0.

(** A line that fits the buffer of 5000 characters with its newline and
    the terminating NUL. *)
Definition short_line (line : text) : Prop :=
  ~ In LF line /\ length line < 4999.

(** The lines as they are typed, each ended by a newline. *)
Definition typed (lines : list text) : Console.stdin :=
  flat_map (fun line => line ++ [LF]) lines.

(** The units of the size column, with their suffixes. *)
Definition units : list (Z * string) :=
  [(1%Z, "B "%string); (1000%Z, "KB "%string);
   (1000000%Z, "MB "%string); (1000000000%Z, "GB "%string)].

End Stated.

(** ** A server that answers a read with the latest version *)

Module DemoLatest.

Definition client : OmniCli.OmniClient :=
  {| OmniCli.fOmniClientAccess_Read := 1;
     OmniCli.fOmniClientAccess_Write := 2;
     OmniCli.fOmniClientAccess_Admin := 4;
     OmniCli.omniClientReadFile :=
       fun _ =>
         (eOmniClientResult_OkLatest,
          {| OmniCli.buffer := str "hello"; OmniCli.beyond := [] |});
     OmniCli.omniClientGetAcls :=
       @OmniCli.omniClientGetAcls Demo.client;
     OmniCli.omniClientSetAcls :=
       @OmniCli.omniClientSetAcls Demo.client;
     OmniCli.omniClientCreateCheckpoint :=
       @OmniCli.omniClientCreateCheckpoint Demo.client;
     OmniCli.omniClientCombineWithBaseUrl :=
       @OmniCli.omniClientCombineWithBaseUrl Demo.client;
     OmniCli.omniClientBreakUrl :=
       @OmniCli.omniClientBreakUrl Demo.client;
     OmniCli.omniClientGetBranchAndCheckpointFromQuery :=
       @OmniCli.omniClientGetBranchAndCheckpointFromQuery Demo.client;
     OmniCli.omniClientMakeQueryFromBranchAndCheckpoint :=
       @OmniCli.omniClientMakeQueryFromBranchAndCheckpoint Demo.client;
     OmniCli.omniClientMakeUrl :=
       @OmniCli.omniClientMakeUrl Demo.client;
     OmniCli.omniClientCopy := @OmniCli.omniClientCopy Demo.client |}.

End DemoLatest.

(** * Proofs *)

(** ** omnicli: the tokenizer *)

Section TokenizerFacts.
Import Tokenizer.

Lemma text_eqb_spec (a b : text) : text_eqb a b = true <-> a = b.
Proof.
  revert b; induction a as [|x a IH]; intros [|y b]; simpl;
    try (split; congruence).
  rewrite andb_true_iff, IH.
  destruct (Ascii.eqb_spec x y) as [->|N]; split.
  - intros [_ ->]; reflexivity.
  - intros E; injection E as ->; auto.
  - intros [D _]; discriminate.
  - intros E; injection E as -> _; contradiction.
Qed.

Lemma loop_logical_line (l : list ascii) (s : state) :
  loop s l = loop s (logical_line l).
Proof.
  revert s; induction l as [|c l IH]; intros s; simpl; auto.
  destruct (Ascii.eqb c NUL) eqn:E1; simpl; auto.
  destruct (Ascii.eqb c LF) eqn:E2; simpl; auto.
  rewrite E1, E2; apply IH.
Qed.

Lemma logical_line_newline (a b : list ascii) :
  logical_line (a ++ LF :: b) = logical_line a.
Proof.
  induction a as [|c a IH]; simpl; auto.
  destruct (Ascii.eqb c NUL || Ascii.eqb c LF); congruence.
Qed.

Lemma loop_ordinary (c : ascii) (rest : list ascii) (s : state) :
  c <> NUL -> c <> LF -> loop s (c :: rest) = loop (step s c) rest.
Proof.
  intros Hn Hl; simpl.
  destruct (Ascii.eqb_spec c NUL); [contradiction|].
  destruct (Ascii.eqb_spec c LF); [contradiction|]; reflexivity.
Qed.

Lemma pending_pending (s : state) (a b : N) :
  pending (pending s a) b = pending s (a + b).
Proof. unfold pending; simpl; f_equal; lia. Qed.

Lemma step_backslash (s : state) :
  (backslashCount s + 1 < 4294967296)%N ->
  step s BACKSLASH = pending s 1.
Proof.
  intros H; unfold step, pending, uint32_incr.
  replace (is_blank BACKSLASH) with false by reflexivity.
  rewrite andb_false_r.
  replace (Ascii.eqb BACKSLASH BACKSLASH) with true by reflexivity.
  rewrite N.mod_small by lia; reflexivity.
Qed.

Lemma loop_backslashes (k : nat) (rest : list ascii) (s : state) :
  (backslashCount s + N.of_nat (S k) < 4294967296)%N ->
  loop s (repeat BACKSLASH (S k) ++ rest)
  = loop (pending s (N.of_nat (S k))) rest.
Proof.
  revert s; induction k as [|k IH]; intros s H.
  - change (repeat BACKSLASH 1 ++ rest) with (BACKSLASH :: rest).
    rewrite loop_ordinary by discriminate.
    rewrite step_backslash by lia; reflexivity.
  - change (repeat BACKSLASH (S (S k)) ++ rest)
      with (BACKSLASH :: (repeat BACKSLASH (S k) ++ rest)).
    rewrite loop_ordinary by discriminate.
    rewrite step_backslash by lia.
    rewrite IH by (simpl backslashCount; lia).
    rewrite pending_pending; f_equal; f_equal; lia.
Qed.

Lemma backslashes_S (n : N) :
  (0 < n)%N -> exists k, backslashes n = repeat BACKSLASH (S k)
                         /\ N.of_nat (S k) = n.
Proof.
  intros H; exists (Nat.pred (N.to_nat n)); unfold backslashes.
  replace (S (Nat.pred (N.to_nat n))) with (N.to_nat n) by lia.
  split; [reflexivity | lia].
Qed.

(** Backslashes are only counted until the character after them is seen. *)
Lemma loop_pending (n : N) (rest : list ascii) (s : state) :
  backslashCount s = 0%N -> (0 < n < 4294967296)%N ->
  loop s (backslashes n ++ rest) = loop (pending s n) rest.
Proof.
  intros H0 Hn. destruct (backslashes_S n) as (k & -> & <-); [lia|].
  apply loop_backslashes; lia.
Qed.

Lemma step_quote (s : state) :
  step s DQUOTE
  = if (backslashCount s mod 2 =? 1)%N then
      {| tokens := tokens s;
         token := (token s ++ backslashes (backslashCount s / 2))
                  ++ [DQUOTE];
         inWhiteSpace := false; inQuote := inQuote s;
         backslashCount := 0 |}
    else
      {| tokens := tokens s;
         token := token s ++ backslashes (backslashCount s / 2);
         inWhiteSpace := false; inQuote := negb (inQuote s);
         backslashCount := 0 |}.
Proof.
  unfold step.
  replace (is_blank DQUOTE) with false by reflexivity.
  rewrite andb_false_r. reflexivity.
Qed.

Lemma even_half (n : N) : ((2 * n) mod 2 = 0 /\ (2 * n) / 2 = n)%N.
Proof.
  split.
  - rewrite N.mul_comm; apply N.Div0.mod_mul.
  - rewrite N.mul_comm; apply N.div_mul; discriminate.
Qed.

Lemma odd_half (n : N) : ((2 * n + 1) mod 2 = 1 /\ (2 * n + 1) / 2 = n)%N.
Proof.
  assert (H : (2 * n + 1 = 2 * n + 1)%N) by reflexivity.
  split.
  - symmetry; apply (N.mod_unique (2 * n + 1) 2 n 1); [lia | assumption].
  - symmetry; apply (N.div_unique (2 * n + 1) 2 n 1); [lia | assumption].
Qed.






(** 2n backslashes and a quote: n backslashes, and the quote opens or
    closes a quoted part. *)
Lemma loop_even_quote (n : N) (rest : list ascii) (s : state) :
  backslashCount s = 0%N -> (2 * n < 4294967296)%N ->
  loop s (backslashes (2 * n) ++ DQUOTE :: rest)
  = loop {| tokens := tokens s; token := token s ++ backslashes n;
            inWhiteSpace := false; inQuote := negb (inQuote s);
            backslashCount := 0 |} rest.
Proof.
  intros H0 Hn. destruct (even_half n) as [Em Ed].
  destruct (N.eq_dec n 0) as [->|Hpos].
  - change (backslashes (2 * 0) ++ DQUOTE :: rest) with (DQUOTE :: rest).
    rewrite loop_ordinary by discriminate.
    rewrite step_quote, H0. reflexivity.
  - rewrite loop_pending by lia.
    rewrite loop_ordinary by discriminate.
    rewrite step_quote. unfold pending; cbn [backslashCount tokens token inQuote inWhiteSpace].
    rewrite H0, N.add_0_l, Em, Ed. reflexivity.
Qed.

(** 2n+1 backslashes and a quote: n backslashes and a quote character. *)
Lemma loop_odd_quote (n : N) (rest : list ascii) (s : state) :
  backslashCount s = 0%N -> (2 * n + 1 < 4294967296)%N ->
  loop s (backslashes (2 * n + 1) ++ DQUOTE :: rest)
  = loop {| tokens := tokens s;
            token := (token s ++ backslashes n) ++ [DQUOTE];
            inWhiteSpace := false; inQuote := inQuote s;
            backslashCount := 0 |} rest.
Proof.
  intros H0 Hn. destruct (odd_half n) as [Em Ed].
  rewrite loop_pending by lia.
  rewrite loop_ordinary by discriminate.
  rewrite step_quote. unfold pending; cbn [backslashCount tokens token inQuote inWhiteSpace].
  rewrite H0, N.add_0_l, Em, Ed. reflexivity.
Qed.

(** Backslashes before any other character are kept as they are. *)
Lemma loop_literal_backslashes (n : N) (c : ascii) (rest : list ascii)
      (s : state) :
  backslashCount s = 0%N -> (0 < n < 4294967296)%N -> ordinary c ->
  loop s (backslashes n ++ c :: rest)
  = loop (if negb (inQuote s) && is_blank c then
            {| tokens := tokens s ++ [token s ++ backslashes n];
               token := []; inWhiteSpace := true; inQuote := inQuote s;
               backslashCount := 0 |}
          else
            {| tokens := tokens s;
               token := (token s ++ backslashes n) ++ [c];
               inWhiteSpace := false; inQuote := inQuote s;
               backslashCount := 0 |}) rest.
Proof.
  intros H0 Hn (Hnul & Hlf & Hq & Hb).
  rewrite loop_pending by lia.
  rewrite loop_ordinary by assumption.
  unfold step, pending; simpl.
  destruct (Ascii.eqb_spec c BACKSLASH); [contradiction|].
  destruct (Ascii.eqb_spec c DQUOTE); [contradiction|].
  rewrite H0, N.add_0_l.
  destruct (N.ltb_spec 0 n); [|lia].
  destruct (negb (inQuote s) && is_blank c); reflexivity.
Qed.


(** A space or tab ends the token outside quotes and belongs to the token
    inside quotes. *)
Lemma loop_blank (c : ascii) (rest : list ascii) (s : state) :
  is_blank c = true -> backslashCount s = 0%N -> inWhiteSpace s = false ->
  loop s (c :: rest)
  = loop (if inQuote s then
            {| tokens := tokens s; token := token s ++ [c];
               inWhiteSpace := false; inQuote := true;
               backslashCount := 0 |}
          else
            {| tokens := tokens s ++ [token s]; token := [];
               inWhiteSpace := true; inQuote := false;
               backslashCount := 0 |}) rest.
Proof.
  intros B H0 HW.
  assert (c = SPACE \/ c = TAB) as Hc.
  { unfold is_blank in B. apply orb_true_iff in B.
    destruct B as [B|B]; [left|right];
      destruct (Ascii.eqb_spec c SPACE), (Ascii.eqb_spec c TAB);
      congruence. }
  rewrite loop_ordinary by (destruct Hc; subst; discriminate).
  unfold step. rewrite HW, H0, B. simpl.
  destruct Hc; subst; destruct (inQuote s); reflexivity.
Qed.

Lemma tokenize_newline (a b : list ascii) :
  tokenize (a ++ LF :: b) = tokenize a.
Proof.
  unfold tokenize.
  rewrite loop_logical_line, logical_line_newline, <- loop_logical_line.
  reflexivity.
Qed.


End TokenizerFacts.

(** ** omnicli: cat *)

Section CatFacts.
Import OmniCli Spec.

Lemma isAscii_spec (buf : list ascii) :
  isAscii buf = true <-> Forall texty buf.
Proof.
  induction buf as [|b buf IH]; simpl.
  - split; auto.
  - destruct (Ascii.eqb_spec b LF) as [->|HL]; simpl.
    { rewrite IH; split; intros H; [constructor; [left|]; auto
                                   | inversion H; auto]. }
    destruct (Ascii.eqb_spec b TAB) as [->|HT]; simpl.
    { rewrite IH; split; intros H;
        [constructor; [right; left|]; auto | inversion H; auto]. }
    destruct (Ascii.eqb_spec b CR) as [->|HC]; simpl.
    { rewrite IH; split; intros H;
        [constructor; [right; right; left|]; auto | inversion H; auto]. }
    destruct (Z.leb_spec 127 (code b)); simpl.
    { split; [discriminate|]. intros H'; inversion H' as [|? ? T _]; subst.
      unfold texty in T; intuition lia. }
    destruct (Z.ltb_spec (code b) 32); simpl.
    { split; [discriminate|]. intros H'; inversion H' as [|? ? T _]; subst.
      unfold texty in T; intuition lia. }
    rewrite IH; split; intros H'.
    + constructor; [right; right; right; lia | assumption].
    + inversion H'; assumption.
Qed.

(** Text holds no NUL, so [printf] prints all of it. *)
Lemma printf_precision_s_text (buf : list ascii) :
  Forall texty buf -> printf_precision_s (length buf) buf = buf.
Proof.
  induction 1 as [|b buf T _ IH]; simpl; [reflexivity|].
  destruct (Ascii.eqb_spec b NUL) as [->|_].
  - exfalso. unfold texty in T. destruct T as [T|[T|[T|T]]];
      try discriminate. cbv in T. intuition discriminate.
  - rewrite IH; reflexivity.
Qed.

Lemma hex_dump_no_text (c : OmniClientContent) (bytes : list ascii) :
  ~ In (PrintText bytes) (hex_dump c).
Proof.
  unfold hex_dump. rewrite in_app_iff, in_map_iff.
  intros [(k & E & _)|[E|[]]]; discriminate.
Qed.

Lemma cat_callback_cases (result : OmniClientResult)
      (content : OmniClientContent) :
  let out := snd (cat_callback result content) in
  fst (cat_callback result content) = resultToRetcode result
  /\ (result <> eOmniClientResult_Ok -> out = [PrintResult result])
  /\ (result = eOmniClientResult_Ok -> (1000000 < size content)%Z ->
      out = [PrintTooLarge (size content)])
  /\ (result = eOmniClientResult_Ok -> (size content <= 1000000)%Z ->
      Forall texty (buffer content) ->
      out = [PrintText (buffer content)])
  /\ (result = eOmniClientResult_Ok -> (size content <= 1000000)%Z ->
      ~ Forall texty (buffer content) -> out = hex_dump content).
Proof.
  unfold cat_callback; cbn [fst snd].
  change (1 * 1000 * 1000)%Z with 1000000%Z.
  split; [reflexivity|].
  split; [destruct result; simpl; congruence|].
  split; [intros -> L; simpl; destruct (Z.ltb_spec 1000000 (size content));
          [reflexivity | lia]|].
  split; intros -> L T; simpl;
    (destruct (Z.ltb_spec 1000000 (size content)); [lia|]).
  - rewrite (proj2 (isAscii_spec _) T). unfold size.
    rewrite Nat2Z.id, printf_precision_s_text by assumption. reflexivity.
  - destruct (isAscii (buffer content)) eqn:E; [|reflexivity].
    apply isAscii_spec in E; contradiction.
Qed.

End CatFacts.

(** ** omnicli: setacls *)

Section AclFacts.
Import OmniCli Spec.
Context {client : OmniClient}.

Lemma scan_acls_spec (name : text) (fetched entries : list AclEntry)
      (found : bool) :
  scan_acls name fetched entries found
  = (entries ++ others name fetched,
     found || existsb (fun e => text_eqb (fst e) name) fetched).
Proof.
  revert entries found; induction fetched as [|it rest IH];
    intros entries found; simpl.
  - rewrite app_nil_r, orb_false_r; reflexivity.
  - destruct (text_eqb (fst it) name) eqn:E; simpl; rewrite IH.
    + rewrite orb_true_r; reflexivity.
    + rewrite <- app_assoc; simpl. destruct it; reflexivity.
Qed.

Lemma existsb_listed (name : text) (fetched : list AclEntry) :
  existsb (fun e => text_eqb (fst e) name) fetched = true
  <-> listed name fetched.
Proof.
  rewrite existsb_exists; unfold listed.
  split; intros (e & I & E); exists e; split; auto;
    apply text_eqb_spec; assumption.
Qed.

Lemma uint16_lor (a b : Z) :
  (0 <= a < 65536)%Z -> (0 <= b < 65536)%Z ->
  uint16 (Z.lor a b) = Z.lor a b /\ (0 <= Z.lor a b < 65536)%Z.
Proof.
  intros Ha Hb.
  assert (R : (0 <= Z.lor a b < 65536)%Z).
  { split; [apply Z.lor_nonneg; lia|].
    destruct (Z.eq_dec (Z.lor a b) 0) as [->|N]; [lia|].
    change 65536%Z with (2 ^ 16)%Z.
    apply Z.log2_lt_pow2; [pose proof (Z.lor_nonneg a b); lia|].
    rewrite Z.log2_lor by lia.
    apply Z.max_lub_lt.
    - destruct (Z.eq_dec a 0) as [->|]; [simpl; lia|].
      apply Z.log2_lt_pow2; lia.
    - destruct (Z.eq_dec b 0) as [->|]; [simpl; lia|].
      apply Z.log2_lt_pow2; lia. }
  split; [apply Z.mod_small; assumption | assumption].
Qed.

Hypothesis Read_fits : (0 <= fOmniClientAccess_Read < 65536)%Z.
Hypothesis Write_fits : (0 <= fOmniClientAccess_Write < 65536)%Z.
Hypothesis Admin_fits : (0 <= fOmniClientAccess_Admin < 65536)%Z.

(** The parse loop: it accepts exactly the strings over a, w, r (in
    either case) and '-', ors the bits of the letters into [access], and
    sets [removeEntry] at a '-'. *)
Lemma parse_access_spec (accessStr : text) :
  forall access removeEntry, (0 <= access < 65536)%Z ->
    (Forall access_letter accessStr ->
     parse_access accessStr access removeEntry
     = Some (Z.lor access (access_bits accessStr),
             removeEntry || existsb (Ascii.eqb "-") accessStr))
    /\ (~ Forall access_letter accessStr ->
        parse_access accessStr access removeEntry = None).
Proof.
  induction accessStr as [|p rest IH]; intros access removeEntry Ha.
  - simpl. rewrite Z.lor_0_r, orb_false_r. split; [reflexivity|].
    intros N; exfalso; apply N; constructor.
  - assert (F : access_letter p ->
                (Forall access_letter (p :: rest)
                 <-> Forall access_letter rest)).
    { intros L; split; intros H; [inversion H; auto | constructor; auto]. }
    destruct p as [[|] [|] [|] [|] [|] [|] [|] [|]];
      first
        [ (* a letter that stands for an access bit *)
          match goal with
          | |- (Forall _ (?p :: _) -> _) /\ _ =>
              change (parse_access (p :: rest) access removeEntry)
                with (parse_access rest
                        (uint16 (Z.lor access (access_bit p))) removeEntry);
              destruct (uint16_lor access (access_bit p) Ha
                          ltac:(first [exact Read_fits | exact Write_fits
                                      | exact Admin_fits])) as [-> R];
              destruct (IH (Z.lor access (access_bit p)) removeEntry R)
                as [I1 I2];
              rewrite F by (unfold access_letter; simpl; tauto);
              split; [intros H; rewrite (I1 H) | exact I2];
              cbn [access_bits fold_right existsb];
              rewrite Z.lor_assoc; reflexivity
          end
        | (* the minus sign *)
          match goal with
          | |- (Forall _ (?p :: _) -> _) /\ _ =>
              change (parse_access (p :: rest) access removeEntry)
                with (parse_access rest access true);
              destruct (IH access true Ha) as [I1 I2];
              rewrite F by (unfold access_letter; simpl; tauto);
              split; [intros H; rewrite (I1 H) | exact I2];
              cbn [access_bits fold_right existsb];
              rewrite orb_true_r; reflexivity
          end
        | (* any other character *)
          split; [intros H; inversion H as [|? ? L _]; exfalso; revert L;
                  unfold access_letter; simpl; intuition discriminate
                 | intros _; reflexivity] ].
Qed.

End AclFacts.

(** ** liveSession: the merge prompt *)

Section MergePromptFacts.
Import Console LiveSession Trace.

Lemma read_word_words (r : stdin) :
  forall c, isspace c = false ->
    exists w rest, read_word (c :: r) = (w, rest)
                   /\ words (c :: r) = w :: words rest
                   /\ length rest <= length r.
Proof.
  induction r as [|c' r IH]; intros c Hc.
  - exists [c], []. simpl. rewrite Hc. auto.
  - destruct (isspace c') eqn:Hc'.
    + exists [c], (c' :: r). simpl. rewrite Hc, Hc'. auto.
    + destruct (IH c' Hc') as (w & rest & E & W & L).
      exists (c :: w), rest.
      change (read_word (c :: c' :: r))
        with (if isspace c then ([], c :: c' :: r)
              else let (w0, rest0) := read_word (c' :: r) in
                   (c :: w0, rest0)).
      change (words (c :: c' :: r))
        with (if isspace c then words (c' :: r)
              else if isspace c' then [c] :: words (c' :: r)
                   else match words (c' :: r) with
                        | w0 :: ws => (c :: w0) :: ws
                        | [] => [[c]]
                        end).
      rewrite Hc, Hc', E, W. simpl. auto with arith.
Qed.

(** An extraction hands out the first word and leaves what follows it. *)
Lemma cin_string_words (inp : stdin) :
  match words inp with
  | [] => cin_string inp = (None, [])
  | w :: ws => exists rest, cin_string inp = (Some w, rest)
                            /\ words rest = ws
                            /\ length rest < length inp
  end.
Proof.
  induction inp as [|c r IH]; [reflexivity|].
  destruct (isspace c) eqn:Hc.
  - replace (words (c :: r)) with (words r) by (simpl; rewrite Hc; auto).
    replace (cin_string (c :: r)) with (cin_string r)
      by (unfold cin_string; simpl; rewrite Hc; auto).
    destruct (words r); [assumption|].
    destruct IH as (rest & E & W & L). exists rest. simpl. auto with arith.
  - destruct (read_word_words r c Hc) as (w & rest & E & W & L).
    rewrite W. exists rest.
    unfold cin_string. cbn [skipws]. rewrite Hc, E. simpl. auto with arith.
Qed.

Lemma accepted_cases (w : text) :
  accepted w = true <-> w = str "n" \/ w = str "r" \/ w = str "c".
Proof.
  unfold accepted. rewrite !orb_true_iff, !text_eqb_spec. tauto.
Qed.

Lemma asks_only_app (a b : list event) :
  Forall asks_only a -> Forall asks_only b -> Forall asks_only (a ++ b).
Proof. intros; apply Forall_app; auto. Qed.

Lemma cin_reads_app (a b : list event) :
  cin_reads (a ++ b) = cin_reads a ++ cin_reads b.
Proof.
  induction a as [|e a IH]; [reflexivity|].
  destruct e; simpl; rewrite ?IH; reflexivity.
Qed.

(** The loop, given enough fuel to read the whole input. *)
Lemma merge_prompt_spec (fuel : nat) :
  forall rootHasSpecs mergeOption inp,
    length inp < fuel -> accepted mergeOption = false ->
    let tr := fst (merge_prompt fuel rootHasSpecs mergeOption inp) in
    let o := snd (merge_prompt fuel rootHasSpecs mergeOption inp) in
    Forall asks_only tr
    /\ match find accepted (words inp) with
       | None => o = Spins
                 /\ cin_reads tr = map Some (words inp) ++ [None]
       | Some w => (exists rest, o = Returns w rest)
                   /\ cin_reads tr = map Some (until_accepted (words inp))
       end.
Proof.
  induction fuel as [|fuel IH]; intros h opt inp L A; [inversion L|].
  cbn [merge_prompt]. rewrite A.
  pose proof (cin_string_words inp) as C.
  destruct (words inp) as [|w ws] eqn:W.
  - rewrite C. cbn [fst snd find map app].
    split.
    + apply asks_only_app; [|repeat constructor].
      destruct h; repeat constructor.
    + split; [reflexivity|]. rewrite cin_reads_app.
      destruct h; reflexivity.
  - destruct C as (rest & -> & Wr & Lr).
    cbn [find until_accepted map].
    destruct (accepted w) eqn:Aw.
    + (* the loop ends at its next test *)
      destruct fuel as [|fuel']; cbn [merge_prompt]; rewrite Aw;
        cbn [fst snd]; (split; [apply asks_only_app;
                                [destruct h; repeat constructor
                                |repeat constructor]|]);
        (split; [eexists; reflexivity|]);
        rewrite cin_reads_app; destruct h; reflexivity.
    + assert (Lf : length rest < fuel) by (simpl in L; lia).
      specialize (IH h w rest Lf Aw). cbv zeta in IH.
      destruct (merge_prompt fuel h w rest) as [tr o].
      cbn [fst snd] in *. rewrite Wr in IH.
      destruct IH as [F IH]. split.
      * apply asks_only_app; [destruct h; repeat constructor|].
        constructor; [exact I | assumption].
      * rewrite cin_reads_app.
        replace (cin_reads ((if h then [Log root_specs_warning] else [])
                            ++ [Log merge_prompt_text]))
          with (@nil (option text)) by (destruct h; reflexivity).
        cbn [app cin_reads].
        destruct (find accepted ws); destruct IH as [IO IR];
          rewrite IR; split; auto.
Qed.

Lemma asks_only_no_merge (tr : list event) :
  Forall asks_only tr -> merges tr = []
                         /\ ~ In MergeToNewLayer tr /\ ~ In MergeToRoot tr
                         /\ getchars tr = 0.
Proof.
  induction 1 as [|e tr He _ (M & N & R & G)]; simpl; [auto|].
  destruct e; simpl in He; try contradiction; unfold merges, getchars in *;
    simpl; repeat split; auto; intros [D|D]; try discriminate; auto.
Qed.

End MergePromptFacts.

Section EndAndMergeFacts.
Import Console LiveSession Trace Spec.
Context {sdk : ConnectSdk}.

Lemma first_accepted_cases (inp : stdin) (w : text) :
  first_accepted inp = Some w ->
  w = str "n" \/ w = str "r" \/ w = str "c".
Proof.
  unfold first_accepted. intros H. apply find_some in H.
  apply accepted_cases; tauto.
Qed.

Lemma merges_app (a b : list event) : merges (a ++ b) = merges a ++ merges b.
Proof. unfold merges; apply filter_app. Qed.

(** [endAndMergeSession] in full: its trace and how it ends, by the
    first word of the input that the prompt accepts. *)
Lemma endAndMergeSession_cases (inp : stdin) :
  exists asked,
    Forall asks_only asked
    /\ match first_accepted inp with
       | None =>
           endAndMergeSession inp
           = (SendMessage eMergeStarted :: asked, Spins)
           /\ cin_reads asked = map Some (words inp) ++ [None]
       | Some w =>
           cin_reads asked = map Some (until_accepted (words inp))
           /\ exists rest,
               endAndMergeSession inp
               = if text_eqb w (str "n") then
                   (SendMessage eMergeStarted :: asked ++ [MergeToNewLayer],
                    Returns true rest)
                 else if text_eqb w (str "r") then
                   (SendMessage eMergeStarted :: asked ++ [MergeToRoot],
                    Returns true rest)
                 else (SendMessage eMergeStarted :: asked,
                       Returns false rest)
       end.
Proof.
  unfold endAndMergeSession, first_accepted.
  pose proof (merge_prompt_spec (S (length inp)) hasPrimSpecsInRootLayer
                (str "_") inp (Nat.lt_succ_diag_r _) eq_refl) as H.
  cbv zeta in H.
  destruct (merge_prompt (S (length inp)) hasPrimSpecsInRootLayer
                         (str "_") inp) as [tr o].
  cbn [fst snd] in H. destruct H as [F H]. exists tr. split; [assumption|].
  destruct (find accepted (words inp)) as [w|].
  - destruct H as [(rest & ->) R]. split; [assumption|].
    exists rest. reflexivity.
  - destruct H as [-> R]. split; [reflexivity | assumption].
Qed.

End EndAndMergeFacts.

(** ** liveSession: findOrCreateSession *)

Section SessionMenuFacts.
Import Console LiveSession Trace Spec.
Context {sdk : ConnectSdk}.

Lemma code_range (c : ascii) : (0 <= code c < 256)%Z.
Proof.
  unfold code. pose proof (N_ascii_bounded c). lia.
Qed.

Lemma code_inj (x y : ascii) : code x = code y -> x = y.
Proof.
  unfold code; intros H. apply N2Z.inj in H.
  rewrite <- (ascii_N_embedding x), <- (ascii_N_embedding y). congruence.
Qed.

Lemma chr_code (c : ascii) : chr (code c) = c.
Proof.
  unfold chr. rewrite Z.mod_small by apply code_range.
  unfold code. rewrite N2Z.id. apply ascii_N_embedding.
Qed.

(** Only the ten digits pass [isdigit], whatever the sign of [char]. *)
Lemma isdigit_int_of_char (c : ascii) :
  isdigit (int_of_char c) = true <-> (48 <= code c <= 57)%Z.
Proof.
  pose proof (code_range c) as R.
  unfold isdigit, int_of_char.
  destruct (char_is_signed && (128 <=? code c)%Z) eqn:S.
  - apply andb_true_iff in S. destruct S as [_ S]. apply Z.leb_le in S.
    rewrite andb_true_iff, Z.leb_le, Z.leb_le. lia.
  - rewrite andb_true_iff, Z.leb_le, Z.leb_le. lia.
Qed.

Lemma selectionIdx_digit (c : ascii) :
  (48 <= code c <= 57)%Z ->
  size_t (size_t (int_of_char c) - 48) = (code c - 48)%Z.
Proof.
  intros D. unfold int_of_char.
  destruct (Z.leb_spec 128 (code c)); [lia|].
  rewrite andb_false_r. unfold size_t.
  rewrite (Z.mod_small (code c)) by lia. apply Z.mod_small. lia.
Qed.

Lemma joins_app (a b : list event) : joins (a ++ b) = joins a ++ joins b.
Proof.
  induction a as [|e a IH]; [reflexivity|].
  destruct e; simpl; rewrite ?IH; reflexivity.
Qed.

Lemma joins_session_menu (sessionList : list text) :
  joins (session_menu sessionList) = [].
Proof.
  unfold session_menu. cbn [joins]. rewrite joins_app.
  cbn [joins]. rewrite app_nil_r.
  induction sessionList as [|n l IH]; [reflexivity | exact IH].
Qed.

Lemma findOrCreateSession_picked (sessionList : list text) (inp : stdin)
      (selection : ascii) (rest : stdin) :
  cin_char inp = (Some selection, rest) ->
  let tr := fst (findOrCreateSession sessionList inp) in
  let o := snd (findOrCreateSession sessionList inp) in
  match picked sessionList selection rest with
  | None => o = Exits 0 /\ joins tr = []
  | Some (sessionName, rest') =>
      joins tr = [sessionName]
      /\ o = if join sessionName then Returns tt rest' else Exits 1
  end.
Proof.
  intros C. unfold findOrCreateSession, picked. rewrite C.
  destruct (isdigit (int_of_char selection)) eqn:D.
  - apply isdigit_int_of_char in D.
    rewrite selectionIdx_digit by assumption.
    destruct (Z.leb_spec 48 (code selection)); [|lia].
    destruct (Z.leb_spec (code selection) 57); [|lia].
    cbn [andb].
    destruct (code selection - 48 <? Z.of_nat (length sessionList))%Z.
    + destruct (join _); cbn [fst snd]; rewrite joins_app,
        joins_session_menu; auto.
    + destruct (Ascii.eqb "n" selection) eqn:N.
      * destruct (cin_string rest) as [w rest'].
        cbn [fst snd]. destruct (join _); cbn [fst snd];
          rewrite joins_app, joins_session_menu; auto.
      * cbn [fst snd]. rewrite joins_app, joins_session_menu; auto.
  - assert (~ (48 <= code selection <= 57)%Z) as ND.
    { intros H. apply isdigit_int_of_char in H. congruence. }
    replace ((48 <=? code selection)%Z && (code selection <=? 57)%Z)
      with false.
    2:{ symmetry. apply andb_false_iff.
        destruct (Z.leb_spec 48 (code selection)); auto.
        destruct (Z.leb_spec (code selection) 57); auto. lia. }
    cbn [andb].
    destruct (Ascii.eqb "n" selection) eqn:N.
    + destruct (cin_string rest) as [w rest'].
      cbn [fst snd]. destruct (join _); cbn [fst snd];
        rewrite joins_app, joins_session_menu; auto.
    + cbn [fst snd]. rewrite joins_app, joins_session_menu; auto.
Qed.

End SessionMenuFacts.

(** ** liveSession: the loop of liveEdit and the channel thread *)

Section LiveEditFacts.
Import Console LiveSession Trace Spec.
Context {sdk : ConnectSdk}.

Lemma switches_app (a b : list event) :
  switches (a ++ b) = switches a + switches b.
Proof. unfold switches. rewrite filter_app, length_app. reflexivity. Qed.

Lemma getchars_app (a b : list event) :
  getchars (a ++ b) = getchars a + getchars b.
Proof. unfold getchars. rewrite filter_app, length_app. reflexivity. Qed.

Lemma passive_counts (tr : list event) :
  Forall passive tr -> switches tr = 0.
Proof.
  induction 1 as [|e tr He _ IH]; [reflexivity|].
  destruct e; simpl in He; try contradiction; exact IH.
Qed.

Lemma inner_counts (tr : list event) :
  Forall inner tr -> switches tr = 0 /\ getchars tr = 0.
Proof.
  induction 1 as [|e tr [S G] _ [IS IG]]; [split; reflexivity|].
  unfold switches, getchars in *. simpl. rewrite S, G. auto.
Qed.

Lemma asks_only_inner (tr : list event) :
  Forall asks_only tr -> Forall inner tr.
Proof.
  apply Forall_impl. intros e; destruct e; simpl; try tauto;
    intros _; split; reflexivity.
Qed.

Ltac inner_list :=
  repeat first
    [ apply Forall_nil
    | apply Forall_cons; [split; reflexivity|]
    | apply Forall_app; split ].

Lemma endAndMergeSession_inner (inp : stdin) :
  Forall inner (fst (endAndMergeSession inp)).
Proof.
  destruct (endAndMergeSession_cases inp) as (asked & F & H).
  apply asks_only_inner in F.
  destruct (first_accepted inp) as [w|].
  - destruct H as (_ & rest & ->).
    destruct (text_eqb w (str "n")); [|destruct (text_eqb w (str "r"))];
      cbn [fst]; inner_list; assumption.
  - destruct H as [-> _]. cbn [fst]. inner_list; assumption.
Qed.

(** The body of a command neither reads the command key nor enters the
    switch again. *)
Lemma dispatch_inner (st : edit_state) (c : ascii) (inp : stdin) :
  Forall inner (fst (fst (dispatch st c inp))).
Proof.
  unfold dispatch.
  destruct (Ascii.eqb c "t").
  { unfold transform_case, findGeomMesh.
    destruct (primValidAndActive (geomMesh st)); cbn [negb fst snd].
    - destruct (primValidAndActive (geomMesh st)); cbn [negb fst snd];
        inner_list.
    - destruct (find snd stageTraverse) as [node|]; cbn [fst snd];
        destruct (primValidAndActive _); cbn [negb fst snd]; inner_list. }
  destruct (Ascii.eqb c "r").
  { unfold rename_case. destruct (cin_string inp) as [w1 rest1].
    destruct (getPrimAtPath _); cbn [negb].
    - destruct (cin_string rest1) as [w2 rest2].
      destruct (renamePrim _ _); cbn [fst]; inner_list.
    - cbn [fst]; inner_list. }
  destruct (Ascii.eqb c "o"); [cbn [fst]; inner_list|].
  destruct (Ascii.eqb c "u").
  { cbn [fst]. destruct getUsers as [|u us]; [inner_list|].
    apply Forall_cons; [split; reflexivity|].
    apply Forall_forall. intros e He. apply in_map_iff in He.
    destruct He as (x & <- & _). split; reflexivity. }
  destruct (Ascii.eqb c "g"); [cbn [fst]; inner_list|].
  destruct (Ascii.eqb c "c").
  { cbn [fst]. unfold config_case.
    apply Forall_cons; [split; reflexivity|].
    apply Forall_forall. intros e He. apply in_flat_map in He.
    destruct He as (k & _ & He).
    destruct (getLiveSessionConfig k); [destruct He|].
    destruct He as [<-|[]]. split; reflexivity. }
  destruct (Ascii.eqb c "m").
  { pose proof (endAndMergeSession_inner inp) as F.
    destruct (endAndMergeSession inp) as [ev o]. cbn [fst] in *.
    apply Forall_cons; [split; reflexivity | assumption]. }
  destruct (Ascii.eqb c ESC || Ascii.eqb c "q"); cbn [fst]; inner_list.
Qed.

Lemma process_messages_spec (messages : list Message) :
  forall merged,
    fst (process_messages merged messages) = merged || has_merge messages
    /\ Forall passive (snd (process_messages merged messages)).
Proof.
  induction messages as [|msg rest IH]; intros merged; cbn [process_messages].
  - cbn. rewrite orb_false_r. auto.
  - specialize (IH (merged || is_merge (type msg))).
    destruct (process_messages (merged || is_merge (type msg)) rest)
      as [m ev]. cbn [fst snd] in *. destruct IH as [-> F].
    split; [unfold has_merge; cbn [existsb]; symmetry; apply orb_assoc|].
    constructor; [exact I|].
    apply Forall_app; split; [|assumption].
    destruct (is_merge (type msg)); repeat constructor.
Qed.

Lemma passive_getchars (tr : list event) :
  Forall passive tr ->
  Forall (fun e => is_getchar e = false) tr -> getchars tr = 0.
Proof.
  intros _ H. induction H as [|e tr He _ IH]; [reflexivity|].
  unfold getchars in *. simpl. rewrite He. exact IH.
Qed.

Lemma channel_events (merged : bool) (messages : list Message) :
  getchars (snd (process_messages merged messages)) = 0.
Proof.
  revert merged; induction messages as [|msg rest IH]; intros merged;
    cbn [process_messages]; [reflexivity|].
  specialize (IH (merged || is_merge (type msg))).
  destruct (process_messages _ rest) as [m ev]. cbn [snd] in *.
  change (getchars ((if is_merge (type msg) then [Log merge_warning] else [])
                    ++ ev) = 0).
  rewrite getchars_app, IH. destruct (is_merge (type msg)); reflexivity.
Qed.

Ltac step_IH IH M :=
  match goal with
  | |- context [run ?rest ?s1] =>
      let H := fresh in
      assert (H : gStageMerged s1 = true)
        by (first [exact M | reflexivity | cbn; assumption]);
      destruct (IH s1 H) as (M' & S' & A');
      destruct (run rest s1) as [s2 ev2]
  end.

Lemma run_merged (schedule : list action) :
  forall s, gStageMerged s = true ->
    gStageMerged (fst (run schedule s)) = true
    /\ switches (snd (run schedule s)) <= 1
    /\ after_merge (at_ s) schedule (fst (run schedule s))
                   (snd (run schedule s)).
Proof.
  induction schedule as [|a rest IH]; intros s M.
  - cbn [run fst snd]. split; [assumption|]. split; [auto|].
    unfold after_merge, main_steps; cbn.
    destruct (at_ s); repeat split; auto; intros; lia.
  - cbn [run]. destruct a as [|messages].
    + (* a step of the main thread *)
      cbn [step]. unfold main_step.
      destruct (at_ s) eqn:P.
      * destruct (getchar (input s)) as [r inp'].
        step_IH IH M.
        cbn [fst snd at_] in *. destruct A' as (Pv & G & Fin).
        split; [assumption|].
        split; [rewrite switches_app, (passive_counts _ Pv); cbn; lia|].
        unfold after_merge.
        split; [constructor; [exact I | assumption]|].
        rewrite getchars_app, G.
        change (getchars [GetChar r]) with 1.
        split; [lia|].
        unfold main_steps in *; cbn [filter is_main length].
        intros L. split; [apply Fin; lia | reflexivity].
      * rewrite M.
        step_IH IH M.
        cbn [fst snd at_ app] in *. destruct A' as (Pv & G & Fin).
        split; [assumption|]. split; [assumption|].
        split; [assumption|]. split; [assumption|]. intros _; assumption.
      * step_IH IH M.
        cbn [fst snd at_ app] in *.
        split; [assumption|]. split; [|exact I].
        unfold switches in *; cbn [filter is_switch]. assumption.
      * pose proof (dispatch_inner (locals s) nextCommand (input s)) as D.
        destruct (dispatch (locals s) nextCommand (input s))
          as [[ev st'] o]. cbn [fst] in D.
        apply inner_counts in D. destruct D as [D _].
        assert (forall s1, gStageMerged s1 = true ->
                  (at_ s1 = AtGetchar \/ at_ s1 = Finished
                   \/ at_ s1 = Stuck) ->
                  gStageMerged (fst (run rest s1)) = true
                  /\ switches ((Switch nextCommand :: ev)
                               ++ snd (run rest s1)) <= 1) as K.
        { intros s1 M1 P1. destruct (IH s1 M1) as (M' & _ & A').
          split; [assumption|].
          rewrite switches_app.
          replace (switches (Switch nextCommand :: ev)) with 1
            by (unfold switches in *; cbn [filter is_switch length];
                rewrite D; reflexivity).
          destruct P1 as [P1|[P1|P1]]; rewrite P1 in A';
            destruct A' as (Pv & _); rewrite (passive_counts _ Pv); lia. }
        destruct o as [wait inp'| | | |];
          match goal with
          | |- context [run rest ?s1] =>
              destruct (K s1 M) as [K1 K2];
                [cbn [at_]; try destruct wait; auto|];
                destruct (run rest s1) as [s2 ev2]
          end; cbn [fst snd] in *; repeat split; auto.
      * destruct (IH s M) as (M' & S' & A'). rewrite P in A'.
        destruct (run rest s) as [s2 ev2]. cbn [fst snd app] in *.
        destruct A' as (Pv & G & Fin). unfold after_merge. auto.
      * destruct (IH s M) as (M' & S' & A'). rewrite P in A'.
        destruct (run rest s) as [s2 ev2]. cbn [fst snd app] in *.
        destruct A' as (Pv & G & Fin). unfold after_merge. auto.
    + (* a tick of the channel thread *)
      cbn [step].
      destruct (process_messages_spec messages (gStageMerged s)) as [E Pm].
      pose proof (channel_events (gStageMerged s) messages) as Gm.
      destruct (process_messages (gStageMerged s) messages) as [m ev].
      cbn [fst snd] in E, Pm, Gm. subst m. rewrite M in *. cbn [orb].
      match goal with
      | |- context [run rest ?s1] =>
          destruct (IH s1 eq_refl) as (M' & S' & A');
            destruct (run rest s1) as [s2 ev2]
      end.
      cbn [fst snd at_] in *.
      split; [assumption|].
      split; [rewrite switches_app, (passive_counts _ Pm); assumption|].
      unfold after_merge, main_steps in *. cbn [filter is_main].
      destruct (at_ s); auto;
        destruct A' as (Pv & G & Fin);
        (split; [apply Forall_app; auto|]);
        rewrite getchars_app, Gm; auto.
Qed.

End LiveEditFacts.

(** ** omnicli: setacls, as a whole *)

Section SetAclsFacts.
Import OmniCli Spec.
Context {client : OmniClient}.
Hypothesis Read_fits : (0 <= fOmniClientAccess_Read < 65536)%Z.
Hypothesis Write_fits : (0 <= fOmniClientAccess_Write < 65536)%Z.
Hypothesis Admin_fits : (0 <= fOmniClientAccess_Admin < 65536)%Z.

Lemma access_letter_dec (accessStr : text) :
  {Forall access_letter accessStr} + {~ Forall access_letter accessStr}.
Proof.
  apply Forall_dec. intros p. unfold access_letter.
  apply in_dec, ascii_dec.
Qed.

Lemma minus_in (accessStr : text) :
  existsb (Ascii.eqb "-") accessStr = true <-> In "-"%char accessStr.
Proof.
  rewrite existsb_exists. split.
  - intros (x & I & E). destruct (Ascii.eqb_spec "-" x); congruence.
  - intros I. exists "-"%char. split; [assumption | reflexivity].
Qed.

Lemma existsb_not_listed (name : text) (fetched : list AclEntry) :
  existsb (fun e => text_eqb (fst e) name) fetched = false
  <-> ~ listed name fetched.
Proof.
  rewrite <- existsb_listed.
  destruct (existsb (fun e => text_eqb (fst e) name) fetched);
    split; congruence.
Qed.

(** [setacls], branch by branch. *)
Lemma setacls_cases (arg0 url name accessStr : text) (more : ArgVec) :
  let result := fst (omniClientGetAcls url) in
  let fetched := snd (omniClientGetAcls url) in
  setacls (arg0 :: url :: name :: accessStr :: more)
  = if access_letter_dec accessStr then
      if is_Ok result then
        if existsb (Ascii.eqb "-") accessStr then
          if existsb (fun e => text_eqb (fst e) name) fetched then
            (fst (send_acls url (others name fetched)),
             Reconnect url :: GetAcls url
             :: snd (send_acls url (others name fetched)))
          else (EXIT_FAILURE,
                [Reconnect url; GetAcls url; PrintNotInAcls name])
        else
          (fst (send_acls url (others name fetched
                               ++ [(name, access_bits accessStr)])),
           Reconnect url :: GetAcls url
           :: snd (send_acls url (others name fetched
                                  ++ [(name, access_bits accessStr)])))
      else (EXIT_FAILURE, [Reconnect url; GetAcls url; PrintResult result])
    else (EXIT_FAILURE, [PrintUnknownAccess accessStr]).
Proof.
  cbv zeta. unfold setacls.
  destruct (parse_access_spec Read_fits Write_fits Admin_fits accessStr
              0 false ltac:(lia)) as [P1 P2].
  destruct (access_letter_dec accessStr) as [L|L].
  - rewrite (P1 L). rewrite Z.lor_0_l. cbn [orb].
    destruct (omniClientGetAcls url) as [result fetched]. cbn [fst snd].
    destruct (is_Ok result); cbn [negb]; [|reflexivity].
    rewrite scan_acls_spec. cbn [app orb].
    destruct (existsb (Ascii.eqb "-") accessStr).
    + destruct (existsb (fun e => text_eqb (fst e) name) fetched);
        cbn [negb]; [|reflexivity].
      destruct (send_acls url (others name fetched)); reflexivity.
    + destruct (send_acls url _); reflexivity.
  - rewrite (P2 L). reflexivity.
Qed.

Lemma send_acls_spec (url : text) (entries : list AclEntry) :
  fst (send_acls url entries)
  = resultToRetcode (omniClientSetAcls url entries)
  /\ (forall u es, In (SetAcls u es) (snd (send_acls url entries))
                   <-> u = url /\ es = entries).
Proof.
  unfold send_acls; cbn [fst snd]. split; [reflexivity|].
  intros u es. split.
  - intros [E|I]; [injection E; auto|].
    destruct (negb _); [destruct I as [E|[]]; discriminate | destruct I].
  - intros [-> ->]. left; reflexivity.
Qed.

End SetAclsFacts.

(** ** omnicli: the update thread *)

Section UpdateThreadFacts.
Import OmniCli Spec.



End UpdateThreadFacts.

(** ** omniSensorThread and helloWorld: the loops *)

Section LoopFacts.
Import Spec.


Context {platform : HelloWorld.Platform}.
Import HelloWorld.

Lemma helloWorld_dispatch_reads (st : edit_state) (c : ascii)
      (inp : Console.stdin) :
  Forall not_getchar (fst (fst (fst (dispatch st c inp)))).
Proof.
  unfold dispatch.
  destruct (Ascii.eqb c "t"); [cbn; repeat constructor|].
  destruct (Ascii.eqb c "s"); [cbn; repeat constructor|].
  destruct (Ascii.eqb c "a").
  { cbn [fst]. apply Forall_forall. intros e He.
    apply in_flat_map in He. destruct He as (i & _ & He).
    destruct He as [<-|[<-|[<-|[]]]]; exact I. }
  destruct (Ascii.eqb c "m").
  { destruct (negb _); [|cbn; repeat constructor].
    destruct (getline inp). cbn. repeat constructor. }
  destruct (Ascii.eqb c "l"); [cbn; repeat constructor|].
  destruct (Ascii.eqb c ESC || Ascii.eqb c "q");
    cbn; repeat constructor.
Qed.



End LoopFacts.

(** ** Console input: what an extraction consumes *)

Section ConsoleFacts.
Import Console.

Lemma skipws_app (ws l : stdin) :
  Forall (fun c => isspace c = true) ws -> skipws (ws ++ l) = skipws l.
Proof.
  induction 1 as [|c ws Hc _ IH]; [reflexivity|].
  simpl. rewrite Hc. exact IH.
Qed.

Lemma read_word_app (w rest : stdin) :
  Forall (fun c => isspace c = false) w ->
  rest = [] \/ (exists c r, rest = c :: r /\ isspace c = true) ->
  read_word (w ++ rest) = (w, rest).
Proof.
  intros Hw Hr. induction Hw as [|c w Hc _ IH].
  - destruct Hr as [->|(c & r & -> & Hc)]; [reflexivity|].
    simpl. rewrite Hc. reflexivity.
  - simpl. rewrite Hc, IH. reflexivity.
Qed.

(** An extraction of a string passes over the white space before the
    word and takes the whole word. *)
Lemma cin_string_word (ws w rest : stdin) :
  Forall (fun c => isspace c = true) ws ->
  Forall (fun c => isspace c = false) w -> w <> [] ->
  rest = [] \/ (exists c r, rest = c :: r /\ isspace c = true) ->
  cin_string (ws ++ w ++ rest) = (Some w, rest).
Proof.
  intros Hws Hw Hne Hr. unfold cin_string. rewrite skipws_app by assumption.
  destruct w as [|c w]; [contradiction|].
  pose proof (read_word_app _ _ Hw Hr) as E.
  inversion Hw as [|? ? Hc _]; subst.
  change ((c :: w) ++ rest) with (c :: (w ++ rest)) in *.
  cbn [skipws]. rewrite Hc, E. reflexivity.
Qed.

End ConsoleFacts.

Section SessionMenuReads.
Import Console LiveSession Trace Spec.
Context {sdk : ConnectSdk}.

Lemma cin_reads_session_menu (sessionList : list text) :
  cin_reads (session_menu sessionList) = [].
Proof.
  unfold session_menu. cbn [cin_reads]. rewrite cin_reads_app.
  cbn [cin_reads]. rewrite app_nil_r.
  induction sessionList as [|n l IH]; [reflexivity | exact IH].
Qed.

(** Only the choice [n] reads more than the selection character. *)
Lemma findOrCreateSession_reads (sessionList : list text) (inp : stdin)
      (selection : ascii) (rest : stdin) :
  cin_char inp = (Some selection, rest) ->
  cin_reads (fst (findOrCreateSession sessionList inp))
  = if ((48 <=? code selection)%Z && (code selection <=? 57)%Z
        && (code selection - 48 <? Z.of_nat (length sessionList))%Z)%bool
    then []
    else if Ascii.eqb "n" selection then [fst (cin_string rest)] else [].
Proof.
  intros C. unfold findOrCreateSession. rewrite C.
  destruct (isdigit (int_of_char selection)) eqn:D.
  - apply isdigit_int_of_char in D.
    rewrite selectionIdx_digit by assumption.
    destruct (Z.leb_spec 48 (code selection)); [|lia].
    destruct (Z.leb_spec (code selection) 57); [|lia].
    cbn [andb].
    destruct (code selection - 48 <? Z.of_nat (length sessionList))%Z.
    + destruct (join _); cbn [fst snd]; rewrite cin_reads_app,
        cin_reads_session_menu; reflexivity.
    + destruct (Ascii.eqb "n" selection) eqn:N.
      * destruct (cin_string rest) as [w rest'].
        cbn [fst snd]. destruct (join _); cbn [fst snd];
          rewrite cin_reads_app, cin_reads_session_menu; reflexivity.
      * cbn [fst snd]. rewrite cin_reads_app, cin_reads_session_menu;
          reflexivity.
  - assert (~ (48 <= code selection <= 57)%Z) as ND.
    { intros H. apply isdigit_int_of_char in H. congruence. }
    replace ((48 <=? code selection)%Z && (code selection <=? 57)%Z)
      with false.
    2:{ symmetry. apply andb_false_iff.
        destruct (Z.leb_spec 48 (code selection)); auto.
        destruct (Z.leb_spec (code selection) 57); auto. lia. }
    cbn [andb].
    destruct (Ascii.eqb "n" selection) eqn:N.
    + destruct (cin_string rest) as [w rest'].
      cbn [fst snd]. destruct (join _); cbn [fst snd];
        rewrite cin_reads_app, cin_reads_session_menu; reflexivity.
    + cbn [fst snd]. rewrite cin_reads_app, cin_reads_session_menu;
        reflexivity.
Qed.

Lemma until_accepted_none (ws : list text) :
  find accepted ws = None -> until_accepted ws = ws.
Proof.
  induction ws as [|w ws IH]; [reflexivity|]. cbn.
  destruct (accepted w); [discriminate|]. intros H; rewrite IH; auto.
Qed.

End SessionMenuReads.

(** * The claims *)

(** ** C1 *)

Section MergeAnswers.
Import Console LiveSession Trace.

Lemma accepted_answer (w : text) :
  accepted w = true <-> Stated.merge_answer w.
Proof. apply accepted_cases. Qed.

Lemma first_answer (pre : list text) (w : text) (post : list text) :
  Forall (fun x => ~ Stated.merge_answer x) pre -> Stated.merge_answer w ->
  find accepted (pre ++ w :: post) = Some w
  /\ until_accepted (pre ++ w :: post) = pre ++ [w].
Proof.
  intros F M. apply accepted_answer in M.
  induction F as [|x pre N _ [IH1 IH2]]; cbn [app find until_accepted].
  - rewrite M. split; reflexivity.
  - destruct (accepted x) eqn:A;
      [exfalso; apply N, accepted_answer; exact A|].
    rewrite IH1, IH2. split; reflexivity.
Qed.

Lemma no_answer (ws : list text) :
  Forall (fun x => ~ Stated.merge_answer x) ws -> find accepted ws = None.
Proof.
  induction 1 as [|x ws N _ IH]; [reflexivity|]. cbn [find].
  destruct (accepted x) eqn:A;
    [exfalso; apply N, accepted_answer; exact A | exact IH].
Qed.

End MergeAnswers.

(** [endAndMergeSession] by the first word that its loop accepts. *)
Lemma endAndMergeSession_by_first_accepted (sdk : LiveSession.ConnectSdk)
        (inp : Console.stdin) :
  let tr := fst (LiveSession.endAndMergeSession inp) in
  let o := snd (LiveSession.endAndMergeSession inp) in
  let first := LiveSession.first_accepted inp in
  (exists later,
      tr = LiveSession.SendMessage LiveSession.eMergeStarted :: later)
  /\ Trace.cin_reads tr
     = map Some (Trace.until_accepted (LiveSession.words inp))
       ++ match first with None => [None] | Some _ => [] end
  /\ (first = Some (str "n")
      <-> Trace.merges tr = [LiveSession.MergeToNewLayer])
  /\ (first = Some (str "r") <-> Trace.merges tr = [LiveSession.MergeToRoot])
  /\ (first = Some (str "n") \/ first = Some (str "r")
      <-> exists rest, o = LiveSession.Returns true rest)
  /\ (first = Some (str "c")
      <-> exists rest, o = LiveSession.Returns false rest)
  /\ (first = Some (str "c") -> Trace.merges tr = [])
  /\ (first = None <-> o = LiveSession.Spins).
Proof.
  cbv zeta.
  destruct (endAndMergeSession_cases inp) as (asked & F & H).
  destruct (asks_only_no_merge asked F) as (M & _).
  pose proof (fun x => merges_app asked [x]) as MA.
  destruct (LiveSession.first_accepted inp) as [w|] eqn:E.
  - destruct H as (R & rest & H).
    destruct (first_accepted_cases _ _ E) as [-> | [-> | ->]];
      cbn in H; rewrite H; cbn [fst snd Trace.cin_reads];
      unfold Trace.merges in *; cbn [filter Trace.is_merge_call];
      rewrite ?MA, ?M, ?cin_reads_app, ?R, ?app_nil_r;
      cbn [app filter Trace.is_merge_call Trace.cin_reads];
      rewrite ?app_nil_r;
      (split; [eexists; reflexivity|]);
      (split; [reflexivity|]);
      repeat split; try tauto; intros; try discriminate; try reflexivity;
        try solve [eexists; reflexivity];
        repeat match goal with
               | H : _ \/ _ |- _ => destruct H
               | H : exists _, _ |- _ => destruct H
               end; try discriminate; auto.
  - destruct H as (H & R). rewrite H. cbn [fst snd Trace.cin_reads].
    unfold LiveSession.first_accepted in E.
    rewrite (until_accepted_none _ E), R.
    unfold Trace.merges in *; cbn [filter Trace.is_merge_call]. rewrite M.
    split; [eexists; reflexivity|]. split; [reflexivity|].
    repeat split; intros; try discriminate; try reflexivity;
      repeat match goal with
             | H : _ \/ _ |- _ => destruct H
             | H : exists _, _ |- _ => destruct H
             end; try discriminate.
Qed.


(** C1. [endAndMergeSession] sends [eMergeStarted] on the channel before
    anything else, so before any merge; it then extracts the
    white-space-delimited words of the input, one after the other, up to
    the first that is "n", "r" or "c", and no further.  It merges to a new
    layer exactly when that word is "n" and to the root exactly when it is
    "r", returning [true] in exactly these two cases; it returns [false],
    having merged nothing, exactly when the word is "c".  When no word of
    the input is one of the three, it reads them all, merges nothing and
    never returns. *)
Theorem endAndMergeSession_protocol (sdk : LiveSession.ConnectSdk)
        (inp : Console.stdin) :
  let tr := fst (LiveSession.endAndMergeSession inp) in
  let o := snd (LiveSession.endAndMergeSession inp) in
  (exists later,
      tr = LiveSession.SendMessage LiveSession.eMergeStarted :: later)
  /\ (forall pre w post,
         LiveSession.words inp = pre ++ w :: post ->
         Forall (fun x => ~ Stated.merge_answer x) pre ->
         Stated.merge_answer w ->
         Trace.cin_reads tr = map Some (pre ++ [w])
         /\ (w = str "n"
             <-> Trace.merges tr = [LiveSession.MergeToNewLayer])
         /\ (w = str "r" <-> Trace.merges tr = [LiveSession.MergeToRoot])
         /\ (w = str "n" \/ w = str "r"
             <-> exists rest, o = LiveSession.Returns true rest)
         /\ (w = str "c" <-> exists rest, o = LiveSession.Returns false rest)
         /\ (w = str "c" -> Trace.merges tr = []))
  /\ (Forall (fun x => ~ Stated.merge_answer x) (LiveSession.words inp) ->
      Trace.cin_reads tr = map Some (LiveSession.words inp) ++ [None]
      /\ Trace.merges tr = [] /\ o = LiveSession.Spins).
Proof.
  cbv zeta.
  destruct (endAndMergeSession_by_first_accepted sdk inp)
    as (A & R & N & Rt & T & C & Cm & Sp).
  split; [exact A|]. split.
  - intros pre w post W F M.
    destruct (first_answer pre w post F M) as [E U].
    unfold LiveSession.first_accepted in *. rewrite W in *.
    rewrite E in *. rewrite U, app_nil_r in R.
    assert (I : forall x, Some w = Some x <-> w = x)
      by (intros x; split; [intros H; injection H; auto | congruence]).
    split; [exact R|].
    split; [rewrite <- N; symmetry; apply I|].
    split; [rewrite <- Rt; symmetry; apply I|].
    split; [rewrite <- T, !I; reflexivity|].
    split; [rewrite <- C; symmetry; apply I|].
    intros ->. apply Cm. reflexivity.
  - intros F. pose proof (no_answer _ F) as E.
    unfold LiveSession.first_accepted in *. rewrite E in *.
    rewrite (until_accepted_none _ E) in R.
    split; [exact R|]. split; [|apply Sp; reflexivity].
    destruct (Trace.merges _) as [|m ms] eqn:Ms; [reflexivity|].
    exfalso.
    destruct (endAndMergeSession_cases inp) as (asked & Fa & H).
    unfold LiveSession.first_accepted in H. rewrite E in H.
    destruct H as [H _]. rewrite H in Ms. cbn [fst] in Ms.
    destruct (asks_only_no_merge asked Fa) as (M0 & _).
    unfold Trace.merges in *. cbn [filter Trace.is_merge_call] in Ms.
    rewrite M0 in Ms. discriminate.
Qed.

Lemma endAndMergeSession_protocol_witness :
  LiveSession.words (str "x  no
r
q") = [str "x"; str "no"] ++ str "r" :: [str "q"]
  /\ Trace.cin_reads
       (fst (LiveSession.endAndMergeSession (sdk := Demo.sdk) (str "x  no
r
q")))
     = [Some (str "x"); Some (str "no"); Some (str "r")]
  /\ Trace.merges
       (fst (LiveSession.endAndMergeSession (sdk := Demo.sdk) (str "x  no
r
q")))
     = [LiveSession.MergeToRoot]
  /\ exists rest,
      snd (LiveSession.endAndMergeSession (sdk := Demo.sdk) (str "x  no
r
q"))
      = LiveSession.Returns true rest.
Proof.
  destruct (endAndMergeSession_protocol Demo.sdk (str "x  no
r
q")) as (_ & P & _).
  destruct (P [str "x"; str "no"] (str "r") [str "q"] eq_refl)
    as (R & _ & Mr & T & _).
  - repeat constructor; intros [E|[E|E]]; discriminate.
  - right. left. reflexivity.
  - split; [reflexivity|]. split; [exact R|].
    split; [apply Mr; reflexivity|].
    apply T. right. reflexivity.
Defined.

Example endAndMergeSession_on_a_typo :
  LiveSession.endAndMergeSession (sdk := Demo.sdk) (str "x  no
r
q")
  = ([LiveSession.SendMessage LiveSession.eMergeStarted;
      LiveSession.Log LiveSession.root_specs_warning;
      LiveSession.Log LiveSession.merge_prompt_text;
      LiveSession.CinString (Some (str "x"));
      LiveSession.Log LiveSession.root_specs_warning;
      LiveSession.Log LiveSession.merge_prompt_text;
      LiveSession.CinString (Some (str "no"));
      LiveSession.Log LiveSession.root_specs_warning;
      LiveSession.Log LiveSession.merge_prompt_text;
      LiveSession.CinString (Some (str "r"));
      LiveSession.MergeToRoot],
     LiveSession.Returns true [LF; "q"%char]).
Proof. vm_compute. reflexivity. Qed.

(** ** C4 *)

(** C4. In [findOrCreateSession] the one selection character decides: a
    decimal digit [d] below the number of listed sessions joins the session
    at index [d] by its name, so an index picked this way is at most 9; [n]
    reads a new session name and joins that session; any other character
    makes the process exit with status 0 without joining; and when the join
    fails the process exits with status 1. *)
Theorem findOrCreateSession_selection (sdk : LiveSession.ConnectSdk)
        (sessionList : list text) (inp : Console.stdin)
        (selection : ascii) (rest : Console.stdin) :
  Console.cin_char inp = (Some selection, rest) ->
  let tr := fst (LiveSession.findOrCreateSession sessionList inp) in
  let o := snd (LiveSession.findOrCreateSession sessionList inp) in
  let d := (code selection - 48)%Z in
  let listed_digit :=
    (48 <= code selection <= 57)%Z
    /\ (d < Z.of_nat (length sessionList))%Z in
  (listed_digit ->
   exists name,
     nth_error sessionList (Z.to_nat d) = Some name
     /\ Trace.joins tr = [name] /\ Trace.cin_reads tr = []
     /\ o = if LiveSession.join name then LiveSession.Returns tt rest
            else LiveSession.Exits 1)
  /\ (selection = "n"%char ->
      let name := match fst (Console.cin_string rest) with
                  | Some s => s
                  | None => []
                  end in
      Trace.cin_reads tr = [fst (Console.cin_string rest)]
      /\ Trace.joins tr = [name]
      /\ o = if LiveSession.join name
             then LiveSession.Returns tt (snd (Console.cin_string rest))
             else LiveSession.Exits 1)
  /\ (~ listed_digit -> selection <> "n"%char ->
      o = LiveSession.Exits 0 /\ Trace.joins tr = [])
  /\ (forall name, In name (Trace.joins tr) ->
                   LiveSession.join name = false -> o = LiveSession.Exits 1)
  /\ (selection <> "n"%char ->
      forall name, In name (Trace.joins tr) ->
                   exists i, i < 10 /\ nth_error sessionList i = Some name
                             /\ Z.of_nat i = d).
Proof.
  intros C. cbv zeta.
  pose proof (findOrCreateSession_picked sessionList inp _ _ C) as P.
  pose proof (findOrCreateSession_reads sessionList inp _ _ C) as R.
  cbv zeta in P. unfold Spec.picked in P.
  set (tr := fst (LiveSession.findOrCreateSession sessionList inp)) in *.
  set (o := snd (LiveSession.findOrCreateSession sessionList inp)) in *.
  assert (N : forall i (l : list text), (0 <= i < Z.of_nat (length l))%Z ->
                nth_error l (Z.to_nat i) = Some (nth (Z.to_nat i) l [])).
  { intros i l Hi. apply nth_error_nth'. lia. }
  destruct (Z.leb_spec 48 (code selection)) as [L1|L1];
    destruct (Z.leb_spec (code selection) 57) as [L2|L2];
    destruct (Z.ltb_spec (code selection - 48)
                         (Z.of_nat (length sessionList))) as [L3|L3];
    cbn [andb] in P, R;
    try (destruct (Ascii.eqb_spec "n" selection) as [<-|NN];
         [try (exfalso; change (code "n"%char) with 110%Z in *; lia)|]);
    try destruct P as [P1 P2];
    repeat split; intros;
      repeat match goal with
             | H : _ /\ _ |- _ => destruct H
             end;
      try lia; try congruence; auto;
      try (rewrite P1 in *; cbn [In] in *);
      try (rewrite P2 in *; cbn [In] in *);
      try tauto.
  all: try (eexists; split; [apply N; lia|]; auto).
  all: try match goal with
           | H : ?x = ?name \/ False |- _ = _ =>
               destruct H as [<-|[]]
           end.
  all: try match goal with
           | H : ?j = false |- context [if ?j then _ else _] =>
               rewrite H; reflexivity
           end.
  all: try match goal with
           | H : _ = ?name \/ False |- exists i, _ =>
               destruct H as [<-|[]];
                 exists (Z.to_nat (code selection - 48));
                 split; [lia|]; split; [apply N; lia | lia]
           end.
Qed.

Lemma findOrCreateSession_selection_witness :
  Console.cin_char (str " 1") = (Some "1"%char, [])
  /\ fst (LiveSession.findOrCreateSession
            (sdk := Demo.sdk) [str "monday"; str "closed"] (str " 1"))
     <> []
  /\ snd (LiveSession.findOrCreateSession
            (sdk := Demo.sdk) [str "monday"; str "closed"] (str " 1"))
     = LiveSession.Exits 1.
Proof.
  split; [reflexivity|].
  destruct (findOrCreateSession_selection Demo.sdk
              [str "monday"; str "closed"] (str " 1") "1"%char []
              eq_refl)
    as (D & _ & _ & F & _).
  destruct D as (name & Hn & J & _ & O).
  { split; [cbv; split; discriminate | reflexivity]. }
  injection Hn as <-.
  split.
  - intros E. rewrite E in J. discriminate.
  - apply (F (str "closed")); [rewrite J; left; reflexivity | reflexivity].
Defined.

(** ** C5 *)

(** C5, as stated, fails: an iteration of liveSession's [liveEdit] that runs
    the merge command reads the command key and then the merge option, a
    white-space-delimited word, so more than one character. *)
Lemma liveEdit_iteration_reads_a_word_too :
  ~ (forall (sdk : LiveSession.ConnectSdk) (merged : bool)
            (st : LiveSession.edit_state) (inp : Console.stdin)
            (ev : list LiveSession.event) (next : option LiveSession.edit_state)
            (rest : Console.stdin),
        LiveSession.liveEdit_iteration merged st inp
        = (ev, LiveSession.Returns next rest) ->
        length inp = S (length rest)).
Proof.
  intros H.
  specialize (H Demo.sdk false
                {| LiveSession.angle := 0; LiveSession.geomMesh := None |}
                (str "m root
r")).
  vm_compute in H. specialize (H _ _ _ eq_refl). discriminate.
Qed.

Section PromptWords.
Import Console LiveSession Trace.
Context {sdk : ConnectSdk}.

Lemma merge_prompt_answered (fuel : nat) (h : bool) (w : text)
      (rest : stdin) :
  accepted w = true -> merge_prompt fuel h w rest = ([], Returns w rest).
Proof. intros A. destruct fuel; cbn [merge_prompt]; rewrite A; reflexivity. Qed.

Lemma cin_reads_asked (h : bool) (w : option text)
      (later : list event) :
  cin_reads (((if h then [Log root_specs_warning] else [])
              ++ [Log merge_prompt_text]) ++ CinString w :: later)
  = w :: cin_reads later.
Proof. destruct h; reflexivity. Qed.

(** The merge prompt takes the next word of the input, however long. *)
Lemma merge_reads_word (ws w rest : stdin) :
  Stated.blanks ws -> Stated.word w -> Stated.after_word rest ->
  let tr := fst (endAndMergeSession (ws ++ w ++ rest)) in
  (exists later, cin_reads tr = Some w :: later)
  /\ (Stated.merge_answer w ->
      cin_reads tr = [Some w]
      /\ exists merged,
          snd (endAndMergeSession (ws ++ w ++ rest))
          = Returns merged rest).
Proof.
  intros B [N W] A. cbv zeta. unfold endAndMergeSession.
  cbn [merge_prompt].
  change (accepted (str "_")) with false. cbv iota.
  rewrite (cin_string_word ws w rest B W N A).
  split.
  - destruct (merge_prompt _ hasPrimSpecsInRootLayer w rest) as [tr' o'].
    destruct o' as [mergeOption rest'| | | |];
      try (cbn [fst cin_reads]; rewrite cin_reads_asked;
           eexists; reflexivity).
    destruct (text_eqb mergeOption (str "n"));
      [|destruct (text_eqb mergeOption (str "r"))];
      cbn [fst cin_reads]; try rewrite (cin_reads_app _ [_]);
      rewrite cin_reads_asked; eexists; reflexivity.
  - intros M. apply accepted_cases in M.
    rewrite (merge_prompt_answered _ _ _ _ M).
    destruct (text_eqb w (str "n"));
      [|destruct (text_eqb w (str "r"))];
      cbn [fst snd cin_reads]; destruct hasPrimSpecsInRootLayer;
      (split; [reflexivity|]);
      eexists; reflexivity.
Qed.

(** So does the rename prompt. *)
Lemma rename_reads_word (ws w rest : stdin) :
  Stated.blanks ws -> Stated.word w -> Stated.after_word rest ->
  (exists later,
      cin_reads (fst (rename_case (ws ++ w ++ rest))) = Some w :: later)
  /\ (getPrimAtPath w = false ->
      cin_reads (fst (rename_case (ws ++ w ++ rest))) = [Some w]
      /\ snd (rename_case (ws ++ w ++ rest)) = rest).
Proof.
  intros B [N W] A. unfold rename_case.
  rewrite (cin_string_word ws w rest B W N A).
  destruct (getPrimAtPath w); cbn [negb].
  - split; [|discriminate].
    destruct (cin_string rest) as [w2 rest2].
    destruct (renamePrim _ _); cbn [fst app cin_reads];
      eexists; reflexivity.
  - split; [eexists; reflexivity|]. intros _. split; reflexivity.
Qed.

(** And the prompt for the name of a new session. *)
Lemma session_name_reads_word (sessionList : list text)
      (ws w rest : stdin) :
  Stated.blanks ws -> Stated.word w -> Stated.after_word rest ->
  let r := findOrCreateSession sessionList ("n"%char :: ws ++ w ++ rest) in
  cin_reads (fst r) = [Some w] /\ joins (fst r) = [w]
  /\ snd r = if join w then Returns tt rest else Exits 1.
Proof.
  intros B [N W] A. cbv zeta.
  assert (C : cin_char ("n"%char :: ws ++ w ++ rest)
              = (Some "n"%char, ws ++ w ++ rest)) by reflexivity.
  pose proof (findOrCreateSession_picked sessionList _ _ _ C) as P.
  pose proof (findOrCreateSession_reads sessionList _ _ _ C) as R.
  cbv zeta in P. unfold Spec.picked in P.
  change (code "n"%char) with 110%Z in *.
  change (110 <=? 57)%Z with false in *.
  rewrite andb_false_r in *. cbn [andb] in *.
  change (Ascii.eqb "n" "n") with true in *. cbv iota in P, R.
  rewrite (cin_string_word ws w rest B W N A) in *. cbn [fst snd] in *.
  destruct P as [J O]. split; [exact R|]. split; assumption.
Qed.

End PromptWords.

(** C5, amended.  Each iteration of helloWorld's and of liveSession's
    [liveEdit] loop obtains its command from exactly one call of
    [getchar] / [_getch], which takes exactly the next character of the
    input, white space included; the command then runs without another
    such call.  The prompts inside the commands do not read single
    characters: the merge prompt of [endAndMergeSession], the rename prompt
    and the prompt for a new session name each extract a whole
    white-space-delimited word with [std::cin], passing over the white space
    before it, and leave the input right after that word. *)
Theorem one_key_per_iteration :
  (forall (sdk : LiveSession.ConnectSdk) (merged : bool)
          (st : LiveSession.edit_state) (c : ascii) (inp : Console.stdin),
      let tr := fst (LiveSession.liveEdit_iteration merged st (c :: inp)) in
      Trace.getchars tr = 1
      /\ (merged = true -> tr = [LiveSession.GetChar (code c)])
      /\ (merged = false ->
          tr = LiveSession.GetChar (code c) :: LiveSession.LiveProcess
               :: LiveSession.Switch c
               :: fst (fst (LiveSession.dispatch st c inp))))
  /\ (forall (platform : HelloWorld.Platform) (st : HelloWorld.edit_state)
             (c : ascii) (inp : Console.stdin),
         fst (fst (HelloWorld.liveEdit_iteration st (c :: inp)))
         = HelloWorld.GetChar (code c) :: HelloWorld.LiveProcess
           :: fst (fst (fst (HelloWorld.dispatch st c inp)))
         /\ Forall Spec.not_getchar
                   (fst (fst (fst (HelloWorld.dispatch st c inp)))))
  /\ (forall (sdk : LiveSession.ConnectSdk) (sessionList : list text)
             (ws w rest : Console.stdin),
         Stated.blanks ws -> Stated.word w -> Stated.after_word rest ->
         ((exists later,
              Trace.cin_reads
                (fst (LiveSession.endAndMergeSession (ws ++ w ++ rest)))
              = Some w :: later)
          /\ (Stated.merge_answer w ->
              Trace.cin_reads
                (fst (LiveSession.endAndMergeSession (ws ++ w ++ rest)))
              = [Some w]
              /\ exists merged,
                  snd (LiveSession.endAndMergeSession (ws ++ w ++ rest))
                  = LiveSession.Returns merged rest))
         /\ ((exists later,
                 Trace.cin_reads
                   (fst (LiveSession.rename_case (ws ++ w ++ rest)))
                 = Some w :: later)
             /\ (LiveSession.getPrimAtPath w = false ->
                 Trace.cin_reads
                   (fst (LiveSession.rename_case (ws ++ w ++ rest)))
                 = [Some w]
                 /\ snd (LiveSession.rename_case (ws ++ w ++ rest)) = rest))
         /\ (let r := LiveSession.findOrCreateSession
                        sessionList ("n"%char :: ws ++ w ++ rest) in
             Trace.cin_reads (fst r) = [Some w]
             /\ Trace.joins (fst r) = [w]
             /\ snd r = if LiveSession.join w
                        then LiveSession.Returns tt rest
                        else LiveSession.Exits 1)).
Proof.
  split; [|split].
  - intros sdk merged st c inp. cbv zeta.
    unfold LiveSession.liveEdit_iteration. cbn [Console.getchar].
    rewrite chr_code.
    pose proof (dispatch_inner st c inp) as D.
    destruct (LiveSession.dispatch st c inp) as [[ev st'] o].
    cbn [fst] in *. apply inner_counts in D. destruct D as [_ G].
    destruct merged; cbn [fst].
    + split; [reflexivity|].
      split; [intros _; reflexivity | discriminate].
    + unfold Trace.getchars in *. cbn [filter Trace.is_getchar length].
      rewrite G. split; [reflexivity|].
      split; [discriminate | intros _; reflexivity].
  - intros platform st c inp.
    pose proof (helloWorld_dispatch_reads st c inp) as D.
    unfold HelloWorld.liveEdit_iteration, HelloWorld.inputChar.
    cbn [Console.getchar]. rewrite chr_code.
    destruct (HelloWorld.dispatch st c inp) as [[[ev st'] wait] rest'].
    cbn [fst] in *. split; [reflexivity | assumption].
  - intros sdk sessionList ws w rest B W A.
    split; [exact (merge_reads_word ws w rest B W A)|].
    split; [exact (rename_reads_word ws w rest B W A)|].
    exact (session_name_reads_word sessionList ws w rest B W A).
Qed.

Lemma one_key_per_iteration_witness :
  Stated.blanks (str "  ") /\ Stated.word (str "root")
  /\ Stated.after_word (str "
r")
  /\ Trace.cin_reads
       (fst (LiveSession.findOrCreateSession (sdk := Demo.sdk) []
               ("n"%char :: str "  " ++ str "root" ++ str "
r")))
     = [Some (str "root")]
  /\ Trace.getchars
       (fst (LiveSession.liveEdit_iteration
               (sdk := Demo.sdk) false
               {| LiveSession.angle := 0; LiveSession.geomMesh := None |}
               (str "m root
r"))) = 1.
Proof.
  assert (B : Stated.blanks (str "  ")) by (repeat constructor).
  assert (W : Stated.word (str "root"))
    by (split; [discriminate | repeat constructor]).
  assert (A : Stated.after_word (str "
r")) by (right; exists LF, (str "r"); split; reflexivity).
  destruct one_key_per_iteration as (K & _ & P).
  split; [exact B|]. split; [exact W|]. split; [exact A|]. split.
  - destruct (P Demo.sdk [] (str "  ") (str "root") (str "
r") B W A) as (_ & _ & S).
    exact (proj1 S).
  - apply (K Demo.sdk false).
Defined.

(** ** C2 *)

(** C2, as stated, fails: when the channel thread meets the merge message
    after the main thread has tested the flag and before it reaches the
    switch, the command just read is still dispatched, here a GetUsers
    message sent after the merge notification. *)
Lemma command_dispatched_after_merge_notification :
  ~ (forall (sdk : LiveSession.ConnectSdk) (mesh : LiveSession.UsdGeomMesh)
            (inp : Console.stdin) (schedule : list LiveSession.action)
            (before after : list LiveSession.event),
        snd (LiveSession.run schedule
                             (fst (LiveSession.liveEdit_start mesh inp)))
        = before ++ LiveSession.Log LiveSession.merge_warning :: after ->
        LiveSession.switches after = 0
        /\ ~ In (LiveSession.SendMessage LiveSession.eGetUsers) after).
Proof.
  intros H.
  specialize (H Demo.sdk None (str "g")
                [LiveSession.MainThread; LiveSession.MainThread;
                 LiveSession.ChannelThread
                   [{| LiveSession.type := LiveSession.eMergeStarted;
                       LiveSession.user_name := str "bob";
                       LiveSession.user_app := str "Create" |}];
                 LiveSession.MainThread; LiveSession.MainThread]
                [LiveSession.GetChar 103;
                 LiveSession.LogWith "Channel Message: %s %s - %s" (str "bob")]
                [LiveSession.LiveProcess; LiveSession.Switch "g";
                 LiveSession.Log "Blasting GET_USERS message to channel";
                 LiveSession.SendMessage LiveSession.eGetUsers]
                eq_refl).
  destruct H as [H _]. vm_compute in H. discriminate.
Qed.

Section MergeNotice.
Import Console LiveSession Trace.
Context {sdk : ConnectSdk}.

Lemma is_merge_notice (msg : Message) :
  is_merge (type msg) = true <-> Stated.merge_notice msg.
Proof.
  unfold Stated.merge_notice.
  destruct (type msg); cbn; split; intros H; auto; try discriminate;
    destruct H; discriminate.
Qed.

Lemma has_merge_notice (messages : list Message) :
  has_merge messages = true
  <-> exists msg, In msg messages /\ Stated.merge_notice msg.
Proof.
  unfold has_merge. rewrite existsb_exists.
  split; intros (msg & I & H); exists msg; (split; [exact I|]);
    apply is_merge_notice; exact H.
Qed.

Lemma channel_step_flag (t : system) (messages : list Message) :
  gStageMerged (fst (step t (ChannelThread messages))) = true
  <-> gStageMerged t = true
      \/ exists msg, In msg messages /\ Stated.merge_notice msg.
Proof.
  cbn [step].
  destruct (process_messages_spec messages (gStageMerged t)) as [E _].
  destruct (process_messages _ messages) as [m ev].
  cbn [fst gStageMerged] in *.
  subst m. rewrite orb_true_iff, has_merge_notice. reflexivity.
Qed.

Lemma channel_step_warns (merged : bool) (messages : list Message) :
  (exists msg, In msg messages /\ Stated.merge_notice msg) ->
  In (Log merge_warning) (snd (process_messages merged messages)).
Proof.
  revert merged. induction messages as [|m rest IH];
    intros merged (msg & I & H); [destruct I|].
  cbn [process_messages].
  specialize (IH (merged || is_merge (type m))).
  destruct (process_messages _ rest) as [m' ev]. cbn [snd] in *.
  destruct I as [->|I].
  - apply is_merge_notice in H. rewrite H. right. left. reflexivity.
  - right. apply in_or_app. right. apply IH. exists msg. auto.
Qed.

Lemma main_step_flag (t : system) :
  gStageMerged (fst (step t MainThread)) = gStageMerged t.
Proof.
  cbn [step]. unfold main_step.
  destruct (at_ t); try reflexivity.
  - destruct (getchar (input t)); reflexivity.
  - destruct (dispatch (locals t) nextCommand (input t)) as [[ev st'] o].
    destruct o; reflexivity.
Qed.

Lemma run_app (a b : list action) :
  forall s,
    run (a ++ b) s
    = (fst (run b (fst (run a s))),
       snd (run a s) ++ snd (run b (fst (run a s)))).
Proof.
  induction a as [|x a IH]; intros s.
  - cbn [app run fst snd]. destruct (run b s); reflexivity.
  - cbn [app run]. destruct (step s x) as [s1 ev1].
    rewrite (IH s1). destruct (run a s1) as [s2 ev2]. cbn [fst snd].
    rewrite app_assoc. reflexivity.
Qed.

(** An iteration that is past the test of the flag goes through its
    switch, once. *)
Lemma run_in_flight (schedule : list action) :
  forall s c,
    gStageMerged s = true ->
    (at_ s = AtSwitch c /\ 1 <= main_steps schedule)
    \/ (at_ s = AtLiveProcess c /\ 2 <= main_steps schedule) ->
    switches (snd (run schedule s)) = 1
    /\ exists pre post, snd (run schedule s) = pre ++ Switch c :: post.
Proof.
  induction schedule as [|a rest IH]; intros s c M P.
  - unfold main_steps in P. cbn in P. lia.
  - cbn [run]. destruct a as [|messages].
    + cbn [step]. unfold main_step.
      destruct P as [[P L]|[P L]]; rewrite P.
      * pose proof (dispatch_inner (locals s) c (input s)) as D.
        destruct (dispatch (locals s) c (input s)) as [[ev st'] o].
        cbn [fst] in D. apply inner_counts in D. destruct D as [D _].
        assert (K : forall s1, gStageMerged s1 = true ->
                      (at_ s1 = AtGetchar \/ at_ s1 = Finished
                       \/ at_ s1 = Stuck) ->
                      switches ((Switch c :: ev) ++ snd (run rest s1)) = 1).
        { intros s1 M1 P1.
          destruct (run_merged rest s1 M1) as (_ & _ & A').
          rewrite switches_app.
          replace (switches (Switch c :: ev)) with 1
            by (unfold switches in *; cbn [filter is_switch length];
                rewrite D; reflexivity).
          destruct P1 as [P1|[P1|P1]]; rewrite P1 in A';
            destruct A' as (Pv & _); rewrite (passive_counts _ Pv); lia. }
        destruct o as [wait inp'| | | |];
          match goal with
          | |- context [run rest ?s1] =>
              pose proof (K s1 M) as K1;
              destruct (run rest s1) as [s2 ev2]
          end; cbn [fst snd] in *;
          (split; [apply K1; cbn [at_]; try destruct wait; auto|]);
          exists [], (ev ++ ev2); reflexivity.
      * unfold main_steps in L. cbn [filter is_main length] in L.
        match goal with
        | |- context [run rest ?s1] =>
            destruct (IH s1 c M) as (S1 & pre & post & E);
              [left; split; [reflexivity | unfold main_steps; lia]|];
              destruct (run rest s1) as [s2 ev2]
        end.
        cbn [fst snd] in *. split.
        -- rewrite switches_app, S1. reflexivity.
        -- exists (LiveProcess :: pre), post. rewrite E. reflexivity.
    + cbn [step].
      destruct (process_messages_spec messages (gStageMerged s)) as [E F].
      destruct (process_messages _ messages) as [m evc].
      cbn [fst snd] in *. rewrite M in E. cbn [orb] in E.
      match goal with
      | |- context [run rest ?s1] =>
          destruct (IH s1 c E) as (S1 & pre & post & E1);
            [exact P|];
            destruct (run rest s1) as [s2 ev2]
      end.
      cbn [fst snd] in *. split.
      * rewrite switches_app, (passive_counts _ F), S1. reflexivity.
      * exists (evc ++ pre), post. rewrite E1, app_assoc. reflexivity.
Qed.

End MergeNotice.

(** C2, amended.  A step of the channel thread leaves [gStageMerged] set
    exactly when it was set before or one of the messages processed is of
    type [eMergeStarted] or [eMergeFinished]; the main thread never changes
    it.  So, from whatever state, once the channel thread has processed
    such a message the flag is set, the warning has been logged, and the
    flag stays set.  From then on every iteration of [liveEdit] that tests
    the flag returns at that test: if the main thread is about to read a
    key, or about to test the flag, it only reads that one key and
    returns, nothing but keys read and lines logged happening meanwhile;
    an iteration that was already past the test goes through its switch,
    so exactly that one command is still dispatched, and never more than
    one. *)
Theorem merged_flag_ends_liveEdit (sdk : LiveSession.ConnectSdk)
        (before after : list LiveSession.action)
        (messages : list LiveSession.Message) (s : LiveSession.system) :
  (exists msg, In msg messages /\ Stated.merge_notice msg) ->
  let r1 := LiveSession.run
              (before ++ [LiveSession.ChannelThread messages]) s in
  let s1 := fst r1 in
  let s' := fst (LiveSession.run after s1) in
  let ev := snd (LiveSession.run after s1) in
  LiveSession.run (before ++ LiveSession.ChannelThread messages :: after) s
  = (s', snd r1 ++ ev)
  /\ (forall t msgs,
         LiveSession.gStageMerged
           (fst (LiveSession.step t (LiveSession.ChannelThread msgs))) = true
         <-> LiveSession.gStageMerged t = true
             \/ exists msg, In msg msgs /\ Stated.merge_notice msg)
  /\ (forall t,
         LiveSession.gStageMerged
           (fst (LiveSession.step t LiveSession.MainThread))
         = LiveSession.gStageMerged t)
  /\ LiveSession.gStageMerged s1 = true
  /\ In (LiveSession.Log LiveSession.merge_warning) (snd r1)
  /\ LiveSession.gStageMerged s' = true
  /\ LiveSession.switches ev <= 1
  /\ (LiveSession.at_ s1 = LiveSession.AtGetchar ->
      Forall Trace.passive ev /\ LiveSession.switches ev = 0
      /\ Trace.getchars ev <= 1
      /\ (2 <= Trace.main_steps after ->
          LiveSession.at_ s' = LiveSession.Finished
          /\ Trace.getchars ev = 1))
  /\ (forall c, LiveSession.at_ s1 = LiveSession.AtMergedCheck c ->
      Forall Trace.passive ev /\ LiveSession.switches ev = 0
      /\ Trace.getchars ev = 0
      /\ (1 <= Trace.main_steps after ->
          LiveSession.at_ s' = LiveSession.Finished))
  /\ (forall c,
         (LiveSession.at_ s1 = LiveSession.AtSwitch c
          /\ 1 <= Trace.main_steps after)
         \/ (LiveSession.at_ s1 = LiveSession.AtLiveProcess c
             /\ 2 <= Trace.main_steps after) ->
         LiveSession.switches ev = 1
         /\ exists pre post, ev = pre ++ LiveSession.Switch c :: post).
Proof.
  intros N. cbv zeta.
  assert (R : LiveSession.run
                (before ++ [LiveSession.ChannelThread messages]) s
              = (fst (LiveSession.step (fst (LiveSession.run before s))
                        (LiveSession.ChannelThread messages)),
                 snd (LiveSession.run before s)
                 ++ snd (LiveSession.step (fst (LiveSession.run before s))
                           (LiveSession.ChannelThread messages)))).
  { rewrite run_app. cbn [LiveSession.run].
    destruct (LiveSession.step _ (LiveSession.ChannelThread messages)).
    cbn [fst snd]. rewrite app_nil_r. reflexivity. }
  assert (M : LiveSession.gStageMerged
                (fst (LiveSession.run
                        (before ++ [LiveSession.ChannelThread messages]) s))
              = true).
  { rewrite R. cbn [fst]. apply channel_step_flag. right. exact N. }
  destruct (run_merged after _ M) as (M' & S' & A').
  split.
  { change (before ++ LiveSession.ChannelThread messages :: after)
      with (before ++ [LiveSession.ChannelThread messages] ++ after).
    rewrite app_assoc. apply run_app. }
  split; [exact channel_step_flag|].
  split; [exact main_step_flag|].
  split; [exact M|].
  split.
  { rewrite R. cbn [snd]. apply in_or_app. right. cbn [LiveSession.step].
    pose proof (channel_step_warns
                  (LiveSession.gStageMerged (fst (LiveSession.run before s)))
                  messages N) as W.
    destruct (LiveSession.process_messages _ messages). exact W. }
  split; [exact M'|]. split; [exact S'|].
  split; [|split].
  - intros P. rewrite P in A'. destruct A' as (Pv & G & Fin).
    repeat split; auto; try (apply passive_counts; assumption);
      apply Fin; assumption.
  - intros c P. rewrite P in A'. destruct A' as (Pv & G & Fin).
    repeat split; auto. apply passive_counts; assumption.
  - intros c P. exact (run_in_flight after _ c M P).
Qed.

Lemma merged_flag_ends_liveEdit_witness :
  let notice := {| LiveSession.type := LiveSession.eMergeFinished;
                   LiveSession.user_name := str "bob";
                   LiveSession.user_app := str "Create" |} in
  let start := fst (LiveSession.liveEdit_start None (str "tg")) in
  let schedule := [LiveSession.MainThread;
                   LiveSession.ChannelThread [notice];
                   LiveSession.MainThread; LiveSession.MainThread] in
  (exists msg, In msg [notice] /\ Stated.merge_notice msg)
  /\ LiveSession.gStageMerged start = false
  /\ LiveSession.gStageMerged
       (fst (LiveSession.run (sdk := Demo.sdk) schedule start)) = true
  /\ LiveSession.at_
       (fst (LiveSession.run (sdk := Demo.sdk) schedule start))
     = LiveSession.Finished
  /\ LiveSession.switches
       (snd (LiveSession.run (sdk := Demo.sdk) schedule start)) = 0.
Proof.
  cbv zeta.
  assert (N : exists msg,
             In msg [{| LiveSession.type := LiveSession.eMergeFinished;
                        LiveSession.user_name := str "bob";
                        LiveSession.user_app := str "Create" |}]
             /\ Stated.merge_notice msg).
  { eexists. split; [left; reflexivity|]. right. reflexivity. }
  split; [exact N|]. split; [reflexivity|].
  destruct (merged_flag_ends_liveEdit Demo.sdk
              [LiveSession.MainThread]
              [LiveSession.MainThread; LiveSession.MainThread]
              _ (fst (LiveSession.liveEdit_start None (str "tg"))) N)
    as (E & _ & _ & _ & _ & M' & _ & _ & A & _).
  cbn [app] in E, M', A. rewrite E. cbn [fst snd].
  split; [exact M'|].
  destruct (A "t"%char eq_refl) as (_ & S0 & _ & Fin).
  split; [apply Fin; vm_compute; lia|].
  rewrite switches_app, S0. reflexivity.
Defined.

(** ** C3 *)


Section UntilStopped.
Import OmniCli.






End UntilStopped.



(** Started with nothing queued and never told to shut down, the update
    thread of omnicli stays in its wait. *)
Example updateThread_left_waiting :
  OmniCli.updateThread 5 OmniCli.initial_globals
                       [[OmniCli.LiveUpdateQueued]; [OmniCli.LiveUpdateQueued]]
  = ([[]; Spec.processed; Spec.processed], OmniCli.Waiting).
Proof. reflexivity. Qed.

Example doWork_three_cycles :
  SensorThread.doWork [false; false; false; true; false] 358
  = ([[SensorThread.SleepFor 300; SensorThread.LiveProcess;
       SensorThread.SetDisplayColor 358; SensorThread.LiveProcess];
      [SensorThread.SleepFor 300; SensorThread.LiveProcess;
       SensorThread.SetDisplayColor 359; SensorThread.LiveProcess];
      [SensorThread.SleepFor 300; SensorThread.LiveProcess;
       SensorThread.SetDisplayColor 0; SensorThread.LiveProcess]], true).
Proof. reflexivity. Qed.

(** ** C6 *)

(** C6. The box table of helloWorld and of omniSimpleSensor (the same
    table in both) has 36 face-vertex indices, each at least 0 and below
    24, and 24 points with every coordinate 50 or -50; the mesh built from
    it has 12 faces of 3 vertices each and is well formed.  The quad built
    for a size [s] has one face of 4 vertices with indices 0, 1, 2, 3, the
    points (-s,0,-s), (-s,0,s), (s,0,s), (s,0,-s) and four normals
    (0,1,0). *)
Theorem demo_geometry_tables :
  (length HelloWorld.gBoxVertexIndices = 36
   /\ Forall (fun i => (0 <= i < 24)%Z) HelloWorld.gBoxVertexIndices
   /\ length HelloWorld.gBoxPoints = 24
   /\ Forall (fun p => let '(x, y, z) := p in
                       (x = 50 \/ x = -50) /\ (y = 50 \/ y = -50)
                       /\ (z = 50 \/ z = -50))%Z HelloWorld.gBoxPoints
   /\ HelloWorld.faceVertexIndices HelloWorld.createBox_mesh
      = HelloWorld.gBoxVertexIndices
   /\ HelloWorld.points HelloWorld.createBox_mesh = HelloWorld.gBoxPoints
   /\ length (HelloWorld.faceVertexCounts HelloWorld.createBox_mesh) = 12
   /\ Forall (eq 3%Z) (HelloWorld.faceVertexCounts HelloWorld.createBox_mesh)
   /\ HelloWorld.well_formed HelloWorld.createBox_mesh)
  /\ (SimpleSensor.gBoxVertexIndices = HelloWorld.gBoxVertexIndices
      /\ SimpleSensor.gBoxPoints = HelloWorld.gBoxPoints
      /\ SimpleSensor.zone_faceVertexIndices = SimpleSensor.gBoxVertexIndices
      /\ length SimpleSensor.zone_faceVertexCounts = 12
      /\ Forall (eq 3%Z) SimpleSensor.zone_faceVertexCounts
      /\ SimpleSensor.zone_points 0 0 0 = SimpleSensor.gBoxPoints)
  /\ (forall (double float : Type) (neg : double -> double)
             (to_float : double -> float) (zero one : float) (s : double),
         let m := HelloWorld.createQuad_mesh double float neg to_float zero one s in
         HelloWorld.faceVertexCounts m = [4%Z]
         /\ HelloWorld.faceVertexIndices m = [0; 1; 2; 3]%Z
         /\ HelloWorld.points m
            = [(to_float (neg s), zero, to_float (neg s));
               (to_float (neg s), zero, to_float s);
               (to_float s, zero, to_float s);
               (to_float s, zero, to_float (neg s))]
         /\ length (HelloWorld.normals m) = 4
         /\ Forall (eq (zero, one, zero)) (HelloWorld.normals m)
         /\ HelloWorld.well_formed m).
Proof.
  split; [|split].
  - split; [reflexivity|].
    split; [repeat (constructor; [lia|]); constructor|].
    split; [reflexivity|].
    split; [unfold HelloWorld.gBoxPoints, HelloWorld.gVal;
            repeat (constructor; [cbn; lia|]); constructor|].
    split; [reflexivity|]. split; [reflexivity|]. split; [reflexivity|].
    split; [repeat constructor|].
    split; [reflexivity|].
    cbn. repeat (constructor; [lia|]). constructor.
  - split; [reflexivity|]. split; [reflexivity|]. split; [reflexivity|].
    split; [reflexivity|]. split; [repeat constructor | reflexivity].
  - intros double float neg to_float zero one s. cbv zeta.
    split; [reflexivity|]. split; [reflexivity|]. split; [reflexivity|].
    split; [reflexivity|]. split; [repeat constructor|].
    split; [reflexivity|]. cbn. repeat (constructor; [lia|]). constructor.
Qed.

Example zone_points_are_the_table_moved :
  nth 1 (SimpleSensor.zone_points 150 0 300) (0, 0, 0)%Z = (100, -50, 250)%Z.
Proof. reflexivity. Qed.

(** ** C7 *)

Ltac no_copy :=
  cbn [fst snd];
  split; [intros; split; [first [reflexivity | exfalso; congruence]
                         | intros ? ? [?|[]]; discriminate]|];
  split; [intros ? ? [?|[]]; discriminate | intros; exfalso; congruence].

(** C7. With a URL given, omnicli's [checkpoint] calls
    [omniClientCreateCheckpoint] with [force] set and returns
    [EXIT_SUCCESS] exactly when the result is one of the Ok values.  Its
    [restoreCheckpoint] returns [EXIT_FAILURE] without any copy when the
    client library finds no branch and checkpoint in the query of the URL;
    any copy it issues is from the given URL onto the URL rebuilt from the
    same components with a query made from the branch alone, and its return
    code is then that of the copy. *)
Theorem checkpoint_commands (client : OmniCli.OmniClient)
        (arg0 url : text) (more : OmniCli.ArgVec) :
  (let comment := match more with c :: _ => c | [] => [] end in
   let result := fst (OmniCli.omniClientCreateCheckpoint url comment true) in
   let retCode := fst (OmniCli.makeCheckpoint (arg0 :: url :: more)) in
   let out := snd (OmniCli.makeCheckpoint (arg0 :: url :: more)) in
   In (OmniCli.CreateCheckpoint url comment true) out
   /\ (forall u c force,
          In (OmniCli.CreateCheckpoint u c force) out -> force = true)
   /\ (retCode = EXIT_SUCCESS <-> is_ok_variant result))
  /\ (let retCode := fst (OmniCli.restoreCheckpoint (arg0 :: url :: more)) in
      let out := snd (OmniCli.restoreCheckpoint (arg0 :: url :: more)) in
      (forall combined,
          OmniCli.omniClientCombineWithBaseUrl url = Some combined ->
          OmniCli.omniClientGetBranchAndCheckpointFromQuery
            (OmniCli.query (OmniCli.omniClientBreakUrl combined)) = None ->
          retCode = EXIT_FAILURE
          /\ forall src dst, ~ In (OmniCli.Copy src dst) out)
      /\ (forall src dst,
             In (OmniCli.Copy src dst) out ->
             exists combined bc queryString,
               OmniCli.omniClientCombineWithBaseUrl url = Some combined
               /\ OmniCli.omniClientGetBranchAndCheckpointFromQuery
                    (OmniCli.query (OmniCli.omniClientBreakUrl combined))
                  = Some bc
               /\ OmniCli.omniClientMakeQueryFromBranchAndCheckpoint
                    (OmniCli.branch bc) 0 = Some queryString
               /\ OmniCli.omniClientMakeUrl
                    {| OmniCli.components :=
                         OmniCli.components
                           (OmniCli.omniClientBreakUrl combined);
                       OmniCli.query := Some queryString;
                       OmniCli.fragment :=
                         OmniCli.fragment
                           (OmniCli.omniClientBreakUrl combined) |}
                  = Some dst
               /\ src = url
               /\ retCode
                  = OmniCli.resultToRetcode (OmniCli.omniClientCopy url dst))
      /\ (forall combined bc queryString dst,
             OmniCli.omniClientCombineWithBaseUrl url = Some combined ->
             OmniCli.omniClientGetBranchAndCheckpointFromQuery
               (OmniCli.query (OmniCli.omniClientBreakUrl combined))
             = Some bc ->
             OmniCli.omniClientMakeQueryFromBranchAndCheckpoint
               (OmniCli.branch bc) 0 = Some queryString ->
             OmniCli.omniClientMakeUrl
               {| OmniCli.components :=
                    OmniCli.components (OmniCli.omniClientBreakUrl combined);
                  OmniCli.query := Some queryString;
                  OmniCli.fragment :=
                    OmniCli.fragment (OmniCli.omniClientBreakUrl combined) |}
             = Some dst ->
             In (OmniCli.Copy url dst) out
             /\ retCode
                = OmniCli.resultToRetcode (OmniCli.omniClientCopy url dst))).
Proof.
  split.
  - cbv zeta. unfold OmniCli.makeCheckpoint.
    destruct (OmniCli.omniClientCreateCheckpoint url _ true)
      as [result checkpointQuery]. cbn [fst snd].
    split; [right; left; reflexivity|]. split.
    + intros u c force [E|[E|[E|[]]]]; try discriminate.
      * injection E; auto.
      * destruct (negb (is_Ok result)); discriminate.
    + unfold is_ok_variant. destruct result; cbn; split; intros H;
        try reflexivity; try discriminate; auto;
        destruct H as [H|[H|H]]; discriminate.
  - cbv zeta. unfold OmniCli.restoreCheckpoint.
    destruct (OmniCli.omniClientCombineWithBaseUrl url) as [combined|] eqn:CB;
      [|no_copy].
    destruct (OmniCli.omniClientGetBranchAndCheckpointFromQuery
                (OmniCli.query (OmniCli.omniClientBreakUrl combined)))
      as [bc|] eqn:BC; [|no_copy].
    destruct (OmniCli.omniClientMakeQueryFromBranchAndCheckpoint
                (OmniCli.branch bc) 0) as [queryString|] eqn:MQ; [|no_copy].
    destruct (OmniCli.omniClientMakeUrl _) as [dstUrl|] eqn:MU; [|no_copy].
    cbn [fst snd]. split; [|split].
    + intros c E1 E2. exfalso. congruence.
    + intros src dst [E|[E|I]]; try discriminate.
      * injection E as <- <-.
        exists combined, bc, queryString. repeat split; auto.
      * destruct (negb _); [destruct I as [E|[]]; discriminate | destruct I].
    + intros c b q d E1 E2 E3 E4.
      assert (c = combined) by congruence. subst c.
      assert (b = bc) by congruence. subst b.
      assert (q = queryString) by congruence. subst q.
      assert (d = dstUrl) by congruence. subst d.
      split; [right; left; reflexivity | reflexivity].
Qed.

Lemma checkpoint_commands_witness :
  OmniCli.restoreCheckpoint (client := Demo.client)
    [str "restorecheckpoint"; str "omniverse://h/a.txt?&3"]
  = (EXIT_SUCCESS,
     [OmniCli.Reconnect (str "omniverse://h/a.txt?&3");
      OmniCli.Copy (str "omniverse://h/a.txt?&3") (str "omniverse://h/a.txt")])
  /\ fst (OmniCli.restoreCheckpoint (client := Demo.client)
            [str "restorecheckpoint"; str "omniverse://h/a.txt"])
     = EXIT_FAILURE.
Proof.
  split; [reflexivity|].
  destruct (checkpoint_commands Demo.client (str "restorecheckpoint")
              (str "omniverse://h/a.txt") []) as (_ & N & _).
  apply (N (str "omniverse://h/a.txt")); reflexivity.
Defined.

(** ** C8 *)



Example tokenize_quotes_and_backslashes :
  Tokenizer.tokenize
    [ "c"; "p"; " "; DQUOTE; "a"; " "; "b"; DQUOTE; " ";
      "\"; "\"; DQUOTE; "x"; " "; "y"; "\"; DQUOTE; DQUOTE; " ";
      "z"; "\"; "w"; "\"; LF ]%char
  = [str "cp"; str "a b"; ["\"; "x"; " "; "y"; DQUOTE]%char;
     ["z"; "\"; "w"; "\"]%char].
Proof. vm_compute. reflexivity. Qed.

(** ** C9 *)

Ltac absurd_in :=
  let I := fresh "I" in
  intros I; repeat (destruct I as [I|I]; [discriminate|]); destruct I.

Ltac nothing_sent := split; [reflexivity | intros ? ?; absurd_in].

(** C9. Whatever [setacls] sends to [omniClientSetAcls] is the list of the
    fetched entries without those of the given name, in the order fetched,
    followed, unless the access string holds a '-', by one entry for the
    name with the bits of the letters of the access string; and it is sent
    for the given URL after a fetch that returned Ok.  When the fetch does
    not return Ok, or when a '-' is given and the name is not in the
    fetched list, the command returns [EXIT_FAILURE] and sends nothing.
    Otherwise, for an access string over r, w, a and '-', it does send the
    list and returns the code of that call. *)
Theorem setacls_keeps_other_entries (client : OmniCli.OmniClient)
        (arg0 url name accessStr : text) (more : OmniCli.ArgVec) :
  (0 <= OmniCli.fOmniClientAccess_Read < 65536)%Z ->
  (0 <= OmniCli.fOmniClientAccess_Write < 65536)%Z ->
  (0 <= OmniCli.fOmniClientAccess_Admin < 65536)%Z ->
  let result := fst (OmniCli.omniClientGetAcls url) in
  let fetched := snd (OmniCli.omniClientGetAcls url) in
  let retCode :=
    fst (OmniCli.setacls (arg0 :: url :: name :: accessStr :: more)) in
  let out :=
    snd (OmniCli.setacls (arg0 :: url :: name :: accessStr :: more)) in
  let sent :=
    Spec.others name fetched
    ++ (if existsb (Ascii.eqb "-") accessStr then []
        else [(name, Spec.access_bits accessStr)]) in
  (forall u entries,
      In (OmniCli.SetAcls u entries) out ->
      u = url /\ entries = sent /\ result = eOmniClientResult_Ok
      /\ Forall Spec.access_letter accessStr
      /\ retCode
         = OmniCli.resultToRetcode (OmniCli.omniClientSetAcls url entries))
  /\ (result <> eOmniClientResult_Ok ->
      retCode = EXIT_FAILURE
      /\ forall u entries, ~ In (OmniCli.SetAcls u entries) out)
  /\ (In "-"%char accessStr -> ~ Spec.listed name fetched ->
      retCode = EXIT_FAILURE
      /\ forall u entries, ~ In (OmniCli.SetAcls u entries) out)
  /\ (Forall Spec.access_letter accessStr ->
      result = eOmniClientResult_Ok ->
      (In "-"%char accessStr -> Spec.listed name fetched) ->
      In (OmniCli.SetAcls url sent) out).
Proof.
  intros HR HW HA. cbv zeta.
  rewrite (setacls_cases HR HW HA arg0 url name accessStr more).
  destruct (access_letter_dec accessStr) as [L|L].
  2:{ cbn [fst snd]. split; [intros ? ?; absurd_in|].
      split; [intros _; nothing_sent|].
      split; [intros _ _; nothing_sent|].
      intros F; contradiction. }
  destruct (OmniCli.omniClientGetAcls url) as [result fetched].
  cbn [fst snd].
  assert (OK : is_Ok result = true <-> result = eOmniClientResult_Ok)
    by (destruct result; cbn; split; congruence).
  destruct (is_Ok result) eqn:R.
  2:{ cbn [fst snd]. split; [intros ? ?; absurd_in|].
      split; [intros _; nothing_sent|].
      split; [intros _ _; nothing_sent|].
      intros _ E. apply OK in E. discriminate. }
  pose proof (minus_in accessStr) as MI.
  destruct (existsb (Ascii.eqb "-") accessStr) eqn:Minus.
  - rewrite app_nil_r.
    pose proof (existsb_not_listed name fetched) as NL.
    pose proof (existsb_listed name fetched) as LI.
    destruct (existsb (fun e => text_eqb (fst e) name) fetched) eqn:Found.
    + destruct (send_acls_spec url (Spec.others name fetched)) as [C S].
      cbn [fst snd]. split; [|split; [|split]].
      * intros u es [E|[E|I]]; try discriminate.
        apply S in I. destruct I as [-> ->].
        repeat split; auto. apply OK; reflexivity.
      * intros N. exfalso. apply N, OK. reflexivity.
      * intros _ N. exfalso. apply N, LI. reflexivity.
      * intros _ _ _. right. right. apply S. auto.
    + cbn [fst snd]. split; [intros ? ?; absurd_in|].
      split; [intros _; nothing_sent|].
      split; [intros _ _; nothing_sent|].
      intros _ _ H. exfalso. apply (proj1 NL eq_refl), H, MI. reflexivity.
  - destruct (send_acls_spec url
                (Spec.others name fetched
                 ++ [(name, Spec.access_bits accessStr)])) as [C S].
    cbn [fst snd]. split; [|split; [|split]].
    + intros u es [E|[E|I]]; try discriminate.
      apply S in I. destruct I as [-> ->].
      repeat split; auto. apply OK; reflexivity.
    + intros N. exfalso. apply N, OK. reflexivity.
    + intros I _. apply MI in I. discriminate.
    + intros _ _ _. right. right. apply S. auto.
Qed.

Lemma setacls_keeps_other_entries_witness :
  snd (OmniCli.setacls (client := Demo.client)
         [str "setacls"; str "omniverse://h/a.txt"; str "bob"; str "rW"])
  = [OmniCli.Reconnect (str "omniverse://h/a.txt");
     OmniCli.GetAcls (str "omniverse://h/a.txt");
     OmniCli.SetAcls (str "omniverse://h/a.txt")
                     [(str "alice", 7%Z); (str "carol", 3%Z);
                      (str "bob", 3%Z)]]
  /\ In (OmniCli.SetAcls (str "omniverse://h/a.txt")
                         [(str "alice", 7%Z); (str "carol", 3%Z);
                          (str "bob", 3%Z)])
        (snd (OmniCli.setacls (client := Demo.client)
                [str "setacls"; str "omniverse://h/a.txt"; str "bob";
                 str "rW"])).
Proof.
  split; [reflexivity|].
  destruct (setacls_keeps_other_entries Demo.client
              (str "setacls") (str "omniverse://h/a.txt") (str "bob")
              (str "rW") []
              ltac:(cbn; lia) ltac:(cbn; lia) ltac:(cbn; lia))
    as (_ & _ & _ & S).
  apply S.
  - repeat constructor; cbn; tauto.
  - reflexivity.
  - intros [E|[E|[]]]; discriminate.
Defined.

Example setacls_removes_an_entry :
  OmniCli.setacls (client := Demo.client)
    [str "setacls"; str "omniverse://h/a.txt"; str "bob"; str "-"]
  = (EXIT_SUCCESS,
     [OmniCli.Reconnect (str "omniverse://h/a.txt");
      OmniCli.GetAcls (str "omniverse://h/a.txt");
      OmniCli.SetAcls (str "omniverse://h/a.txt")
                      [(str "alice", 7%Z); (str "carol", 3%Z)]]).
Proof. reflexivity. Qed.

Example setacls_refuses_to_remove_a_stranger :
  OmniCli.setacls (client := Demo.client)
    [str "setacls"; str "omniverse://h/a.txt"; str "dave"; str "-"]
  = (EXIT_FAILURE,
     [OmniCli.Reconnect (str "omniverse://h/a.txt");
      OmniCli.GetAcls (str "omniverse://h/a.txt");
      OmniCli.PrintNotInAcls (str "dave")]).
Proof. reflexivity. Qed.

(** ** C10 *)

Section DumpWords.
Import OmniCli.

Lemma separator_of_word (k : nat) :
  Nat.eqb ((4 * k) mod 32) 0 = Nat.eqb (k mod 8) 0.
Proof.
  change 32 with (4 * 8). rewrite Nat.Div0.mul_mod_distr_l.
  destruct (k mod 8); reflexivity.
Qed.

Lemma nth_after (n j : nat) (memory : list ascii) :
  nth j (skipn n memory) NUL = nth (n + j) memory NUL.
Proof.
  revert memory. induction n as [|n IH]; intros memory; [reflexivity|].
  destruct memory as [|b memory]; [destruct j; reflexivity|].
  cbn [skipn Nat.add nth]. apply IH.
Qed.

Lemma skipn_four (n : nat) (memory : list ascii) :
  skipn 4 (skipn (4 * n) memory) = skipn (4 * S n) memory.
Proof.
  replace (4 * S n) with (4 * n + 4) by lia.
  revert memory. induction (4 * n) as [|m IH]; intros memory;
    [reflexivity|].
  destruct memory as [|b memory]; [reflexivity|].
  cbn [skipn Nat.add]. apply IH.
Qed.

(** The loop of the dump takes the words one after the other. *)
Lemma dump_loop_words (c : OmniClientContent) (count : nat) :
  forall k,
    map (fun k =>
           let i := 4 * k in
           PrintHexWord (word_at c i)
                        (if Nat.eqb (i mod 32) 0 then LF else SPACE))
        (seq k count)
    = Stated.dump_words count k (skipn (4 * k) (buffer c ++ beyond c)).
Proof.
  induction count as [|count IH]; intros k; [reflexivity|].
  cbn [seq map Stated.dump_words]. cbv zeta.
  rewrite IH, skipn_four, separator_of_word. f_equal. f_equal.
  unfold word_at, byte_at, Stated.le32. rewrite !nth_after.
  rewrite Nat.add_0_r. reflexivity.
Qed.

Lemma hex_dump_stated (c : OmniClientContent) :
  hex_dump c = Stated.dump (buffer c) (beyond c).
Proof.
  unfold hex_dump, Stated.dump. rewrite (dump_loop_words c _ 0).
  reflexivity.
Qed.

End DumpWords.

(** C10, as stated, fails: a read that ends with [OkLatest] returns 0, the
    code of a success, and nothing of the content is printed, although the
    file is small and all text. *)
Lemma cat_prints_nothing_of_a_latest_read :
  ~ (forall (client : OmniCli.OmniClient) (arg0 url : text)
            (more : OmniCli.ArgVec),
        let content := snd (OmniCli.omniClientReadFile url) in
        let out := snd (OmniCli.cat (arg0 :: url :: more)) in
        (OmniCli.size content <= 1000000)%Z ->
        (In (OmniCli.PrintText (OmniCli.buffer content)) out
         <-> Forall Spec.texty (OmniCli.buffer content))).
Proof.
  intros H.
  specialize (H DemoLatest.client (str "cat") (str "omniverse://h/a.txt") []).
  cbv zeta in H.
  assert (L : (OmniCli.size
                 (snd (OmniCli.omniClientReadFile
                         (OmniClient := DemoLatest.client)
                         (str "omniverse://h/a.txt"))) <= 1000000)%Z)
    by (vm_compute; discriminate).
  destruct (H L) as [_ T].
  assert (F : Forall Spec.texty (str "hello"))
    by (repeat (constructor; [right; right; right; cbn; lia|]); constructor).
  specialize (T F). vm_compute in T.
  destruct T as [E|[E|[E|[]]]]; discriminate.
Qed.

(** C10, amended.  With a URL given, [cat] returns the code of the result
    of the read whatever it prints.  A content of more than 1,000,000 bytes
    is never printed, neither as text nor as a dump: after an Ok read the
    size notice is printed instead.  After a read whose result is Ok, of at
    most 1,000,000 bytes, the content is printed as it is exactly when
    every byte is a newline, a tab, a carriage return or in the range 32 to
    126; otherwise the dump is printed: one 32-bit word for every four
    bytes of the content, rounded up, the first byte lowest, each eighth
    word from the first followed by a newline and the others by a space,
    and a newline at the end.  After any other result, the two that count
    as a success included, only the result is printed. *)
Theorem cat_output_and_retcode (client : OmniCli.OmniClient)
        (arg0 url : text) (more : OmniCli.ArgVec) :
  let result := fst (OmniCli.omniClientReadFile url) in
  let content := snd (OmniCli.omniClientReadFile url) in
  let retCode := fst (OmniCli.cat (arg0 :: url :: more)) in
  let out := snd (OmniCli.cat (arg0 :: url :: more)) in
  retCode = OmniCli.resultToRetcode result
  /\ ((1000000 < OmniCli.size content)%Z ->
      (forall bytes, ~ In (OmniCli.PrintText bytes) out)
      /\ (forall word sep, ~ In (OmniCli.PrintHexWord word sep) out)
      /\ (result = eOmniClientResult_Ok ->
          out = [OmniCli.Reconnect url; OmniCli.ReadFile url;
                 OmniCli.PrintTooLarge (OmniCli.size content)]))
  /\ (result = eOmniClientResult_Ok ->
      (OmniCli.size content <= 1000000)%Z ->
      (In (OmniCli.PrintText (OmniCli.buffer content)) out
       <-> Forall Spec.texty (OmniCli.buffer content))
      /\ (Forall Spec.texty (OmniCli.buffer content) ->
          out = [OmniCli.Reconnect url; OmniCli.ReadFile url;
                 OmniCli.PrintText (OmniCli.buffer content)])
      /\ (~ Forall Spec.texty (OmniCli.buffer content) ->
          out = OmniCli.Reconnect url :: OmniCli.ReadFile url
                :: Stated.dump (OmniCli.buffer content)
                               (OmniCli.beyond content)))
  /\ (result <> eOmniClientResult_Ok ->
      out = [OmniCli.Reconnect url; OmniCli.ReadFile url;
             OmniCli.PrintResult result]).
Proof.
  cbv zeta. unfold OmniCli.cat.
  destruct (OmniCli.omniClientReadFile url) as [result content].
  pose proof (cat_callback_cases result content) as H. cbv zeta in H.
  destruct (OmniCli.cat_callback result content) as [retCode out].
  cbn [fst snd] in *.
  destruct H as (RC & NotOk & Large & Text & Dump).
  split; [assumption|]. split; [|split].
  - intros L.
    assert (C : out = [OmniCli.PrintResult result]
                \/ out = [OmniCli.PrintTooLarge (OmniCli.size content)]).
    { destruct result; try (left; apply NotOk; discriminate).
      right. apply Large; [reflexivity | assumption]. }
    split; [|split].
    + intros bytes [E|[E|I]]; try discriminate.
      destruct C as [-> | ->]; destruct I as [E|[]]; discriminate.
    + intros word sep [E|[E|I]]; try discriminate.
      destruct C as [-> | ->]; destruct I as [E|[]]; discriminate.
    + intros ->. rewrite (Large eq_refl L). reflexivity.
  - intros -> S.
    assert (D : Forall Spec.texty (OmniCli.buffer content)
                \/ ~ Forall Spec.texty (OmniCli.buffer content)).
    { destruct (OmniCli.isAscii (OmniCli.buffer content)) eqn:E.
      - left. apply isAscii_spec. assumption.
      - right. intros F. apply isAscii_spec in F. congruence. }
    split; [|split].
    + split.
      * intros I. destruct D as [D|D]; [assumption|].
        rewrite (Dump eq_refl S D) in I.
        destruct I as [E|[E|I]]; try discriminate.
        exfalso. exact (hex_dump_no_text _ _ I).
      * intros F. rewrite (Text eq_refl S F). right; right; left; reflexivity.
    + intros F. rewrite (Text eq_refl S F). reflexivity.
    + intros F. rewrite (Dump eq_refl S F), hex_dump_stated. reflexivity.
  - intros N. rewrite (NotOk N). reflexivity.
Qed.

Lemma cat_output_and_retcode_witness :
  OmniCli.cat (client := Demo.client) [str "cat"; str "omniverse://h/a.txt"]
  = (EXIT_SUCCESS,
     [OmniCli.Reconnect (str "omniverse://h/a.txt");
      OmniCli.ReadFile (str "omniverse://h/a.txt");
      OmniCli.PrintText (str "hello")])
  /\ snd (OmniCli.cat (client := Demo.client)
            [str "cat"; str "omniverse://h/a.bin"])
     = [OmniCli.Reconnect (str "omniverse://h/a.bin");
        OmniCli.ReadFile (str "omniverse://h/a.bin");
        OmniCli.PrintHexWord 67305985 LF;
        OmniCli.PrintHexWord 5 SPACE;
        OmniCli.Print "\n"].
Proof.
  split.
  - destruct (cat_output_and_retcode Demo.client (str "cat")
                (str "omniverse://h/a.txt") []) as (R & _ & T & _).
    destruct (T eq_refl ltac:(cbn; lia)) as (_ & P & _).
    apply injective_projections; [exact R|].
    apply P. change (Forall Spec.texty (str "hello")).
    repeat (constructor; [right; right; right; cbn; lia|]). constructor.
  - destruct (cat_output_and_retcode Demo.client (str "cat")
                (str "omniverse://h/a.bin") []) as (_ & _ & T & _).
    destruct (T eq_refl ltac:(cbn; lia)) as (_ & _ & D).
    apply D. change (~ Forall Spec.texty [chr 1; chr 2; chr 3; chr 4; chr 5]).
    intros F. inversion F as [|? ? B _]. unfold Spec.texty in B.
    destruct B as [B|[B|[B|B]]]; try discriminate. cbn in B. lia.
Defined.

Example cat_dumps_a_binary_file :
  OmniCli.cat (client := Demo.client) [str "cat"; str "omniverse://h/a.bin"]
  = (EXIT_SUCCESS,
     [OmniCli.Reconnect (str "omniverse://h/a.bin");
      OmniCli.ReadFile (str "omniverse://h/a.bin");
      OmniCli.PrintHexWord 67305985 LF;
      OmniCli.PrintHexWord 5 SPACE;
      OmniCli.Print "\n"]).
Proof. reflexivity. Qed.

(** A read that ends with [OkLatest]: the return code is 0 and only the
    result is printed. *)
Example cat_of_a_latest_read :
  OmniCli.cat (client := DemoLatest.client)
              [str "cat"; str "omniverse://h/a.txt"]
  = (EXIT_SUCCESS,
     [OmniCli.Reconnect (str "omniverse://h/a.txt");
      OmniCli.ReadFile (str "omniverse://h/a.txt");
      OmniCli.PrintResult eOmniClientResult_OkLatest]).
Proof. reflexivity. Qed.

(** * The shell of omnicli: names, the table of commands, the session *)

Section ShellFacts.
Import Shell.

Lemma iequal_cons (x y : ascii) (a b : text) :
  iequal (x :: a) (y :: b)
  = (Console.tolower (code x) =? Console.tolower (code y))%Z
    && iequal a b.
Proof.
  unfold iequal; cbn [length std_equal Nat.eqb].
  destruct (Nat.eqb (length a) (length b)),
    (Console.tolower (code x) =? Console.tolower (code y))%Z; reflexivity.
Qed.

Lemma iequal_folded (a : text) :
  forall b, iequal a b = true <-> folded a = folded b.
Proof.
  induction a as [|x a IH]; intros [|y b];
    try (cbn; split; congruence).
  rewrite iequal_cons, andb_true_iff, IH, Z.eqb_eq.
  unfold folded; cbn [map].
  split; [intros [-> ->]; reflexivity | intros E; injection E; auto].
Qed.

Lemma lookup_distinct (table : list Command) :
  distinct_names table = true ->
  forall command arg0,
    In command table -> iequal arg0 (name command) = true ->
    lookup table arg0 = Some command.
Proof.
  induction table as [|c rest IH]; intros D command arg0 I E;
    [destruct I|].
  cbn [distinct_names] in D. apply andb_true_iff in D.
  destruct D as [D1 D2].
  cbn [lookup]. destruct I as [->|I].
  - rewrite E; reflexivity.
  - destruct (iequal arg0 (name c)) eqn:E'.
    + exfalso. rewrite forallb_forall in D1. specialize (D1 _ I).
      apply negb_true_iff in D1.
      assert (iequal (name c) (name command) = true) as C.
      { apply iequal_folded. apply iequal_folded in E, E'. congruence. }
      congruence.
    + apply IH; assumption.
Qed.

Lemma lookup_none (table : list Command) (arg0 : text) :
  (forall c, In c table -> iequal arg0 (name c) = false) ->
  lookup table arg0 = None.
Proof.
  induction table as [|c rest IH]; intros H; [reflexivity|].
  cbn [lookup]. rewrite (H c (or_introl eq_refl)).
  apply IH. intros c' I; apply H; right; assumption.
Qed.

Lemma commands_distinct : distinct_names commands = true.
Proof. vm_compute. reflexivity. Qed.

Lemma fold_max_ge (table : list Command) :
  forall acc,
    acc <= fold_left (fun acc c => Nat.max acc (cmd_width c)) table acc.
Proof.
  induction table as [|c rest IH]; intros acc; cbn [fold_left]; [lia|].
  specialize (IH (Nat.max acc (cmd_width c))). lia.
Qed.

Lemma cmd_width_le (table : list Command) (command : Command) :
  In command table -> cmd_width command <= paddingCmdString table.
Proof.
  unfold paddingCmdString. generalize 0.
  induction table as [|c rest IH]; intros acc I; [destruct I|].
  cbn [fold_left]. destruct I as [->|I].
  - pose proof (fold_max_ge rest (Nat.max acc (cmd_width command))). lia.
  - apply IH; assumption.
Qed.

Lemma fold_max_attained (table : list Command) :
  forall acc,
    fold_left (fun acc c => Nat.max acc (cmd_width c)) table acc = acc
    \/ exists c,
        In c table
        /\ fold_left (fun acc c => Nat.max acc (cmd_width c)) table acc
           = cmd_width c.
Proof.
  induction table as [|c rest IH]; intros acc; cbn [fold_left];
    [left; reflexivity|].
  destruct (IH (Nat.max acc (cmd_width c))) as [E|(c' & I & E)].
  - rewrite E. destruct (Nat.max_spec acc (cmd_width c)) as [[_ M]|[_ M]];
      rewrite M; [right; exists c; split; [left|]; reflexivity | left;
                                                                reflexivity].
  - right. exists c'. split; [right; assumption | assumption].
Qed.

(** The width of the first column is that of the widest command. *)
Lemma paddingCmdString_attained (table : list Command) (command : Command) :
  In command table ->
  exists widest,
    In widest table /\ paddingCmdString table = cmd_width widest.
Proof.
  intros I. pose proof (cmd_width_le table command I) as W.
  unfold paddingCmdString in *.
  destruct (fold_max_attained table 0) as [E|(c & Ic & E)].
  - rewrite E in W. unfold cmd_width in W. lia.
  - exists c. split; assumption.
Qed.

Lemma cmdNameAndArg_width (command : Command) :
  length (cmdNameAndArg command) <= cmd_width command.
Proof.
  unfold cmdNameAndArg, cmd_width. rewrite length_app.
  destruct (args command); cbn [length]; lia.
Qed.

Lemma padded_spec (width : nat) (s : text) :
  length s <= width -> padded width s = s ++ repeat SPACE (width - length s).
Proof.
  intros H. unfold padded. destruct (Nat.ltb_spec (length s) width).
  - reflexivity.
  - replace (width - length s) with 0 by lia. cbn. rewrite app_nil_r.
    reflexivity.
Qed.

Lemma break_line_spec (message : text) :
  match break_line message with
  | (first, None) => first = message /\ ~ In LF message
  | (first, Some second) =>
      message = first ++ LF :: second /\ ~ In LF first
  end.
Proof.
  induction message as [|c rest IH]; cbn [break_line].
  - split; [reflexivity | intros []].
  - destruct (Ascii.eqb_spec c LF) as [->|N].
    + split; [reflexivity | intros []].
    + destruct (break_line rest) as [first [second|]];
        destruct IH as [E I]; (split; [cbn; congruence|]);
        intros [?|?]; [congruence | auto | congruence | auto].
Qed.

End ShellFacts.

(** ** Names, the table, the session and the help *)

(** X1. [iequal] compares two texts with their upper-case letters folded to
    lower case: it holds exactly when the folded texts are the same, so it is
    an equivalence (reflexive, symmetric, transitive) and texts of different
    lengths are never equal. *)
Theorem iequal_is_equality_of_folded_texts :
  (forall a b, Shell.iequal a b = true <-> Shell.folded a = Shell.folded b)
  /\ (forall a, Shell.iequal a a = true)
  /\ (forall a b, Shell.iequal a b = Shell.iequal b a)
  /\ (forall a b c, Shell.iequal a b = true -> Shell.iequal b c = true ->
                    Shell.iequal a c = true)
  /\ (forall a b, Shell.iequal a b = true -> length a = length b).
Proof.
  split; [exact (fun a b => iequal_folded a b)|].
  split; [intros a; apply iequal_folded; reflexivity|].
  split.
  { intros a b.
    destruct (Shell.iequal a b) eqn:E1, (Shell.iequal b a) eqn:E2;
      try reflexivity.
    - apply iequal_folded in E1. symmetry in E1. apply iequal_folded in E1.
      congruence.
    - apply iequal_folded in E2. symmetry in E2. apply iequal_folded in E2.
      congruence. }
  split.
  { intros a b c E1 E2. apply iequal_folded.
    apply iequal_folded in E1, E2. congruence. }
  intros a b E. unfold Shell.iequal in E. apply andb_true_iff in E.
  destruct E as [E _]. apply Nat.eqb_eq; assumption.
Qed.

(** X2. [run] finds every command of the table under its own name written
    in any letter case: no entry is hidden by an earlier one.  It calls that
    command's function with the whole argument vector and returns its code.
    With a first argument that is no name of the table it calls nothing and
    returns [EXIT_FAILURE], as it does for an empty vector. *)
Theorem run_finds_every_command
        (call : Shell.CommandFn -> Shell.ArgVec -> Z)
        (arg0 : text) (rest : list text) :
  (forall command,
      In command Shell.commands ->
      Shell.iequal arg0 (Shell.name command) = true ->
      Shell.run call (arg0 :: rest)
      = ([Shell.Ran (Shell.function command) (arg0 :: rest)],
         call (Shell.function command) (arg0 :: rest)))
  /\ ((forall command, In command Shell.commands ->
                       Shell.iequal arg0 (Shell.name command) = false) ->
      Shell.run call (arg0 :: rest)
      = ([Shell.UnknownCommand arg0], EXIT_FAILURE))
  /\ Shell.run call [] = ([], EXIT_FAILURE).
Proof.
  split; [|split; [|reflexivity]].
  - intros command I E. unfold Shell.run, Shell.run_in.
    rewrite (lookup_distinct _ commands_distinct command arg0 I E).
    reflexivity.
  - intros H. unfold Shell.run, Shell.run_in.
    rewrite (lookup_none _ _ H). reflexivity.
Qed.

Example run_ignores_letter_case :
  forall call,
    Shell.main call [str "omnicli"; str "LS"; str "omniverse://h/"] false []
    = ([Shell.Ran Shell.cmd_list [str "LS"; str "omniverse://h/"]],
       Shell.Returned (call Shell.cmd_list [str "LS"; str "omniverse://h/"])).
Proof. intros call. reflexivity. Qed.

Section InteractiveFacts.
Import Shell.
Variable call : CommandFn -> ArgVec -> Z.

Lemma is_quit_word (token0 : text) :
  is_quit token0 = true <-> Stated.quit_word token0.
Proof.
  unfold is_quit, Stated.quit_word.
  rewrite !orb_true_iff, !iequal_folded. tauto.
Qed.

Lemma fgets_chars_line (line : text) (rest : Console.stdin) :
  forall room,
    ~ In LF line -> length line < room ->
    fgets_chars room (line ++ LF :: rest) = (line ++ [LF], rest).
Proof.
  induction line as [|c line IH]; intros room N L.
  - destruct room as [|room]; [inversion L|]. reflexivity.
  - destruct room as [|room]; [inversion L|].
    cbn [app fgets_chars].
    destruct (Ascii.eqb_spec c LF) as [->|_];
      [exfalso; apply N; left; reflexivity|].
    rewrite IH; [reflexivity | | cbn [length] in L; lia].
    intros I. apply N. right. exact I.
Qed.

Lemma fgets_line (line : text) (rest : Console.stdin) :
  Stated.short_line line ->
  fgets 5000 ((line ++ [LF]) ++ rest) = (Some (line ++ [LF]), rest).
Proof.
  intros [N L]. rewrite <- app_assoc. cbn [app].
  unfold fgets. change (5000 - 1) with 4999.
  rewrite (fgets_chars_line line rest 4999 N L).
  destruct line; reflexivity.
Qed.

Lemma fgets_chars_long (room : nat) :
  forall (l : text) (rest : Console.stdin),
    room <= length l -> ~ In LF (firstn room l) ->
    fgets_chars room (l ++ rest) = (firstn room l, skipn room l ++ rest).
Proof.
  induction room as [|room IH]; intros l rest L N.
  - cbn [firstn skipn]. destruct (l ++ rest); reflexivity.
  - destruct l as [|c l]; [inversion L|].
    cbn [app fgets_chars firstn skipn] in *.
    destruct (Ascii.eqb_spec c LF) as [->|_];
      [exfalso; apply N; left; reflexivity|].
    rewrite IH; [reflexivity | cbn [length] in L; lia |].
    intros I. apply N. right. exact I.
Qed.

Lemma typed_length (ls : list text) :
  length ls <= length (Stated.typed ls).
Proof.
  induction ls as [|l ls IH]; [constructor|].
  unfold Stated.typed in *. cbn [flat_map length].
  rewrite !length_app. cbn [length]. lia.
Qed.

(** The loop runs the lines that do not quit, one after the other. *)
Lemma interactive_loop_lines (ls : list text) :
  forall fuel tail,
    Forall Stated.short_line ls ->
    Forall (fun l => ~ Stated.quit_line l) ls ->
    interactive_loop call (length ls + fuel) (Stated.typed ls ++ tail)
    = (flat_map (fun l => Prompt :: fst (run call (Tokenizer.tokenize l)))
                ls
         ++ fst (interactive_loop call fuel tail),
       snd (interactive_loop call fuel tail)).
Proof.
  induction ls as [|l ls IH]; intros fuel tail S Q.
  - cbn [length Nat.add Stated.typed flat_map app].
    destruct (interactive_loop call fuel tail); reflexivity.
  - inversion S as [|? ? Sl S']; subst. inversion Q as [|? ? Ql Q']; subst.
    unfold Stated.typed. cbn [length Nat.add flat_map interactive_loop].
    rewrite <- app_assoc. fold (Stated.typed ls).
    rewrite (fgets_line l _ Sl).
    change (l ++ [LF]) with (l ++ LF :: []).
    rewrite tokenize_newline.
    specialize (IH fuel tail S' Q'). rewrite IH.
    destruct (Tokenizer.tokenize l) as [|token0 more] eqn:T.
    + reflexivity.
    + destruct (is_quit token0) eqn:I.
      * exfalso. apply Ql. exists token0, more.
        split; [exact T | apply is_quit_word; exact I].
      * destruct (run call (token0 :: more)) as [tr1 code].
        cbn [fst snd app]. rewrite <- app_assoc. reflexivity.
Qed.

End InteractiveFacts.

(** X3. Started without arguments, and once the client library is
    initialised, [main] prompts before every line it reads.  Given lines
    of fewer than 4999 characters, each ended by a newline, it runs, in
    order, the lines before the first line whose first token is quit, exit
    or q (in any letter case), a blank line running nothing.  It ends with
    [EXIT_SUCCESS] after the shutdown code when there is such a line,
    whatever the commands returned; when the input ends first, it leaves
    [main] by [return EXIT_FAILURE] with the update thread still joinable
    and the shutdown code not run.  Of a longer line one read takes the
    first 4999 characters only, and the next read goes on from there. *)
Theorem interactive_session
        (call : Shell.CommandFn -> Shell.ArgVec -> Z) (prog : text)
        (lines : list text) :
  Forall Stated.short_line lines ->
  let ran := flat_map (fun l =>
                         Shell.Prompt
                           :: fst (Shell.run call (Tokenizer.tokenize l))) in
  (forall before q after,
      lines = before ++ q :: after ->
      Forall (fun l => ~ Stated.quit_line l) before ->
      Stated.quit_line q ->
      Shell.main call [prog] true (Stated.typed lines)
      = (ran before ++ [Shell.Prompt; Shell.Shutdown],
         Shell.Returned EXIT_SUCCESS))
  /\ (Forall (fun l => ~ Stated.quit_line l) lines ->
      Shell.main call [prog] true (Stated.typed lines)
      = (ran lines ++ [Shell.Prompt],
         Shell.ReturnsWithJoinableThread EXIT_FAILURE))
  /\ (forall l rest,
         4999 <= length l -> ~ In LF (firstn 4999 l) ->
         Shell.fgets 5000 (l ++ rest)
         = (Some (firstn 4999 l), skipn 4999 l ++ rest)).
Proof.
  intros SL. cbv zeta. cbn [Shell.main negb]. unfold Shell.interactive.
  split; [|split].
  - intros before q after -> NQ Q.
    apply Forall_app in SL. destruct SL as [Sb Sq].
    inversion Sq as [|? ? Sq1 _]; subst.
    pose proof (typed_length before) as L.
    replace (Stated.typed (before ++ q :: after))
      with (Stated.typed before ++ Stated.typed (q :: after))
      by (unfold Stated.typed; rewrite flat_map_app; reflexivity).
    set (tail := Stated.typed (q :: after)).
    rewrite length_app.
    replace (S (length (Stated.typed before) + length tail))
      with (length before
            + S (length (Stated.typed before) - length before + length tail))
      by lia.
    rewrite (interactive_loop_lines call before _ _ Sb NQ).
    subst tail.
    change (Stated.typed (q :: after))
      with ((q ++ [LF]) ++ Stated.typed after).
    cbn [Shell.interactive_loop]. rewrite (fgets_line q _ Sq1).
    change (q ++ [LF]) with (q ++ LF :: []). rewrite tokenize_newline.
    destruct Q as (token0 & more & T & W). rewrite T.
    apply is_quit_word in W. rewrite W. reflexivity.
  - intros NQ.
    pose proof (typed_length lines) as L.
    replace (S (length (Stated.typed lines)))
      with (length lines + S (length (Stated.typed lines) - length lines))
      by lia.
    rewrite <- (app_nil_r (Stated.typed lines)) at 2.
    rewrite (interactive_loop_lines call lines _ _ SL NQ). reflexivity.
  - intros l rest L N. unfold Shell.fgets. change (5000 - 1) with 4999.
    rewrite (fgets_chars_long 4999 l rest L N).
    destruct l as [|c l]; [cbn [length] in L; lia | reflexivity].
Qed.

Lemma interactive_session_witness :
  Forall Stated.short_line [str "cver"; str ""; str "Q"; str "cat x"]
  /\ Stated.quit_line (str "Q")
  /\ Shell.main (fun _ _ => 0%Z) [str "omnicli"] true (str "cver

Q
cat x
")
     = ([Shell.Prompt; Shell.Ran Shell.cmd_clientVersion [str "cver"];
         Shell.Prompt; Shell.Prompt; Shell.Shutdown],
        Shell.Returned EXIT_SUCCESS).
Proof.
  assert (S : Forall Stated.short_line
                     [str "cver"; str ""; str "Q"; str "cat x"]).
  { repeat (constructor;
            [split; [intros I; cbn in I; intuition discriminate
                    | cbn; lia]|]).
    constructor. }
  assert (Q : Stated.quit_line (str "Q")).
  { exists (str "Q"), []. split; [reflexivity|]. right. right. reflexivity. }
  split; [exact S|]. split; [exact Q|].
  destruct (interactive_session (fun _ _ => 0%Z) (str "omnicli") _ S)
    as [R _].
  apply (R [str "cver"; str ""] (str "Q") [str "cat x"] eq_refl);
    [|exact Q].
  constructor.
  { intros (token0 & more & T & W). vm_compute in T. injection T as <- <-.
    destruct W as [W|[W|W]]; vm_compute in W; discriminate. }
  constructor; [|constructor].
  intros (token0 & more & T & W). vm_compute in T. discriminate.
Defined.

Example interactive_quit_and_end_of_input :
  forall call,
    Shell.main call [str "omnicli"] true (str "cver

Q
cat x
")
    = ([Shell.Prompt; Shell.Ran Shell.cmd_clientVersion [str "cver"];
        Shell.Prompt; Shell.Prompt; Shell.Shutdown],
       Shell.Returned EXIT_SUCCESS)
    /\ Shell.main call [str "omnicli"] true (str "cver
")
       = ([Shell.Prompt; Shell.Ran Shell.cmd_clientVersion [str "cver"];
           Shell.Prompt],
          Shell.ReturnsWithJoinableThread EXIT_FAILURE).
Proof. intros call. split; vm_compute; reflexivity. Qed.

(** X4. In the output of [help], for any table of commands, every command
    with a help message gets a line of two spaces, its name and arguments
    padded with spaces to the width of the widest command of the table
    (its name, its arguments and one more), the divider and the message up
    to its first newline; so all dividers stand in the same column.  What
    follows the first newline is printed as one more line, indented by that
    width plus four.  A command without a help message gets no line. *)
Theorem help_columns_aligned (table : list Shell.Command)
        (command : Shell.Command) (message : text) :
  In command table ->
  Shell.helpMessage command = Some message ->
  exists pad,
    length (Shell.cmdNameAndArg command) + pad = Shell.paddingCmdString table
    /\ (let column :=
          str "  " ++ Shell.cmdNameAndArg command ++ repeat SPACE pad
              ++ str " : " in
        (~ In LF message
         /\ Shell.help_lines table command = [column ++ message])
        \/ (exists first second,
               message = first ++ LF :: second /\ ~ In LF first
               /\ Shell.help_lines table command
                  = [column ++ first;
                     repeat SPACE (Shell.paddingCmdString table + 4)
                            ++ second]))
    /\ (forall other,
           In other table ->
           length (Shell.name other)
           + match Shell.args other with
             | Some a => length a
             | None => 0
             end + 1 <= Shell.paddingCmdString table)
    /\ (exists widest,
           In widest table
           /\ Shell.paddingCmdString table
              = length (Shell.name widest)
                + match Shell.args widest with
                  | Some a => length a
                  | None => 0
                  end + 1)
    /\ (forall other,
           Shell.helpMessage other = None ->
           Shell.help_lines table other = [])
    /\ fst (Shell.help_in table) = flat_map (Shell.help_lines table) table.
Proof.
  intros I M.
  pose proof (cmd_width_le table command I) as W.
  pose proof (cmdNameAndArg_width command) as L.
  exists (Shell.paddingCmdString table
          - length (Shell.cmdNameAndArg command)).
  split; [lia|].
  split; [|split; [|split; [|split]]].
  - cbv zeta.
    unfold Shell.help_lines. rewrite M, padded_spec by lia.
    pose proof (break_line_spec message) as B.
    unfold Shell.paddingHelpString, Shell.div.
    destruct (Shell.break_line message) as [first [second|]].
    + right. exists first, second. destruct B as [E N].
      split; [assumption|]. split; [assumption|].
      rewrite <- !app_assoc.
      replace (Shell.paddingCmdString table + length (str " : ") + 1)
        with (Shell.paddingCmdString table + 4) by (cbn; lia).
      reflexivity.
    + left. destruct B as [E N]. split; [assumption|].
      rewrite <- !app_assoc. reflexivity.
  - intros other Io. exact (cmd_width_le table other Io).
  - exact (paddingCmdString_attained table command I).
  - intros other N. unfold Shell.help_lines. rewrite N. reflexivity.
  - reflexivity.
Qed.

Lemma help_columns_aligned_witness :
  Shell.help_lines Shell.commands
    (Shell.entry "push" (Shell.arg "<url>")
       (Shell.two "Makes paths relative to the specified folder"
                  " You can restore the original folder with pop")
       Shell.cmd_push)
  = [str "  push <url>                           : Makes paths relative to the specified folder";
     str "                                         You can restore the original folder with pop"]
  /\ exists pad,
      length (str "push <url>") + pad = Shell.paddingCmdString Shell.commands.
Proof.
  split; [vm_compute; reflexivity|].
  destruct (help_columns_aligned Shell.commands
              (Shell.entry "push" (Shell.arg "<url>")
                 (Shell.two "Makes paths relative to the specified folder"
                    " You can restore the original folder with pop")
                 Shell.cmd_push)
              (str "Makes paths relative to the specified folder"
                   ++ LF :: str " You can restore the original folder with pop"))
    as (pad & E & _).
  - cbn. do 12 right. left. reflexivity.
  - reflexivity.
  - exists pad. exact E.
Defined.

(** * omnicli: channels and listings *)

Section ChannelFacts.
Import Shell.

Lemma replay_app (a b : list channel_event) :
  forall open,
    replay (a ++ b) open
    = match replay a open with
      | Some open' => replay b open'
      | None => None
      end.
Proof.
  induction a as [|e a IH]; intros open; [reflexivity|].
  destruct e; cbn [app replay];
    repeat match goal with
           | |- context [if ?c then _ else _] => destruct c
           end; auto.
Qed.

Lemma replay_step (c : channel_command) (s : channel_state) :
  replay (fst (fst (channel_step c s))) (g_channel s)
  = Some (g_channel (snd (channel_step c s))).
Proof.
  destruct c as [argv requestId results| |argv result|results];
    cbn [channel_step].
  - unfold joinChannel. destruct argv as [|a0 [|url more]];
      try reflexivity.
    cbn [fst snd g_channel].
    destruct (Z.eqb_spec (g_channel s) 0) as [E|N]; cbn [negb app replay].
    + rewrite E. reflexivity.
    + rewrite Z.eqb_refl. destruct (Z.eqb_spec (g_channel s) 0);
        [contradiction|]. reflexivity.
  - unfold leaveChannel.
    destruct (Z.eqb_spec (g_channel s) 0) as [E|N];
      cbn [negb fst snd replay g_channel]; [reflexivity|].
    rewrite Z.eqb_refl. destruct (Z.eqb_spec (g_channel s) 0);
      [contradiction|]. reflexivity.
  - unfold sendMessage.
    destruct (Z.eqb_spec (g_channel s) 0) as [E|N];
      cbn [negb fst snd replay g_channel]; [reflexivity|].
    rewrite Z.eqb_refl. destruct (Z.eqb_spec (g_channel s) 0);
      [contradiction|]. reflexivity.
  - reflexivity.
Qed.

Variable char_is_signed : bool.




End ChannelFacts.

(** X5. Whatever sequence of join, leave and send commands is run, with
    results arriving in between, the client has at most one channel joined:
    the channel joined before is stopped before a new one is joined, and
    only the channel joined last and not yet left is stopped or sent to.  A
    send with no channel joined sends nothing. *)
Theorem one_channel_at_a_time (cs : list Shell.channel_command) :
  forall s : Shell.channel_state,
    Shell.replay (fst (Shell.channel_run cs s)) (Shell.g_channel s)
    = Some (Shell.g_channel (snd (Shell.channel_run cs s))).
Proof.
  induction cs as [|c rest IH]; intros s; [reflexivity|].
  cbn [Shell.channel_run].
  pose proof (replay_step c s) as S1.
  destruct (Shell.channel_step c s) as [[ev code] s1]. cbn [fst snd] in S1.
  specialize (IH s1).
  destruct (Shell.channel_run rest s1) as [ev' s2]. cbn [fst snd] in *.
  rewrite replay_app, S1. exact IH.
Qed.

Example join_twice_then_leave :
  fst (Shell.channel_run
         [Shell.DoSend [str "send"; str "early"] None;
          Shell.DoJoin [str "join"; str "omniverse://h/a"] 7
                       [eOmniClientResult_Ok];
          Shell.DoJoin [str "join"; str "omniverse://h/b"] 8
                       [eOmniClientResult_Ok];
          Shell.DoSend [str "send"; str "hi"] (Some eOmniClientResult_Ok);
          Shell.DoLeave; Shell.DoLeave]
         Shell.no_channel)
  = [Shell.Say "Not in a channel\n";
     Shell.Reconnect (str "omniverse://h/a");
     Shell.JoinChannel (str "omniverse://h/a") 7;
     Shell.Stop 7;
     Shell.Reconnect (str "omniverse://h/b");
     Shell.JoinChannel (str "omniverse://h/b") 8;
     Shell.SendMessage 8 (str "hi" ++ [NUL]);
     Shell.Stop 8].
Proof. reflexivity. Qed.




Section ListingFacts.
Import OmniCli Spec Listing.
Context {client : OmniClient}.

Lemma land_access_bits (flag : Z) (lower upper : ascii) :
  (forall p, (Z.land (access_bit p) flag =? 0)%Z
             = negb (Ascii.eqb p lower || Ascii.eqb p upper)) ->
  forall accessStr,
    (Z.land (access_bits accessStr) flag =? 0)%Z
    = negb (has_letter lower upper accessStr).
Proof.
  intros L. induction accessStr as [|p rest IH]; [reflexivity|].
  cbn [access_bits fold_right has_letter existsb].
  fold (access_bits rest). fold (has_letter lower upper rest).
  rewrite Z.land_lor_distr_l, negb_orb, <- IH, <- L.
  destruct (Z.eqb_spec (Z.land (access_bit p) flag) 0) as [E1|E1],
    (Z.eqb_spec (Z.land (access_bits rest) flag) 0) as [E2|E2];
    cbn [andb]; apply Z.eqb_eq || apply Z.eqb_neq;
    rewrite Z.lor_eq_0_iff; tauto.
Qed.

Hypothesis bits : flags_are_bits.

Ltac letter p :=
  unfold access_bit;
  repeat match goal with
         | |- context [Ascii.eqb p ?k] =>
             destruct (Ascii.eqb_spec p k) as [->|?]
         end;
  cbn [orb negb andb].

Lemma read_bit (p : ascii) :
  (Z.land (access_bit p) fOmniClientAccess_Read =? 0)%Z
  = negb (Ascii.eqb p "r" || Ascii.eqb p "R").
Proof.
  destruct bits as (R & W & A & RW & RA & WA).
  rewrite Z.land_comm in RW, RA.
  letter p; try discriminate;
    rewrite ?RW, ?RA, ?Z.land_diag, ?Z.land_0_l;
    try reflexivity; apply Z.eqb_neq; lia.
Qed.

Lemma write_bit (p : ascii) :
  (Z.land (access_bit p) fOmniClientAccess_Write =? 0)%Z
  = negb (Ascii.eqb p "w" || Ascii.eqb p "W").
Proof.
  destruct bits as (R & W & A & RW & RA & WA).
  rewrite Z.land_comm in WA.
  letter p; try discriminate;
    rewrite ?RW, ?WA, ?Z.land_diag, ?Z.land_0_l;
    try reflexivity; apply Z.eqb_neq; lia.
Qed.

Lemma admin_bit (p : ascii) :
  (Z.land (access_bit p) fOmniClientAccess_Admin =? 0)%Z
  = negb (Ascii.eqb p "a" || Ascii.eqb p "A").
Proof.
  destruct bits as (R & W & A & RW & RA & WA).
  letter p; try discriminate;
    rewrite ?RA, ?WA, ?Z.land_diag, ?Z.land_0_l;
    try reflexivity; apply Z.eqb_neq; lia.
Qed.

Lemma getAccessString_bits (accessStr : text) :
  getAccessString (access_bits accessStr) = rights_shown accessStr.
Proof.
  unfold getAccessString, rights_shown, rights.
  rewrite (land_access_bits _ _ _ read_bit),
    (land_access_bits _ _ _ write_bit),
    (land_access_bits _ _ _ admin_bit), !negb_involutive.
  destruct (has_letter "r" "R" accessStr),
    (has_letter "w" "W" accessStr), (has_letter "a" "A" accessStr);
    reflexivity.
Qed.

End ListingFacts.

(** X8. The size column of a listing shows the size divided by the largest
    unit (KB, MB, GB, in powers of 1000) that the size exceeds, rounded
    down, with the suffix of that unit, and in bytes when it exceeds none:
    the number shown times its unit is at most the size and less than one
    unit below it.  A size equal to a unit is still shown in the unit
    below, so the number is at most 1000 unless the unit is GB, and at least
    1 unless the size is shown in bytes. *)
Theorem size_column_rounds_down (size : Z) :
  (0 <= size < 2 ^ 64)%Z ->
  let n := fst (Listing.size_column size) in
  let u := Listing.unit_of (snd (Listing.size_column size)) in
  (n * u <= size < (n + 1) * u)%Z
  /\ (u = 1 \/ u = 1000 \/ u = 1000000 \/ u = 1000000000)%Z
  /\ (u < size \/ u = 1)%Z
  /\ (u < 1000000000 -> n <= 1000)%Z
  /\ (1 < u -> 1 <= n)%Z
  /\ (exists unit suffix,
         In (unit, suffix) Stated.units
         /\ Listing.size_column size = ((size / unit)%Z, suffix)
         /\ (unit < size \/ unit = 1)%Z
         /\ forall unit' suffix',
             In (unit', suffix') Stated.units ->
             (unit' < size)%Z -> (unit' <= unit)%Z).
Proof.
  intros H. unfold Listing.size_column.
  change (1000 * 1000 * 1000)%Z with 1000000000%Z.
  change (1000 * 1000)%Z with 1000000%Z.
  destruct (Z.ltb_spec 1000000000 size);
    [|destruct (Z.ltb_spec 1000000 size);
      [|destruct (Z.ltb_spec 1000 size)]];
    cbn [fst snd];
    match goal with
    | |- context [Listing.unit_of ?s] =>
        let v := eval vm_compute in (Listing.unit_of s) in
        change (Listing.unit_of s) with v
    end;
    cbv zeta;
    (split; [|split; [|split; [|split; [|split]]]]);
    try match goal with |- (_ < _)%Z -> _ => intros ? end; try lia;
    try (split; [rewrite Z.mul_comm; apply Z.mul_div_le; lia
                | rewrite Z.mul_comm; apply Z.mul_succ_div_gt; lia]);
    try (apply Z.div_le_lower_bound; lia);
    try (apply Z.div_le_upper_bound; lia).
  - exists 1000000000%Z, "GB "%string.
    split; [right; right; right; left; reflexivity|].
    split; [reflexivity|]. split; [lia|].
    intros unit' suffix' [E|[E|[E|[E|[]]]]] L; injection E as <- _; lia.
  - exists 1000000%Z, "MB "%string.
    split; [right; right; left; reflexivity|].
    split; [reflexivity|]. split; [lia|].
    intros unit' suffix' [E|[E|[E|[E|[]]]]] L; injection E as <- _; lia.
  - exists 1000%Z, "KB "%string.
    split; [right; left; reflexivity|].
    split; [reflexivity|]. split; [lia|].
    intros unit' suffix' [E|[E|[E|[E|[]]]]] L; injection E as <- _; lia.
  - exists 1%Z, "B "%string.
    split; [left; reflexivity|].
    split; [rewrite Z.div_1_r; reflexivity|]. split; [lia|].
    intros unit' suffix' [E|[E|[E|[E|[]]]]] L; injection E as <- _; lia.
Qed.

Lemma size_column_rounds_down_witness :
  (0 <= 1000000 < 2 ^ 64)%Z
  /\ Listing.size_column 1000000 = (1000%Z, "KB "%string)
  /\ (fst (Listing.size_column 1000000) <= 1000)%Z
  /\ (0 <= 1000500 < 2 ^ 64)%Z
  /\ Listing.size_column 1000500 = (1%Z, "MB "%string).
Proof.
  split; [lia|]. split; [reflexivity|].
  split.
  { destruct (size_column_rounds_down 1000000 ltac:(lia))
      as (_ & _ & _ & B & _).
    apply B. vm_compute. reflexivity. }
  split; [lia|].
  destruct (size_column_rounds_down 1000500 ltac:(lia))
    as (_ & _ & _ & _ & _ & unit & suffix & I & E & _ & M).
  rewrite E.
  assert (L : (1000000 <= unit)%Z)
    by (apply (M 1000000%Z "MB "%string);
        [right; right; left; reflexivity | lia]).
  destruct I as [I|[I|[I|[I|[]]]]]; injection I as <- <-;
    try lia; try reflexivity.
  exfalso. rewrite Z.div_small in E by lia. vm_compute in E. discriminate.
Defined.

(** X9. The access value that [setacls] builds from an access string is
    printed by [getAccessString] as the names of the rights whose letters
    occur in the string, each once, in the order Read, Write, Admin and
    separated by a comma and a space, or as None when the string has no
    such letter; this holds when the three access flags are different bits
    of a [uint16_t]. *)
Theorem granted_rights_are_listed (client : OmniCli.OmniClient)
        (accessStr : text) (access : Z) (removeEntry : bool) :
  Listing.flags_are_bits ->
  OmniCli.parse_access accessStr 0 false = Some (access, removeEntry) ->
  Listing.getAccessString access = Listing.rights_shown accessStr.
Proof.
  intros bits P.
  pose proof bits as (R & W & A & _).
  destruct (parse_access_spec (client := client)
              ltac:(lia) ltac:(lia) ltac:(lia) accessStr 0 false
              ltac:(lia)) as [P1 P2].
  destruct (access_letter_dec accessStr) as [L|L].
  - rewrite (P1 L), Z.lor_0_l in P. injection P as <- _.
    apply getAccessString_bits; assumption.
  - rewrite (P2 L) in P. discriminate.
Qed.

Lemma granted_rights_are_listed_witness :
  Listing.flags_are_bits (client := Demo.client)
  /\ Listing.getAccessString (client := Demo.client) 5
     = str "Read, Admin".
Proof.
  assert (B : Listing.flags_are_bits (client := Demo.client))
    by (unfold Listing.flags_are_bits; cbn; repeat split; lia).
  split; [exact B|].
  exact (granted_rights_are_listed Demo.client (str "aRr") 5 false B
           eq_refl).
Defined.

(** * omnicli: quoting for the tokenizer *)

Section QuotingFacts.
Import Tokenizer Quoting.

Lemma repeat_backslashes (p : nat) :
  repeat BACKSLASH p = backslashes (N.of_nat p).
Proof. unfold backslashes. rewrite Nat2N.id. reflexivity. Qed.

Lemma repeat_shift (A : Type) (x : A) (p : nat) (t : list A) :
  repeat x (S p) ++ t = repeat x p ++ x :: t.
Proof.
  induction p as [|p IH]; [reflexivity|].
  change (repeat x (S (S p)) ++ t) with (x :: (repeat x (S p) ++ t)).
  rewrite IH. reflexivity.
Qed.

Lemma state_eq (ts ts' : list text) (tk tk' : text) (w q : bool)
      (n : N) (rest : list ascii) :
  ts = ts' -> tk = tk' ->
  loop {| tokens := ts; token := tk; inWhiteSpace := w; inQuote := q;
          backslashCount := n |} rest
  = loop {| tokens := ts'; token := tk'; inWhiteSpace := w; inQuote := q;
            backslashCount := n |} rest.
Proof. intros -> ->. reflexivity. Qed.

(** The text between the quotes: the loop reads the argument back into
    the token and leaves the quote. *)
Lemma loop_escape (t : text) :
  forall (p : nat) (s : state) (rest : list ascii),
    Forall carried t ->
    (2 * (N.of_nat p + N.of_nat (length t)) + 1 < 4294967296)%N ->
    backslashCount s = 0%N -> inQuote s = true ->
    inWhiteSpace s = false ->
    loop s (escape p t ++ DQUOTE :: rest)
    = loop {| tokens := tokens s;
              token := token s ++ repeat BACKSLASH p ++ t;
              inWhiteSpace := false; inQuote := false;
              backslashCount := 0 |} rest.
Proof.
  induction t as [|c t IH]; intros p s rest F B H0 HQ HW.
  - cbn [escape length] in *.
    replace (repeat BACKSLASH (2 * p))
      with (backslashes (2 * N.of_nat p))
      by (unfold backslashes; f_equal; lia).
    rewrite loop_even_quote by (assumption || lia).
    rewrite HQ, app_nil_r, repeat_backslashes. reflexivity.
  - inversion F as [|? ? [Cn Cl] F']; subst.
    cbn [escape length] in *.
    destruct (Ascii.eqb_spec c BACKSLASH) as [->|Nb].
    + rewrite (IH (S p) s rest F') by (assumption || lia).
      apply state_eq; [reflexivity|]. rewrite repeat_shift. reflexivity.
    + destruct (Ascii.eqb_spec c DQUOTE) as [->|Nq].
      * rewrite <- app_assoc. cbn [app].
        replace (repeat BACKSLASH (2 * p + 1))
          with (backslashes (2 * N.of_nat p + 1))
          by (unfold backslashes; f_equal; lia).
        rewrite loop_odd_quote by (assumption || lia).
        rewrite IH; cbn [tokens token inQuote inWhiteSpace backslashCount];
          try assumption; try reflexivity; try lia.
        apply state_eq; [reflexivity|].
        rewrite <- repeat_backslashes. cbn [repeat app].
        rewrite <- !app_assoc. reflexivity.
      * rewrite <- app_assoc. cbn [app].
        assert (O : ordinary c) by (repeat split; assumption).
        destruct p as [|p].
        -- cbn [repeat app]. rewrite loop_ordinary by assumption.
           unfold step. rewrite HW, H0, HQ. cbn [andb negb N.ltb N.compare].
           destruct (Ascii.eqb_spec c BACKSLASH); [contradiction|].
           destruct (Ascii.eqb_spec c DQUOTE); [contradiction|].
           rewrite IH;
             cbn [tokens token inQuote inWhiteSpace backslashCount];
             try assumption; try reflexivity; try lia.
           apply state_eq; [reflexivity|].
           cbn [repeat app]. rewrite <- app_assoc. reflexivity.
        -- rewrite repeat_backslashes.
           rewrite loop_literal_backslashes by (assumption || lia).
           rewrite HQ. cbn [negb andb].
           rewrite IH;
             cbn [tokens token inQuote inWhiteSpace backslashCount];
             try assumption; try reflexivity; try lia.
           apply state_eq; [reflexivity|].
           rewrite <- repeat_backslashes. cbn [repeat app].
           rewrite <- !app_assoc. reflexivity.
Qed.

Lemma loop_quote_arg (t : text) (s : state) (rest : list ascii) :
  quotable t -> backslashCount s = 0%N -> inQuote s = false ->
  loop s (quote_arg t ++ rest)
  = loop {| tokens := tokens s; token := token s ++ t;
            inWhiteSpace := false; inQuote := false;
            backslashCount := 0 |} rest.
Proof.
  intros [F B] H0 HQ. unfold quote_arg.
  cbn [app]. rewrite <- app_assoc. cbn [app].
  rewrite loop_ordinary by discriminate.
  rewrite step_quote, H0, HQ. cbn [N.modulo N.div_eucl N.eqb negb].
  rewrite loop_escape;
    cbn [tokens token inQuote inWhiteSpace backslashCount];
    try assumption; try reflexivity; try lia.
  apply state_eq; [reflexivity|].
  cbn. rewrite <- app_assoc. reflexivity.
Qed.

Lemma command_line_cons (a b : text) (rest : list text) :
  command_line (a :: b :: rest)
  = quote_arg a ++ SPACE :: command_line (b :: rest).
Proof. reflexivity. Qed.

Lemma finish_command_line (args : list text) :
  forall (final : text) (s : state),
    Forall quotable (args ++ [final]) ->
    backslashCount s = 0%N -> inQuote s = false -> token s = [] ->
    finish (loop s (command_line (args ++ [final])))
    = tokens s ++ args
      ++ match final with [] => [] | _ :: _ => [final] end.
Proof.
  induction args as [|a args IH]; intros final s F H0 HQ HT.
  - cbn [app command_line]. inversion F as [|? ? Q _]; subst.
    rewrite <- (app_nil_r (quote_arg final)).
    rewrite loop_quote_arg by assumption.
    cbn [loop]. unfold finish.
    cbn [tokens token backslashCount N.ltb N.compare]. rewrite HT.
    destruct final; cbn [app]; [rewrite app_nil_r|]; reflexivity.
  - inversion F as [|? ? Q F']; subst.
    destruct (args ++ [final]) as [|b more] eqn:E;
      [destruct args; discriminate|].
    change ((a :: args) ++ [final]) with (a :: (args ++ [final])).
    rewrite E, command_line_cons, <- E.
    rewrite loop_quote_arg by assumption.
    rewrite loop_blank by reflexivity.
    cbn [inQuote tokens token].
    rewrite IH; cbn [tokens token inQuote backslashCount];
      try assumption; try reflexivity; try (rewrite E; assumption).
    rewrite HT. cbn [app]. rewrite <- app_assoc. reflexivity.
Qed.

Lemma carried_backslashes (n : N) : Forall carried (backslashes n).
Proof.
  apply Forall_forall. intros x I. apply repeat_spec in I. subst.
  split; discriminate.
Qed.

Lemma step_clean (s : state) (c : ascii) :
  carried c -> clean s -> clean (step s c).
Proof.
  intros C [T K]. pose proof (carried_backslashes (backslashCount s)) as B.
  pose proof (carried_backslashes (backslashCount s / 2)) as B2.
  assert (Q : carried DQUOTE) by (split; discriminate).
  unfold step, clean.
  repeat match goal with
         | |- context [if ?b then _ else _] => destruct b
         end;
    cbn [tokens token]; split;
    repeat match goal with
           | |- Forall _ [] => constructor
           | |- Forall _ (_ ++ _) => apply Forall_app; split
           | |- Forall _ (_ :: _) => constructor
           | |- _ => assumption
           end.
Qed.

Lemma loop_clean (line : list ascii) :
  forall s, clean s -> clean (loop s line).
Proof.
  induction line as [|c rest IH]; intros s C; [assumption|].
  cbn [loop]. destruct (Ascii.eqb_spec c NUL); [assumption|].
  destruct (Ascii.eqb_spec c LF); [assumption|].
  apply IH, step_clean; [split|]; assumption.
Qed.

Lemma c_string_carried (t : text) :
  Forall carried t -> Shell.c_string t = t.
Proof.
  induction 1 as [|c t [N _] _ IH]; [reflexivity|].
  cbn [Shell.c_string]. destruct (Ascii.eqb_spec c NUL); [contradiction|].
  rewrite IH. reflexivity.
Qed.

End QuotingFacts.

(** X10. Arguments can be written so that [tokenize] reads them back:
    each inside double quotes, with a backslash before every double quote of
    the argument and the backslashes that precede a double quote (or the
    closing quote) doubled, and one space between the arguments.  The tokens
    of such a line are the arguments themselves, an empty one included,
    except that an empty last argument is dropped.  The arguments hold no
    NUL and no newline and are shorter than 2^31 characters. *)
Theorem tokenize_reads_back_quoted_arguments (args : list text)
        (final : text) :
  Forall Quoting.quotable (args ++ [final]) ->
  Tokenizer.tokenize (Quoting.command_line (args ++ [final]))
  = args ++ match final with [] => [] | _ :: _ => [final] end.
Proof.
  intros F. unfold Tokenizer.tokenize.
  rewrite (finish_command_line args final Tokenizer.init F eq_refl eq_refl
             eq_refl).
  reflexivity.
Qed.

Lemma tokenize_reads_back_quoted_arguments_witness :
  Forall Quoting.quotable
    ([str "send"; []] ++ [["a"; " "; DQUOTE; "b"; "\"; DQUOTE; "\"]%char])
  /\ Quoting.command_line
       [str "send"; []; ["a"; " "; DQUOTE; "b"; "\"; DQUOTE; "\"]%char]
     = [DQUOTE; "s"; "e"; "n"; "d"; DQUOTE; " "; DQUOTE; DQUOTE; " ";
        DQUOTE; "a"; " "; "\"; DQUOTE; "b"; "\"; "\"; "\"; DQUOTE;
        "\"; "\"; DQUOTE]%char
  /\ Tokenizer.tokenize
       (Quoting.command_line
          ([str "send"; []]
             ++ [["a"; " "; DQUOTE; "b"; "\"; DQUOTE; "\"]%char]))
     = [str "send"; []; ["a"; " "; DQUOTE; "b"; "\"; DQUOTE; "\"]%char].
Proof.
  assert (F : Forall Quoting.quotable
                ([str "send"; []]
                   ++ [["a"; " "; DQUOTE; "b"; "\"; DQUOTE; "\"]%char])).
  { repeat constructor; try discriminate; cbn; lia. }
  split; [exact F|]. split; [reflexivity|].
  exact (tokenize_reads_back_quoted_arguments _ _ F).
Defined.

(** X11. No token that [tokenize] returns holds a NUL or a newline; so
    the C string that a command such as [sendMessage] takes from a token is
    the whole token. *)
Theorem tokens_hold_no_line_end (line : list ascii) :
  Forall (Forall Quoting.carried) (Tokenizer.tokenize line)
  /\ (forall t, In t (Tokenizer.tokenize line) -> Shell.c_string t = t).
Proof.
  assert (C : Quoting.clean (Tokenizer.loop Tokenizer.init line)).
  { apply loop_clean. split; constructor. }
  assert (F : Forall (Forall Quoting.carried) (Tokenizer.tokenize line)).
  { destruct C as [T K]. unfold Tokenizer.tokenize, Tokenizer.finish.
    pose proof (carried_backslashes
                  (Tokenizer.backslashCount
                     (Tokenizer.loop Tokenizer.init line))) as B.
    destruct (0 <? _)%N.
    - destruct (_ ++ _) eqn:E; [assumption|].
      apply Forall_app; split; [assumption|]. constructor; [|constructor].
      rewrite <- E. apply Forall_app; split; assumption.
    - destruct (Tokenizer.token _) eqn:E; [assumption|].
      apply Forall_app; split; [assumption|]. constructor; [|constructor].
      assumption. }
  split; [exact F|].
  intros t I. apply c_string_carried.
  rewrite Forall_forall in F. apply F; assumption.
Qed.

(** * liveSession: the arguments of main *)

Section SessionMainFacts.
Import SessionMain.
Context {uris : Uris}.

Lemma process_goes_on (n : nat) :
  forall args, length args <= n ->
  forall d u ev d' u',
    process args d u = (ev, GoOn d' u') ->
    (d' = d /\ u' = u)
    \/ (d' = true /\ follows_existing args u'
        /\ isOmniUri u' = true /\ doesUriExist u' = true).
Proof.
  induction n as [|n IH]; intros [|a rest] L d u ev d' u' P;
    cbn [length] in L; try lia;
    try (cbn in P; injection P as _ <- <-; left; split; reflexivity).
  cbn [process] in P.
  destruct (is_flag a "-h" "--help"); [discriminate|].
  destruct (is_flag a "-v" "--verbose").
  { destruct (IH rest ltac:(lia) _ _ _ _ _ P) as [E|(E & F & O)];
      [left; exact E|].
    right. split; [exact E|]. split; [right; exact F | exact O]. }
  destruct (is_flag a "-e" "--existing") eqn:Fe.
  { destruct rest as [|uri rest']; [discriminate|].
    destruct (isOmniUri uri) eqn:O1; [|discriminate].
    destruct (doesUriExist uri) eqn:O2; [|discriminate].
    cbn [negb length] in *.
    destruct (IH rest' ltac:(lia) _ _ _ _ _ P) as [[-> ->]|(E & F & O)].
    - right. split; [reflexivity|]. split; [|split; assumption].
      left. split; [exact Fe | reflexivity].
    - right. split; [exact E|]. split; [|exact O].
      right. right. exact F. }
  destruct (process rest d u) as [ev0 r] eqn:P0.
  injection P as _ ->.
  destruct (IH rest ltac:(lia) _ _ _ _ _ P0) as [E|(E & F & O)];
    [left; exact E|].
  right. split; [exact E|]. split; [right; exact F | exact O].
Qed.

End SessionMainFacts.

(** X12. When [main] of liveSession gets as far as opening a stage, the
    stage is an argument that stands right after an [-e] or [--existing],
    it is not empty, and it passed both the check for an Omniverse URL and
    the check that it exists; and [startOmniverse] had succeeded. *)
Theorem stage_is_the_argument_of_existing (uris : SessionMain.Uris)
        (argv : list text) (started : bool) (uri : text) :
  snd (SessionMain.arguments argv started) = SessionMain.OpensStage uri ->
  started = true /\ uri <> []
  /\ SessionMain.follows_existing (tl argv) uri
  /\ SessionMain.isOmniUri uri = true
  /\ SessionMain.doesUriExist uri = true.
Proof.
  unfold SessionMain.arguments. destruct started; [|discriminate].
  cbn [negb].
  destruct (SessionMain.process (tl argv) false []) as [ev r] eqn:P.
  destruct r as [code|d u]; [discriminate|].
  destruct u as [|c u]; [discriminate|].
  cbn [snd]. intros E; injection E as <-.
  split; [reflexivity|]. split; [discriminate|].
  destruct (process_goes_on _ (tl argv) (le_n _) _ _ _ _ _ P)
    as [[_ D]|(_ & F & O)]; [discriminate|].
  split; assumption.
Qed.

Lemma stage_is_the_argument_of_existing_witness :
  SessionMain.arguments (uris := DemoSession.uris)
    [str "liveSession"; str "-v"; str "--bogus"; str "-e";
     str "omniverse://h/stage.usd"] true
  = ([SessionMain.LogLine "Unrecognized option: %s" (str "--bogus")],
     SessionMain.OpensStage (str "omniverse://h/stage.usd"))
  /\ SessionMain.follows_existing
       [str "-v"; str "--bogus"; str "-e"; str "omniverse://h/stage.usd"]
       (str "omniverse://h/stage.usd").
Proof.
  split; [reflexivity|].
  destruct (stage_is_the_argument_of_existing DemoSession.uris
              [str "liveSession"; str "-v"; str "--bogus"; str "-e";
               str "omniverse://h/stage.usd"] true
              (str "omniverse://h/stage.usd") eq_refl)
    as (_ & _ & F & _).
  exact F.
Defined.

Example existing_without_a_stage :
  SessionMain.arguments (uris := DemoSession.uris)
    [str "liveSession"; str "--existing"] true
  = ([SessionMain.LogLine "Missing an Omniverse URL to the stage to edit." [];
      SessionMain.PrintHelp], SessionMain.Returns (-1)).
Proof. reflexivity. Qed.

(** * omniSimpleSensor: the zones *)

Section ZoneFacts.
Import Zones.

Lemma zone_index_injective (s a b : Z) :
  (1 <= s)%Z ->
  (a mod s = b mod s)%Z ->
  ((a mod (s * s)) / s = (b mod (s * s)) / s)%Z ->
  (a / (s * s) = b / (s * s))%Z ->
  a = b.
Proof.
  intros S Hx Hy Hz.
  pose proof (Z_div_mod_eq_full a (s * s)) as A1.
  pose proof (Z_div_mod_eq_full b (s * s)) as B1.
  pose proof (Z_div_mod_eq_full (a mod (s * s)) s) as A2.
  pose proof (Z_div_mod_eq_full (b mod (s * s)) s) as B2.
  assert (D : (s | s * s)%Z) by (exists s; reflexivity).
  rewrite (Z.mod_mod_divide a (s * s) s D) in A2.
  rewrite (Z.mod_mod_divide b (s * s) s D) in B2.
  rewrite Hx, Hy in A2. rewrite Hz in A1. congruence.
Qed.

Lemma box_point_bounds (i : nat) :
  let '(u, v, w) := nth i SimpleSensor.gBoxPoints (0, 0, 0)%Z in
  (-50 <= u <= 50 /\ -50 <= v <= 50 /\ -50 <= w <= 50)%Z.
Proof.
  unfold SimpleSensor.gBoxPoints, SimpleSensor.gVal.
  do 24 (destruct i as [|i]; [cbn [nth]; lia|]).
  destruct i; cbn [nth]; lia.
Qed.

(** Below 2^24 a [float] holds every integer. *)
Lemma float_exact (z : Z) :
  (Z.abs z < 2 ^ 24)%Z -> SimpleSensor.float_of_Z z = z.
Proof.
  intros H. unfold SimpleSensor.float_of_Z. cbv zeta.
  destruct (Z.ltb_spec (Z.abs z) (2 ^ 24)); [reflexivity | lia].
Qed.

Lemma int_mul_fits (a b : Z) :
  (- 2 ^ 31 <= a * b < 2 ^ 31)%Z -> int_mul a b = Some (a * b)%Z.
Proof.
  intros H. unfold int_mul, int_fits.
  destruct (Z.leb_spec (- 2 ^ 31) (a * b)); [|lia].
  destruct (Z.ltb_spec (a * b) (2 ^ 31)); [reflexivity | lia].
Qed.

Lemma zone_point_near (x y z : Z) (p : Z * Z * Z) :
  (0 <= x <= 16777050)%Z -> (0 <= y <= 16777050)%Z ->
  (0 <= z <= 16777050)%Z ->
  In p (SimpleSensor.zone_points x y z) ->
  let '(px, py, pz) := p in
  (Z.abs (px - x) <= 50 /\ Z.abs (py - y) <= 50
   /\ Z.abs (pz - z) <= 50)%Z.
Proof.
  unfold SimpleSensor.zone_points. intros X Y Z0 I.
  apply in_map_iff in I. destruct I as (i & <- & _).
  pose proof (box_point_bounds i) as B.
  destruct (nth i SimpleSensor.gBoxPoints (0, 0, 0)%Z) as [[u v] w].
  rewrite !float_exact by (change (2 ^ 24)%Z with 16777216%Z; lia).
  lia.
Qed.

(** For the zones placed exactly, the offsets are those of the
    arithmetic on integers. *)
Lemma zone_offset_exact (a cubeRoot : Z) :
  (0 <= a < exact_zones)%Z -> (cubeRoot <= 1290)%Z ->
  let s := if (cubeRoot <? 1)%Z then 1%Z else cubeRoot in
  let x := (a mod s * 150)%Z in
  let y := (a mod (s * s) / s * 150)%Z in
  let z := (a / (s * s) * 150)%Z in
  zone_offset a cubeRoot = Some (x, y, z)
  /\ (0 <= x <= 16777050)%Z /\ (0 <= y <= 16777050)%Z
  /\ (0 <= z <= 16777050)%Z.
Proof.
  intros A C. unfold exact_zones in A. cbv zeta. unfold zone_offset.
  set (s := if (cubeRoot <? 1)%Z then 1%Z else cubeRoot).
  assert (S : (1 <= s <= 1290)%Z)
    by (unfold s; destruct (Z.ltb_spec cubeRoot 1); lia).
  assert (S2 : (0 < s * s <= 1664100)%Z) by nia.
  assert (X : (0 <= a mod s <= a)%Z)
    by (split; [apply Z.mod_pos_bound; lia | apply Z.mod_le; lia]).
  assert (M : (0 <= a mod (s * s) <= a)%Z)
    by (split; [apply Z.mod_pos_bound; lia | apply Z.mod_le; lia]).
  assert (Y : (0 <= a mod (s * s) / s <= a)%Z).
  { split; [apply Z.div_pos; lia|].
    apply Z.div_le_upper_bound; [lia | nia]. }
  assert (Z0 : (0 <= a / (s * s) <= a)%Z).
  { split; [apply Z.div_pos; lia|].
    apply Z.div_le_upper_bound; [lia | nia]. }
  rewrite !Z.rem_mod_nonneg by lia.
  rewrite (int_mul_fits (a mod s) 150)
    by (change (2 ^ 31)%Z with 2147483648%Z; lia).
  rewrite (int_mul_fits s s)
    by (change (2 ^ 31)%Z with 2147483648%Z; lia).
  cbv zeta. rewrite !Z.rem_mod_nonneg, !Z.quot_div_nonneg by lia.
  rewrite (int_mul_fits (a mod (s * s) / s) 150)
    by (change (2 ^ 31)%Z with 2147483648%Z; lia).
  rewrite (int_mul_fits (a / (s * s)) 150)
    by (change (2 ^ 31)%Z with 2147483648%Z; lia).
  rewrite !float_exact by (change (2 ^ 24)%Z with 16777216%Z; lia).
  split; [reflexivity|]. lia.
Qed.

End ZoneFacts.

(** X13. The boxes of two different zones do not touch, as long as the
    zone numbers are below 111848: any point of one and any point of the
    other are at least 50 apart along some axis, whatever the number of
    zones.  (Zone numbers are not negative and the cube root of an [int] is
    at most 1290; the boxes are 100 wide and their offsets are multiples of
    150.  Below that zone number the products fit an [int] and every
    coordinate is below 2^24, so that the [float]s hold them exactly.) *)
Theorem zone_boxes_do_not_touch (a b cubeRoot : Z) :
  (0 <= a < Zones.exact_zones)%Z -> (0 <= b < Zones.exact_zones)%Z ->
  a <> b -> (cubeRoot <= 1290)%Z ->
  exists boxA boxB,
    Zones.zone_box a cubeRoot = Some boxA
    /\ Zones.zone_box b cubeRoot = Some boxB
    /\ length boxA = 24 /\ length boxB = 24
    /\ forall p q, In p boxA -> In q boxB -> Zones.apart 50 p q.
Proof.
  intros Ha Hb N C. unfold Zones.zone_box.
  destruct (zone_offset_exact a cubeRoot Ha C) as (-> & XA & YA & ZA).
  destruct (zone_offset_exact b cubeRoot Hb C) as (-> & XB & YB & ZB).
  set (s := if (cubeRoot <? 1)%Z then 1%Z else cubeRoot) in *.
  assert (S : (1 <= s)%Z) by (unfold s; destruct (Z.ltb_spec cubeRoot 1); lia).
  eexists. eexists. split; [reflexivity|]. split; [reflexivity|].
  split; [unfold SimpleSensor.zone_points; rewrite length_map, length_seq;
          reflexivity|].
  split; [unfold SimpleSensor.zone_points; rewrite length_map, length_seq;
          reflexivity|].
  intros p q P Q.
  apply zone_point_near in P; [|assumption..].
  apply zone_point_near in Q; [|assumption..].
  destruct p as [[px py] pz], q as [[qx qy] qz]. unfold Zones.apart.
  destruct (Z.eq_dec (a mod s) (b mod s)) as [Ex|Nx]; [|lia].
  destruct (Z.eq_dec ((a mod (s * s)) / s) ((b mod (s * s)) / s))
    as [Ey|Ny]; [|lia].
  destruct (Z.eq_dec (a / (s * s)) (b / (s * s))) as [Ez|Nz]; [|lia].
  exfalso. apply N. exact (zone_index_injective s a b S Ex Ey Ez).
Qed.

Lemma zone_boxes_do_not_touch_witness :
  Zones.zone_offset 5 2 = Some (150, 0, 150)%Z
  /\ Zones.zone_offset 6 2 = Some (0, 150, 150)%Z
  /\ Zones.apart 50 (200, -50, 100)%Z (-50, 100, 100)%Z.
Proof.
  split; [reflexivity|]. split; [reflexivity|].
  destruct (zone_boxes_do_not_touch 5 6 2) as (boxA & boxB & A & B & _ & _ & H);
    try (unfold Zones.exact_zones; lia).
  vm_compute in A. injection A as <-.
  vm_compute in B. injection B as <-.
  apply H.
  - left. reflexivity.
  - right. left. reflexivity.
Defined.

(** Far out the [float]s round: the zones 223697 and 223698 of one zone
    per side have faces only 48 apart. *)
Example zone_boxes_far_out :
  exists boxA boxB,
    Zones.zone_box 223697 1 = Some boxA
    /\ Zones.zone_box 223698 1 = Some boxB
    /\ In (50, 50, 33554600)%Z boxA /\ In (50, 50, 33554648)%Z boxB
    /\ ~ Zones.apart 50 (50, 50, 33554600)%Z (50, 50, 33554648)%Z.
Proof.
  eexists. eexists. split; [vm_compute; reflexivity|].
  split; [vm_compute; reflexivity|].
  split; [repeat (try (left; reflexivity); right)|].
  split; [repeat (try (left; reflexivity); right)|].
  unfold Zones.apart. cbn. lia.
Qed.

(** * helloWorld: the angle and the message channel; the sensor's steps *)

Section DialFacts.
Import HelloWorld Dial.
Context {platform : Platform}.

Lemma next_on_the_dial (a : Z) :
  on_the_dial a ->
  (if (360 <=? a + 15)%Z then 0%Z else (a + 15)%Z) = ((a + 15) mod 360)%Z
  /\ on_the_dial (if (360 <=? a + 15)%Z then 0%Z else (a + 15)%Z).
Proof.
  intros [R M]. unfold on_the_dial.
  destruct (Z.leb_spec 360 (a + 15)).
  - assert (a = 345%Z) as -> by (Z.div_mod_to_equations; lia).
    cbn. repeat split; lia.
  - rewrite Z.mod_small by lia.
    repeat split; try lia. Z.div_mod_to_equations; lia.
Qed.

Lemma rotations_app (a b : list event) :
  rotations (a ++ b) = rotations a ++ rotations b.
Proof.
  induction a as [|e a IH]; [reflexivity|].
  destruct e; cbn [app rotations]; rewrite IH; reflexivity.
Qed.

Lemma dispatch_rotation (st : edit_state) (c : ascii)
      (inp : Console.stdin) :
  let nx := if (360 <=? angle st + 15)%Z then 0%Z
            else (angle st + 15)%Z in
  (rotations (fst (fst (fst (dispatch st c inp)))) = []
   /\ angle (snd (fst (fst (dispatch st c inp)))) = angle st)
  \/ (rotations (fst (fst (fst (dispatch st c inp)))) = [nx]
      /\ angle (snd (fst (fst (dispatch st c inp)))) = nx).
Proof.
  cbv zeta. unfold dispatch.
  destruct (Ascii.eqb c "t"); [right; split; reflexivity|].
  destruct (Ascii.eqb c "s"); [left; split; reflexivity|].
  destruct (Ascii.eqb c "a"); [left; split; reflexivity|].
  destruct (Ascii.eqb c "m").
  { destruct (negb _); [|left; split; reflexivity].
    destruct (getline inp). left; split; reflexivity. }
  destruct (Ascii.eqb c "l"); [left; split; reflexivity|].
  destruct (_ || _); left; split; reflexivity.
Qed.

Lemma iteration_rotation (st : edit_state) (inp : Console.stdin) :
  let nx := if (360 <=? angle st + 15)%Z then 0%Z
            else (angle st + 15)%Z in
  let ev := fst (fst (liveEdit_iteration st inp)) in
  let next := snd (fst (liveEdit_iteration st inp)) in
  (rotations ev = [] /\ forall st', next = Some st' -> angle st' = angle st)
  \/ (rotations ev = [nx] /\ forall st', next = Some st' -> angle st' = nx).
Proof.
  cbv zeta. unfold liveEdit_iteration.
  destruct (inputChar inp) as [c rest].
  pose proof (dispatch_rotation st c rest) as D. cbv zeta in D.
  destruct (dispatch st c rest) as [[[ev st'] wait] rest'].
  cbn [fst snd rotations] in *.
  destruct D as [[R A]|[R A]]; [left | right]; (split; [exact R|]);
    intros st'' E; destruct wait; try discriminate;
    injection E as <-; exact A.
Qed.

Lemma loop_rotations (fuel : nat) :
  forall st inp,
    on_the_dial (angle st) ->
    forall k a,
      nth_error (rotations (concat (fst (liveEdit_loop fuel st inp)))) k
      = Some a ->
      a = ((angle st + 15 * (Z.of_nat k + 1)) mod 360)%Z
      /\ on_the_dial a.
Proof.
  induction fuel as [|fuel IH]; intros st inp D k a E.
  { destruct k; discriminate. }
  cbn [liveEdit_loop] in E.
  pose proof (iteration_rotation st inp) as I. cbv zeta in I.
  destruct (next_on_the_dial _ D) as [NX ND].
  destruct (liveEdit_iteration st inp) as [[ev next] rest].
  cbn [fst snd] in I.
  assert (ONE : forall k a,
             nth_error
               [if (360 <=? angle st + 15)%Z then 0%Z
                else (angle st + 15)%Z] k = Some a ->
             a = ((angle st + 15 * (Z.of_nat k + 1)) mod 360)%Z
             /\ on_the_dial a).
  { intros [|[|k']] a' E'; try discriminate.
    injection E' as <-. split; [|exact ND].
    rewrite NX. f_equal; lia. }
  destruct next as [st'|].
  - specialize (IH st' rest).
    destruct (liveEdit_loop fuel st' rest) as [iterations ended].
    cbn [fst concat] in *. rewrite rotations_app in E.
    destruct I as [[R A]|[R A]]; rewrite R in E; cbn [app] in E.
    + rewrite <- (A st' eq_refl). apply IH; [|exact E].
      rewrite (A st' eq_refl). exact D.
    + destruct k as [|k]; [apply ONE; exact E|].
      cbn [nth_error] in E.
      destruct (IH ltac:(rewrite (A st' eq_refl); exact ND) k a E)
        as [Ea Da].
      split; [|exact Da].
      rewrite Ea, (A st' eq_refl), NX, Z.add_mod_idemp_l by lia.
      f_equal; lia.
  - cbn [fst concat] in E. rewrite app_nil_r in E.
    destruct I as [[R _]|[R _]]; rewrite R in E;
      [destruct k; discriminate | apply ONE; exact E].
Qed.

Lemma after_leave_app (a b : list event) :
  after_leave (a ++ b)
  = if existsb is_stop a then after_leave a ++ b else after_leave b.
Proof.
  induction a as [|e a IH]; [reflexivity|].
  cbn [app after_leave existsb]. destruct (is_stop e); [reflexivity|].
  exact IH.
Qed.

Lemma no_sends (tr : list event) :
  Forall (sent_to kInvalidRequestId) tr ->
  existsb is_send tr = false /\ forall id, Forall (sent_to id) tr.
Proof.
  induction 1 as [|e tr S _ [IH1 IH2]]; [split; [reflexivity | constructor]|].
  destruct e; cbn [existsb is_send orb]; try (split; [exact IH1|]);
    try (intros id; constructor; [exact I | apply IH2]).
  destruct S as [S1 S2]. contradiction.
Qed.

Lemma dispatch_channel (st : edit_state) (c : ascii)
      (inp : Console.stdin) :
  let ev := fst (fst (fst (dispatch st c inp))) in
  let st' := snd (fst (fst (dispatch st c inp))) in
  Forall (sent_to (joinRequestId st)) ev
  /\ ((existsb is_stop ev = false
       /\ joinRequestId st' = joinRequestId st)
      \/ (existsb is_stop ev = true /\ after_leave ev = []
          /\ joinRequestId st' = kInvalidRequestId)).
Proof.
  cbv zeta. unfold dispatch.
  destruct (Ascii.eqb c "t");
    [split; [repeat constructor | left; split; reflexivity]|].
  destruct (Ascii.eqb c "s");
    [split; [repeat constructor | left; split; reflexivity]|].
  destruct (Ascii.eqb c "a").
  { cbn [fst snd]. split; [|left; split; reflexivity].
    apply Forall_forall. intros e He.
    apply in_flat_map in He. destruct He as (i & _ & He).
    destruct He as [<-|[<-|[<-|[]]]]; exact I. }
  destruct (Ascii.eqb c "m").
  { destruct (Z.eqb_spec kInvalidRequestId (joinRequestId st)) as [E|N];
      cbn [negb].
    - split; [repeat constructor | left; split; reflexivity].
    - destruct (getline inp) as [message rest]. cbn [fst snd].
      split; [|left; split; reflexivity].
      repeat constructor. cbn. congruence. }
  destruct (Ascii.eqb c "l").
  { split; [repeat constructor|]. right. repeat split. }
  destruct (_ || _);
    (split; [repeat constructor | left; split; reflexivity]).
Qed.

End DialFacts.

(** X14. Every time the [t] command of helloWorld's live edit turns the
    mesh, the angle is the previous one plus 15 degrees modulo 360: the
    k-th turn of a session sets the starting angle plus 15 k modulo 360, a
    multiple of 15 from 0 to 345, so 24 turns bring the angle back.  The
    same step in liveSession keeps the angle such a multiple. *)
Theorem turns_walk_the_dial (platform : HelloWorld.Platform)
        (sdk : LiveSession.ConnectSdk) (fuel : nat)
        (st : HelloWorld.edit_state) (inp : Console.stdin) :
  Dial.on_the_dial (HelloWorld.angle st) ->
  (forall k a,
      nth_error
        (Dial.rotations (concat (fst (HelloWorld.liveEdit_loop fuel st inp))))
        k = Some a ->
      a = ((HelloWorld.angle st + 15 * (Z.of_nat k + 1)) mod 360)%Z
      /\ Dial.on_the_dial a)
  /\ (forall st' : LiveSession.edit_state,
         Dial.on_the_dial (LiveSession.angle st') ->
         Dial.on_the_dial
           (LiveSession.angle (snd (LiveSession.transform_case st')))).
Proof.
  intros D. split; [exact (loop_rotations fuel st inp D)|].
  intros st' D'. unfold LiveSession.transform_case.
  destruct (next_on_the_dial _ D') as [_ ND].
  destruct (negb _); cbn [snd LiveSession.angle]; assumption.
Qed.

Lemma turns_walk_the_dial_witness :
  Dial.on_the_dial
    (HelloWorld.angle
       (snd (HelloWorld.liveEdit_start (platform := Demo.platform)
               (str "omniverse://h/a.usd"))))
  /\ Dial.rotations
       (concat
          (fst (HelloWorld.liveEdit_loop (platform := Demo.platform) 4
                  (snd (HelloWorld.liveEdit_start
                          (platform := Demo.platform)
                          (str "omniverse://h/a.usd")))
                  (str "ttq"))))
     = [15; 30]%Z
  /\ Dial.on_the_dial 30.
Proof.
  assert (D : Dial.on_the_dial 0) by (split; [lia | reflexivity]).
  split; [exact D|]. split; [reflexivity|].
  destruct (turns_walk_the_dial Demo.platform Demo.sdk 4
              (snd (HelloWorld.liveEdit_start (platform := Demo.platform)
                      (str "omniverse://h/a.usd")))
              (str "ttq") D) as [T _].
  exact (proj2 (T 1 30%Z eq_refl)).
Defined.

(** X15. In helloWorld's live edit every channel message is sent on the
    request that was current at the start, and only while that request is
    valid; once the channel has been left with [l], no later command sends
    a message. *)
Theorem no_message_after_leaving (platform : HelloWorld.Platform)
        (fuel : nat) (st : HelloWorld.edit_state) (inp : Console.stdin) :
  let tr := concat (fst (HelloWorld.liveEdit_loop fuel st inp)) in
  Forall (Dial.sent_to (HelloWorld.joinRequestId st)) tr
  /\ existsb Dial.is_send (Dial.after_leave tr) = false.
Proof.
  revert st inp. induction fuel as [|fuel IH]; intros st inp; cbv zeta;
    [split; [constructor | reflexivity]|].
  cbn [HelloWorld.liveEdit_loop]. unfold HelloWorld.liveEdit_iteration.
  destruct (HelloWorld.inputChar inp) as [c rest].
  pose proof (dispatch_channel st c rest) as D. cbv zeta in D.
  destruct (HelloWorld.dispatch st c rest) as [[[ev st'] wait] rest'].
  cbn [fst snd] in D. destruct D as [F D].
  destruct wait; cbn [fst] in *.
  - destruct (HelloWorld.liveEdit_loop fuel st' rest') as [iterations ended] eqn:L.
    specialize (IH st' rest'). rewrite L in IH. cbv zeta in IH.
    cbn [fst] in IH. destruct IH as [F' A'].
    cbn [fst concat app Dial.after_leave Dial.is_stop].
    rewrite after_leave_app.
    destruct D as [[S J]|(S & AL & J)]; rewrite S.
    + rewrite J in F'. split; [|exact A'].
      repeat constructor. apply Forall_app; split; assumption.
    + rewrite J in F'. destruct (no_sends _ F') as [N1 N2].
      rewrite AL. cbn [app]. split; [|exact N1].
      repeat constructor. apply Forall_app; split; [assumption|].
      apply N2.
  - cbn [fst concat app Dial.after_leave Dial.is_stop]. rewrite app_nil_r.
    split; [repeat constructor; assumption|].
    destruct D as [[S J]|(S & AL & J)].
    + clear F J. induction ev as [|e ev IHev]; [reflexivity|].
      cbn [existsb Dial.after_leave] in *.
      destruct (Dial.is_stop e); [discriminate|]. apply IHev. exact S.
    + rewrite AL. reflexivity.
Qed.

Example message_before_and_after_leaving :
  filter (fun e => Dial.is_send e || Dial.is_stop e)
    (concat
       (fst (HelloWorld.liveEdit_loop (platform := Demo.platform) 6
               (snd (HelloWorld.liveEdit_start (platform := Demo.platform)
                       (str "omniverse://h/a.usd")))
               (str "m
hi
lmq"))))
  = [HelloWorld.SendMessage 7 (str "hi"); HelloWorld.Stop 7].
Proof. vm_compute. reflexivity. Qed.

(** X16. The sensor thread colours its box for one step after the other:
    its i-th cycle sleeps for the timer period, processes live updates, sets
    the colour for step (start + i) modulo 360, and processes live updates
    again. *)
Theorem sensor_steps_cycle (stopped_reads : list bool) :
  forall step0 : Z,
    (0 <= step0 < 360)%Z ->
    forall i ev,
      nth_error (fst (SensorThread.doWork stopped_reads step0)) i = Some ev ->
      ev = Dial.cycle ((step0 + Z.of_nat i) mod 360).
Proof.
  induction stopped_reads as [|b rest IH]; intros step0 R i ev E.
  { destruct i; discriminate. }
  cbn [SensorThread.doWork] in E. destruct b.
  { destruct i; discriminate. }
  unfold SensorThread.doWork_iteration in E.
  specialize (IH (if (360 <=? step0 + 1)%Z then 0%Z else (step0 + 1)%Z)).
  destruct (SensorThread.doWork rest _) as [iterations ended].
  cbn [fst] in *. destruct i as [|i]; cbn [nth_error] in E.
  - injection E as <-. rewrite Z.add_0_r, Z.mod_small by lia. reflexivity.
  - rewrite (IH ltac:(destruct (Z.leb_spec 360 (step0 + 1)); lia) i ev E).
    f_equal. destruct (Z.leb_spec 360 (step0 + 1)).
    + assert (step0 = 359%Z) as -> by lia.
      replace (359 + Z.of_nat (S i))%Z with (Z.of_nat i + 1 * 360)%Z by lia.
      rewrite Z.mod_add by lia. reflexivity.
    + f_equal; lia.
Qed.

Lemma sensor_steps_cycle_witness :
  (0 <= 359 < 360)%Z
  /\ nth_error (fst (SensorThread.doWork [false; false; true] 359)) 1
     = Some (Dial.cycle 0)
  /\ Dial.cycle 0 = Dial.cycle ((359 + Z.of_nat 1) mod 360).
Proof.
  split; [lia|]. split; [reflexivity|].
  exact (sensor_steps_cycle [false; false; true] 359 ltac:(lia) 1
           (Dial.cycle 0) eq_refl).
Defined.

(** * omnicli: the words of the hexadecimal dump *)

Section DumpFacts.
Import OmniCli.

Lemma byte_at_inside (buf b : list ascii) (i : nat) :
  i < length buf ->
  byte_at {| buffer := buf; beyond := b |} i = N_of_ascii (nth i buf NUL).
Proof.
  intros H. unfold byte_at. cbn [buffer beyond].
  rewrite app_nth1 by assumption. reflexivity.
Qed.

Lemma byte_at_end (buf b : list ascii) :
  byte_at {| buffer := buf; beyond := b |} (length buf)
  = N_of_ascii (hd NUL b).
Proof.
  unfold byte_at. cbn [buffer beyond].
  rewrite app_nth2, Nat.sub_diag by lia. destruct b; reflexivity.
Qed.

Lemma byte_at_bounded (c : OmniClientContent) (i : nat) :
  (byte_at c i < 256)%N.
Proof. apply N_ascii_bounded. Qed.

Lemma word_at_bytes (c c' : OmniClientContent) (i : nat) :
  word_at c i = word_at c' i ->
  byte_at c i = byte_at c' i /\ byte_at c (i + 1) = byte_at c' (i + 1)
  /\ byte_at c (i + 2) = byte_at c' (i + 2)
  /\ byte_at c (i + 3) = byte_at c' (i + 3).
Proof.
  unfold word_at.
  pose proof (byte_at_bounded c i). pose proof (byte_at_bounded c' i).
  pose proof (byte_at_bounded c (i + 1)).
  pose proof (byte_at_bounded c' (i + 1)).
  pose proof (byte_at_bounded c (i + 2)).
  pose proof (byte_at_bounded c' (i + 2)).
  pose proof (byte_at_bounded c (i + 3)).
  pose proof (byte_at_bounded c' (i + 3)).
  lia.
Qed.

Lemma N_of_ascii_inj (a b : ascii) : N_of_ascii a = N_of_ascii b -> a = b.
Proof.
  intros E. rewrite <- (ascii_N_embedding a), <- (ascii_N_embedding b), E.
  reflexivity.
Qed.

End DumpFacts.

(** X17. The hexadecimal dump of [cat] prints one 32-bit word for every
    four bytes of the content, rounded up.  When the size is a multiple of
    four the dump is made of the content alone; when it is not, the last
    word is read in part from the bytes that follow the content in memory,
    and the dump changes with the first of them. *)
Theorem hex_dump_reads_whole_words (buf b b' : list ascii) :
  let dump := fun beyond =>
                OmniCli.hex_dump
                  {| OmniCli.buffer := buf; OmniCli.beyond := beyond |} in
  length (dump b) = (length buf + 3) / 4 + 1
  /\ (length buf mod 4 = 0 -> dump b = dump b')
  /\ (length buf mod 4 <> 0 -> hd NUL b <> hd NUL b' -> dump b <> dump b').
Proof.
  cbv zeta. unfold OmniCli.hex_dump. cbn [OmniCli.buffer].
  split; [|split].
  - rewrite length_app, length_map, length_seq. reflexivity.
  - intros M. f_equal.
    set (m := length buf / 4).
    pose proof (Nat.div_mod_eq (length buf) 4) as D. fold m in D.
    assert (C : (length buf + 3) / 4 = m).
    { symmetry. apply (Nat.div_unique (length buf + 3) 4 m 3); lia. }
    rewrite C. apply map_ext_in. intros k I.
    apply in_seq in I. cbv zeta. f_equal. unfold OmniCli.word_at.
    rewrite !byte_at_inside by lia. reflexivity.
  - intros M H E. apply app_inv_tail in E.
    set (m := length buf / 4).
    pose proof (Nat.div_mod_eq (length buf) 4) as D. fold m in D.
    pose proof (Nat.mod_upper_bound (length buf) 4 ltac:(lia)) as U.
    assert (C : (length buf + 3) / 4 = S m).
    { symmetry. apply (Nat.div_unique (length buf + 3) 4 (S m)
                         (length buf mod 4 - 1)); lia. }
    rewrite C, seq_S, !map_app in E. cbn [map Nat.add] in E.
    apply app_inj_tail in E. destruct E as [_ E]. injection E as E.
    apply word_at_bytes in E. destruct E as (E0 & E1 & E2 & E3).
    apply H, N_of_ascii_inj.
    rewrite <- (byte_at_end buf b), <- (byte_at_end buf b').
    destruct (length buf mod 4) as [|[|[|[|r]]]] eqn:R; try lia.
    + replace (length buf) with (4 * m + 1) by lia. exact E1.
    + replace (length buf) with (4 * m + 2) by lia. exact E2.
    + replace (length buf) with (4 * m + 3) by lia. exact E3.
Qed.

Lemma hex_dump_reads_whole_words_witness :
  length [NUL; "b"; "c"; "d"; "e"]%char mod 4 <> 0
  /\ OmniCli.hex_dump
       {| OmniCli.buffer := [NUL; "b"; "c"; "d"; "e"]%char;
          OmniCli.beyond := str "XYZ" |}
     <> OmniCli.hex_dump
          {| OmniCli.buffer := [NUL; "b"; "c"; "d"; "e"]%char;
             OmniCli.beyond := str "xYZ" |}.
Proof.
  split; [discriminate|].
  destruct (hex_dump_reads_whole_words [NUL; "b"; "c"; "d"; "e"]%char
              (str "XYZ") (str "xYZ")) as (_ & _ & D).
  apply D; discriminate.
Defined.

(** * helloWorld: when main starts a live edit *)

Section HelloMainFacts.
Import SessionMain HelloMain.
Context {uris : Uris} {sdk : Sdk}.

Lemma contains_app (p a b : text) :
  contains p b = true -> contains p (a ++ b) = true.
Proof.
  intros H. induction a as [|x a IH]; [exact H|].
  cbn [app contains]. rewrite IH. apply orb_true_r.
Qed.

Lemma follows_existing_cons (a : text) (rest : list text) (u : text) :
  follows_existing rest u -> follows_existing (a :: rest) u.
Proof. intros H. right. exact H. Qed.

Lemma process_options (n : nat) :
  forall args, length args <= n ->
  forall o ev o',
    process args o = (ev, GoOn o') ->
    (doLiveEdit o' = true ->
     doLiveEdit o = true \/ existsb asks_live args = true)
    /\ (existingStage o' = existingStage o
        \/ follows_existing args (existingStage o'))
    /\ ~ (exists s, In (LiveEdit s) ev).
Proof.
  assert (B : forall o ev o',
             process [] o = (ev, GoOn o') ->
             (doLiveEdit o' = true ->
              doLiveEdit o = true \/ existsb asks_live [] = true)
             /\ (existingStage o' = existingStage o
                 \/ follows_existing [] (existingStage o'))
             /\ ~ (exists s, In (LiveEdit s) ev)).
  { intros o ev o' P. cbn [process] in P. injection P as E1 E2.
    subst ev o'. split; [auto|]. split; [auto|].
    intros (s & I). destruct I. }
  induction n as [|n IH]; intros [|a rest] L o ev o' P;
    cbn [length] in L; try lia; try (apply B; exact P).
  cbn [process] in P. cbn [existsb]. unfold asks_live at 1.
  destruct (is_flag a "-h" "--help"); [discriminate|].
  destruct (is_flag a "-a" "--usda").
  { destruct (IH rest ltac:(lia) _ _ _ P) as (D & E & N).
    cbn [doLiveEdit existingStage] in *.
    split; [intros H; destruct (D H) as [?|X]; [auto|];
            right; rewrite X; apply orb_true_r|].
    split; [destruct E; auto using follows_existing_cons | exact N]. }
  destruct (is_flag a "-l" "--live").
  { destruct (IH rest ltac:(lia) _ _ _ P) as (D & E & N).
    cbn [doLiveEdit existingStage] in *.
    split; [intros _; right; reflexivity|].
    split; [destruct E; auto using follows_existing_cons | exact N]. }
  destruct (is_flag a "-p" "--path").
  { destruct rest as [|path rest']; [discriminate|].
    destruct (process rest' _) as [ev0 r] eqn:P0.
    injection P as <- ->. cbn [length] in L.
    destruct (IH rest' ltac:(lia) _ _ _ P0) as (D & E & N).
    cbn [doLiveEdit existingStage existsb] in *.
    split; [intros H; destruct (D H) as [?|X]; [auto|];
            right; rewrite X, !orb_true_r; reflexivity|].
    split; [destruct E; auto using follows_existing_cons|].
    intros (s & I). apply in_app_iff in I. destruct I as [I|I].
    - destruct (negb (isOmniUri path)); [destruct I as [?|[]]|destruct I].
      discriminate.
    - apply N. exists s. exact I. }
  destruct (is_flag a "-v" "--verbose").
  { destruct (IH rest ltac:(lia) _ _ _ P) as (D & E & N).
    split; [intros H; destruct (D H) as [?|X]; [auto|];
            right; rewrite X; apply orb_true_r|].
    split; [destruct E; auto using follows_existing_cons | exact N]. }
  destruct (is_flag a "-e" "--existing") eqn:Fe.
  { destruct rest as [|stage rest']; [discriminate|].
    cbn [length] in L.
    assert (G : forall ev0,
               process rest'
                 {| doLiveEdit := true; existingStage := stage;
                    destinationPath := destinationPath o;
                    stageExtension := stageExtension o |}
               = (ev0, GoOn o') ->
               (doLiveEdit o' = true ->
                doLiveEdit o = true \/ true = true)
               /\ (existingStage o' = existingStage o
                   \/ follows_existing (a :: stage :: rest')
                        (existingStage o'))
               /\ ~ (exists s, In (LiveEdit s) ev0)).
    { intros ev0 P0.
      destruct (IH rest' ltac:(lia) _ _ _ P0) as (D & E & N).
      cbn [doLiveEdit existingStage] in *.
      split; [auto|]. split; [|exact N].
      right. destruct E as [->|E].
      - left. split; [exact Fe | reflexivity].
      - right. right. exact E. }
    cbn [orb].
    destruct (isOmniUri stage); cbn [negb] in P.
    - destruct (doesUriExist stage); cbn [negb] in P; [|discriminate].
      destruct (isUriWritable stage); cbn [negb] in P.
      + apply G. exact P.
      + destruct (process rest' _) as [ev0 r] eqn:P0.
        injection P as <- ->. destruct (G ev0 eq_refl) as (D & E & N).
        split; [exact D|]. split; [exact E|].
        intros (s & [I|I]); [discriminate | apply N; exists s; exact I].
    - destruct (process rest' _) as [ev0 r] eqn:P0.
      injection P as <- ->. destruct (G ev0 eq_refl) as (D & E & N).
      split; [exact D|]. split; [exact E|].
      intros (s & [I|I]); [discriminate | apply N; exists s; exact I]. }
  destruct (process rest o) as [ev0 r] eqn:P0.
  injection P as <- ->.
  destruct (IH rest ltac:(lia) _ _ _ P0) as (D & E & N).
  cbn [orb].
  split; [exact D|].
  split; [destruct E; auto using follows_existing_cons|].
  intros (s & [I|I]); [discriminate | apply N; exists s; exact I].
Qed.

Lemma process_return (n : nat) :
  forall args, length args <= n ->
  forall o ev code,
    process args o = (ev, HelloMain.Return code) ->
    ~ (exists s, In (LiveEdit s) ev).
Proof.
  induction n as [|n IH]; intros [|a rest] L o ev code P;
    cbn [length] in L; try lia; try discriminate.
  cbn [process] in P.
  destruct (is_flag a "-h" "--help").
  { injection P as <- _. intros (s & [I|[]]). discriminate. }
  destruct (is_flag a "-a" "--usda");
    [exact (IH rest ltac:(lia) _ _ _ P)|].
  destruct (is_flag a "-l" "--live");
    [exact (IH rest ltac:(lia) _ _ _ P)|].
  destruct (is_flag a "-p" "--path").
  { destruct rest as [|path rest'].
    - injection P as <- _. intros (s & [I|[I|[]]]); discriminate.
    - destruct (process rest' _) as [ev0 r] eqn:P0.
      injection P as <- ->. cbn [length] in L.
      pose proof (IH rest' ltac:(lia) _ _ _ P0) as N.
      intros (s & I). apply in_app_iff in I. destruct I as [I|I].
      + destruct (negb (isOmniUri path));
          [destruct I as [?|[]]|destruct I]. discriminate.
      + apply N. exists s. exact I. }
  destruct (is_flag a "-v" "--verbose");
    [exact (IH rest ltac:(lia) _ _ _ P)|].
  destruct (is_flag a "-e" "--existing").
  { destruct rest as [|stage rest'].
    - injection P as <- _. intros (s & [I|[I|[]]]); discriminate.
    - cbn [length] in L.
      destruct (isOmniUri stage); cbn [negb] in P.
      + destruct (doesUriExist stage); cbn [negb] in P.
        * destruct (isUriWritable stage); cbn [negb] in P;
            [exact (IH rest' ltac:(lia) _ _ _ P)|].
          destruct (process rest' _) as [ev0 r] eqn:P0.
          injection P as <- ->.
          pose proof (IH rest' ltac:(lia) _ _ _ P0) as N.
          intros (s & [I|I]);
            [discriminate | apply N; exists s; exact I].
        * injection P as <- _. intros (s & [I|[]]). discriminate.
      + destruct (process rest' _) as [ev0 r] eqn:P0.
        injection P as <- ->.
        pose proof (IH rest' ltac:(lia) _ _ _ P0) as N.
        intros (s & [I|I]); [discriminate | apply N; exists s; exact I]. }
  destruct (process rest o) as [ev0 r] eqn:P0.
  injection P as <- ->.
  pose proof (IH rest ltac:(lia) _ _ _ P0) as N.
  intros (s & [I|I]); [discriminate | apply N; exists s; exact I].
Qed.

Ltac in_cases I :=
  cbn [app In] in I;
  repeat match type of I with
         | _ \/ _ => destruct I as [I|I]
         | In _ (_ ++ _) => apply in_app_iff in I
         | False => destruct I
         | In _ [] => destruct I
         | In _ (_ :: _) => cbn [In] in I
         | _ = _ => discriminate I
         end.

Lemma stage_and_edit_live (o : options) (stage : text) :
  In (LiveEdit stage) (fst (stage_and_edit o)) ->
  doLiveEdit o = true /\ contains (str ".live") stage = true
  /\ snd (stage_and_edit o) = Returns 0
  /\ (stage = existingStage o
      \/ (existingStage o = []
          /\ exists folder,
              stage = folder ++ str "/helloworld" ++ str ".live")).
Proof.
  unfold stage_and_edit.
  set (asked := if match existingStage o, destinationPath o with
                   | [], [] => true
                   | _, _ => false
                   end
                then [_] else []).
  assert (A : ~ In (LiveEdit stage) asked).
  { unfold asked.
    match goal with
    | |- ~ In _ (if ?b then _ else _) => destruct b
    end; [intros [I|[]]; discriminate | intros []]. }
  destruct (existingStage o) as [|c e] eqn:E.
  - match goal with
    | |- context [createOmniverseModel ?d _ _] => set (dest := d)
    end.
    unfold createOmniverseModel. cbv zeta.
    destruct (model_ends dest _);
      try (cbn [fst]; intros I; exfalso; in_cases I; exact (A I)).
    match goal with
    | |- context [CreateModel ?u] => remember u as url eqn:U
    end.
    destruct url as [|u us];
      [cbn [fst]; intros I; exfalso; in_cases I; exact (A I)|].
    destruct createReferenceAndPayload; cbn [negb fst snd];
      [|intros I; exfalso; in_cases I; exact (A I)].
    intros I. in_cases I; try (exfalso; exact (A I)).
    destruct (doLiveEdit o) eqn:D; cbn [andb] in I; [|destruct I].
    destruct createBox; cbn [andb] in I; [|destruct I].
    destruct (contains (str ".live") (u :: us)) eqn:C; [|destruct I].
    destruct I as [I|[]]. injection I as <-.
    split; [reflexivity|]. split; [exact C|]. split; [reflexivity|].
    right. split; [reflexivity|]. exists dest. exact U.
  - cbn [fst snd]. intros I. in_cases I; try (exfalso; exact (A I)).
    destruct (doLiveEdit o) eqn:D; cbn [andb] in I; [|destruct I].
    destruct (findGeomMesh (c :: e)); cbn [andb] in I; [|destruct I].
    destruct (contains (str ".live") (c :: e)) eqn:C; [|destruct I].
    destruct I as [I|[]]. injection I as <-.
    split; [reflexivity|]. split; [exact C|]. split; [reflexivity|].
    left. reflexivity.
Qed.

End HelloMainFacts.

(** X18. helloWorld's main starts a live edit only on a stage whose URL
    contains [.live], and only when one of its arguments is [-l], [--live],
    [-e] or [--existing]; when the live edit returns, main ends by
    returning 0.  The stage is either the argument that stands right after
    an [-e] or [--existing], or the stage that main created, whose URL is a
    folder followed by [/helloworld.live]. *)
Theorem live_edit_needs_a_live_stage (uris : SessionMain.Uris)
        (sdk : HelloMain.Sdk) (argv : list text) (stage : text) :
  In (HelloMain.LiveEdit stage) (fst (HelloMain.main argv)) ->
  HelloMain.contains (str ".live") stage = true
  /\ existsb HelloMain.asks_live (tl argv) = true
  /\ snd (HelloMain.main argv) = HelloMain.Returns 0
  /\ (SessionMain.follows_existing (tl argv) stage
      \/ exists folder, stage = folder ++ str "/helloworld" ++ str ".live").
Proof.
  unfold HelloMain.main.
  destruct (HelloMain.startOmniverse _); cbn [negb]; [|intros []].
  destruct (HelloMain.process (tl argv) HelloMain.defaults) as [ev r] eqn:P.
  destruct r as [code|o].
  { cbn [fst]. intros I. exfalso.
    apply (process_return _ (tl argv) (le_n _) _ _ _ P).
    exists stage. exact I. }
  destruct (process_options _ (tl argv) (le_n _) _ _ _ P) as (D & E & N).
  pose proof (stage_and_edit_live o stage) as S.
  destruct (HelloMain.stage_and_edit o) as [ev' end_].
  cbn [fst snd] in *. intros I. apply in_app_iff in I.
  destruct I as [I|I]; [exfalso; apply N; exists stage; exact I|].
  destruct (S I) as (L & C & R & W).
  split; [exact C|]. split.
  { destruct (D L) as [X|X]; [discriminate | exact X]. }
  split; [exact R|].
  destruct W as [->|(_ & folder & ->)].
  - destruct E as [E|E]; [|left; exact E].
    cbn [HelloMain.existingStage HelloMain.defaults] in E.
    rewrite E in C. discriminate.
  - right. exists folder. reflexivity.
Qed.

Lemma live_edit_needs_a_live_stage_witness :
  HelloMain.main (uris := DemoSession.uris) (sdk := DemoHello.sdk)
    [str "helloWorld"; str "-l"; str "-p"; str "omniverse://h/demo"]
  = ([HelloMain.CreateModel (str "omniverse://h/demo/helloworld.live");
      HelloMain.LiveEdit (str "omniverse://h/demo/helloworld.live");
      HelloMain.Shutdown], HelloMain.Returns 0)
  /\ HelloMain.contains (str ".live")
       (str "omniverse://h/demo/helloworld.live") = true.
Proof.
  split; [reflexivity|].
  destruct (live_edit_needs_a_live_stage DemoSession.uris DemoHello.sdk
              [str "helloWorld"; str "-l"; str "-p";
               str "omniverse://h/demo"]
              (str "omniverse://h/demo/helloworld.live"))
    as (C & _).
  - cbn. right. left. reflexivity.
  - exact C.
Defined.

Example existing_stage_that_is_not_live :
  HelloMain.main (uris := DemoSession.uris) (sdk := DemoHello.sdk)
    [str "helloWorld"; str "-e"; str "omniverse://h/stage.usd"]
  = ([HelloMain.FindMesh (str "omniverse://h/stage.usd");
      HelloMain.Shutdown], HelloMain.Returns 0).
Proof. reflexivity. Qed.
